(** * SQLAgent: the query safety pipeline

    A shallow embedding of the two decision procedures of the repository:

    - the cleanup block of [NLToSQLConverter.translate] (nl_to_sql.py), which
      reduces a raw model completion to one candidate SELECT statement;
    - [SQLValidator] (sql_validator.py), which accepts a statement only when
      it is a lone SELECT whose FROM/JOIN tables are known.

    Python [str] values are modelled as lists of characters.  The embedding
    covers ASCII text: [upper], [lower] and [strip] act on the ASCII letters
    and the ASCII white space of Python's [str] methods.  Beyond ASCII
    Python's [lower] and [upper] can change the length of a text (the lower
    case of U+0130 is two characters, the upper case of U+00DF is SS), and
    [strip] knows more white space; a statement that rests on positions found
    in the one form of a text and used in the other is made of texts that
    satisfy [isascii]. *)

From Stdlib Require Import List Ascii String ZArith Lia Bool.
From stdpp Require Import base gmap sets list strings.

Local Open Scope Z_scope.

(** ** Python strings *)

Module Str.

Abbreviation str := (list ascii).

(** The double quote and the line feed. *)
Definition dquote : ascii := "034"%char.
Definition LF : ascii := "010"%char.

(** A literal of the source. *)
Definition py (s : string) : str := list_ascii_of_string s.

(** [str.isspace] on one ASCII character: TAB, LF, VT, FF, CR, the four
    separators FS, GS, RS, US and the blank. *)
Definition isspace (c : ascii) : bool :=
  let n := N_of_ascii c in
  ((9 <=? n) && (n <=? 13) || (28 <=? n) && (n <=? 32))%N.

Definition toupper (c : ascii) : ascii :=
  let n := N_of_ascii c in
  if ((97 <=? n) && (n <=? 122))%N then ascii_of_N (n - 32) else c.

Definition tolower (c : ascii) : ascii :=
  let n := N_of_ascii c in
  if ((65 <=? n) && (n <=? 90))%N then ascii_of_N (n + 32) else c.

Definition upper (s : str) : str := map toupper s.
Definition lower (s : str) : str := map tolower s.

(** [s.isascii()]: every character is below U+0080.  On such a text the
    functions of this module are Python's. *)
Definition isascii (s : str) : bool :=
  forallb (λ c, (N_of_ascii c <? 128)%N) s.

Fixpoint lstrip (s : str) : str :=
  match s with
  | c :: s' => if isspace c then lstrip s' else s
  | [] => []
  end.

Definition rstrip (s : str) : str := rev (lstrip (rev s)).

Definition strip (s : str) : str := rstrip (lstrip s).

(** [s.startswith(p)] *)
Fixpoint startswith (s p : str) {struct p} : bool :=
  match p, s with
  | [], _ => true
  | _ :: _, [] => false
  | a :: p', c :: s' => if Ascii.eqb c a then startswith s' p' else false
  end.

(** [s.endswith(p)] *)
Definition endswith (s p : str) : bool := startswith (rev s) (rev p).

(** Index of the first occurrence of [p] in [s], when there is one. *)
Fixpoint index_of (s p : str) : option nat :=
  if startswith s p then Some 0%nat
  else match s with
       | [] => None
       | _ :: s' => option_map S (index_of s' p)
       end.

(** [s.find(p)]: the lowest index of [p] in [s], or [-1]. *)
Definition find (s p : str) : Z :=
  match index_of s p with
  | Some i => Z.of_nat i
  | None => -1
  end.

(** [p in s] *)
Definition contains (s p : str) : bool :=
  match index_of s p with Some _ => true | None => false end.

Definition len (s : str) : Z := Z.of_nat (length s).

(** A slice bound as Python resolves it against a string of length [n]:
    a negative bound counts from the end, and every bound is clamped to
    [0..n]. *)
Definition bound (n : nat) (i : Z) : nat :=
  if i <? 0 then Z.to_nat (Z.max 0 (Z.of_nat n + i))
  else Z.to_nat (Z.min i (Z.of_nat n)).

(** [s[lo:hi]], an absent bound being [None]. *)
Definition slice (s : str) (lo hi : option Z) : str :=
  let n := length s in
  let a := match lo with Some i => bound n i | None => 0%nat end in
  let b := match hi with Some i => bound n i | None => n end in
  firstn (b - a) (skipn a s).

(** [s.split(sep)[-1]] for a one-character separator: the text after the last
    [sep], the whole of [s] when there is none. *)
Fixpoint split_last (sep : ascii) (s : str) : str :=
  match s with
  | [] => []
  | c :: s' =>
      if existsb (Ascii.eqb sep) s' then split_last sep s'
      else if Ascii.eqb c sep then s' else s
  end.

End Str.

Import Str.

(** What a call does: it returns a value or raises an exception, of which the
    class name and the message are kept. *)
Inductive outcome (A : Type) : Type :=
| Return (a : A)
| Raise (exn : string) (msg : str).
Arguments Return {A} a.
Arguments Raise {A} exn msg.

(** ** nl_to_sql.py: the cleanup of a completion *)

Module NLToSQLConverter.

Definition explanation_markers : list str :=
  [ py "this query will"; py "the query above"; py "explanation:";
    py "here is the sql"; py "note:"; py "```" ].

(** One round of the loop over [explanation_markers]. *)
Definition cut_marker (sql_query marker : str) : str :=
  let marker_idx := find (lower sql_query) marker in
  if marker_idx =? -1 then sql_query
  else strip (slice sql_query None (Some marker_idx)).

(** Step 1: the markdown block. *)
Definition remove_fences (sql_query : str) : str :=
  let sql_query :=
    if startswith sql_query (py "```sql")
    then strip (slice sql_query (Some (len (py "```sql"))) None)
    else sql_query in
  if endswith sql_query (py "```")
  then strip (slice sql_query None (Some (- len (py "```"))))
  else sql_query.

(** Step 2: the quotes around the whole query; two [if]s in a row. *)
Definition remove_quotes (sql_query : str) : str :=
  let sql_query :=
    if startswith sql_query (py "'") && endswith sql_query (py "'")
    then slice sql_query (Some 1) (Some (-1))
    else sql_query in
  if startswith sql_query [dquote] && endswith sql_query [dquote]
  then slice sql_query (Some 1) (Some (-1))
  else sql_query.

(** Step 3: keep the text from the first "SELECT " on, then cut it at every
    marker in turn. *)
Definition extract_select (sql_query : str) : str :=
  let select_kw_upper := py "SELECT " in
  let sql_upper := upper sql_query in
  let select_idx := find sql_upper select_kw_upper in
  if negb (select_idx =? -1) then
    let actual_select_idx := find (lower sql_query) (py "select ") in
    let sql_query :=
      if negb (actual_select_idx =? -1)
      then slice sql_query (Some actual_select_idx) None
      else slice sql_query (Some select_idx) None in
    fold_left cut_marker explanation_markers sql_query
  else sql_query.

(** Step 4: the closing semicolon. *)
Definition ensure_semicolon (sql_query : str) : str :=
  if startswith (strip (upper sql_query)) (py "SELECT")
     && negb (endswith (strip sql_query) (py ";"))
  then strip sql_query ++ py ";"
  else sql_query.

Definition rejection : str :=
  py "LLM (Ollama) returned an empty or non-SELECT query after processing.".

(** The final check and the result. *)
Definition check_select (sql_query : str) : outcome str :=
  if match sql_query with [] => true | _ => false end
     || negb (startswith (strip (upper sql_query)) (py "SELECT"))
  then Raise "ValueError" rejection
  else Return sql_query.

(** [translate] from [sql_query = response_data["response"].strip()] to its
    [return]: the text handed to the validator, or the [ValueError].  The
    lines before, which build the prompt and post it, are not modelled; they
    reach this block with the text of a response that is not empty. *)
Definition cleanup (response : str) : outcome str :=
  let sql_query := strip response in
  let sql_query := remove_fences sql_query in
  let sql_query := remove_quotes sql_query in
  let sql_query := extract_select sql_query in
  let sql_query := ensure_semicolon sql_query in
  check_select sql_query.

End NLToSQLConverter.

Import NLToSQLConverter.

(** ** sql_validator.py *)

(** *** What the validator reads of sqlparse's parse tree

    sqlparse is a library the repository calls; of the tree it returns the
    validator looks at a statement's type and at its top-level tokens: whether
    one is a keyword and its normalized text, whether one is an [Identifier]
    or an [IdentifierList], and what [get_real_name] answers. *)

Module SQLParse.

(** A member of [IdentifierList.get_identifiers()]: an [Identifier] with the
    answer of its [get_real_name()], which is a name or [None], or a plain
    token, which has no such method. *)
Inductive list_item : Type :=
| IdentifierItem (get_real_name : option str)
| PlainItem.

Inductive token : Type :=
| Keyword (normalized : str)
| Identifier (get_real_name : option str)
| IdentifierList (get_identifiers : list list_item)
| Other.

Definition is_keyword (t : token) : bool :=
  match t with Keyword _ => true | _ => false end.

Definition normalized (t : token) : str :=
  match t with Keyword n => n | _ => [] end.

Record statement : Type := Statement {
  get_type : str;
  tokens : list token
}.

End SQLParse.

Import SQLParse.

Module SQLValidator.

Definition join_keywords : list str :=
  [ py "JOIN"; py "INNER JOIN"; py "LEFT JOIN"; py "RIGHT JOIN";
    py "FULL OUTER JOIN" ].

Definition is_from (t : token) : bool :=
  is_keyword t && bool_decide (normalized t = py "FROM").

Definition is_join (t : token) : bool :=
  is_keyword t && bool_decide (normalized t ∈ join_keywords).

(** The name under which a reference is recorded: the part after the last
    dot, in lower case. *)
Definition table_name (real_name : str) : str :=
  let real_name :=
    if contains real_name (py ".") then split_last "." real_name
    else real_name in
  lower real_name.

Definition none_not_iterable : str :=
  py "argument of type 'NoneType' is not iterable".
Definition no_get_real_name : str :=
  py "'Token' object has no attribute 'get_real_name'".

(** [extracted_tables.add(...)] for an [Identifier]; [in] on [None] raises. *)
Definition add_identifier (real_name : option str) (extracted_tables : gset str)
  : outcome (gset str) :=
  match real_name with
  | Some real_name => Return ({[ table_name real_name ]} ∪ extracted_tables)
  | None => Raise "TypeError" none_not_iterable
  end.

(** The loop over [token.get_identifiers()]. *)
Fixpoint add_identifiers (idents : list list_item) (extracted_tables : gset str)
  : outcome (gset str) :=
  match idents with
  | [] => Return extracted_tables
  | PlainItem :: _ => Raise "AttributeError" no_get_real_name
  | IdentifierItem real_name :: idents' =>
      match add_identifier real_name extracted_tables with
      | Return extracted_tables => add_identifiers idents' extracted_tables
      | Raise e m => Raise e m
      end
  end.

(** The loop over [statement.tokens], with its two variables. *)
Fixpoint scan (tokens : list token) (from_seen : bool)
  (extracted_tables : gset str) : outcome (gset str) :=
  match tokens with
  | [] => Return extracted_tables
  | token :: tokens' =>
      if is_from token then scan tokens' true extracted_tables
      else if is_join token then scan tokens' true extracted_tables
      else if from_seen then
        match token with
        | Identifier real_name =>
            match add_identifier real_name extracted_tables with
            | Return extracted_tables => scan tokens' false extracted_tables
            | Raise e m => Raise e m
            end
        | IdentifierList idents =>
            match add_identifiers idents extracted_tables with
            | Return extracted_tables => scan tokens' false extracted_tables
            | Raise e m => Raise e m
            end
        | _ => scan tokens' from_seen extracted_tables
        end
      else scan tokens' from_seen extracted_tables
  end.

Definition unknown_table (table_name_from_query : str) : str :=
  py "Invalid SQL: Table '" ++ table_name_from_query
  ++ py "' does not exist in the database schema.".

(** The loop over [extracted_tables], in the order the set is iterated. *)
Fixpoint check_tables (tables : list str) (schema_table_names : gset str)
  : bool * str :=
  match tables with
  | [] => (true, py "SQL schema references seem valid.")
  | table_name_from_query :: tables' =>
      if bool_decide (table_name_from_query ∉ schema_table_names)
      then (false, unknown_table table_name_from_query)
      else check_tables tables' schema_table_names
  end.

Section Validator.

(** [sqlparse.parse], on the texts of which it returns the statements: a
    text on which the parser itself raises is outside this section. *)
Variable parse : str → list statement.

(** The order in which Python iterates a set of strings: it follows the
    strings' hashes and is left open here. *)
Variable iter : gset str → list str.

(** [self.schema] *)
Variable schema : gmap str (list str).

Definition is_readonly_query (sql_query : str) : bool :=
  let parsed := parse sql_query in
  match parsed with
  | [] => false
  | stmt :: _ =>
      let stmt_type := get_type stmt in
      if bool_decide (stmt_type ≠ py "SELECT") then false
      else if (1 <? length parsed)%nat then false
      else true
  end.

Definition schema_table_names : gset str := set_map lower (dom schema).

Definition validate_schema_references (sql_query : str)
  : outcome (bool * str) :=
  if bool_decide (schema = ∅)
  then Return (true, py "Schema not available for validation.")
  else
    match parse sql_query with
    | [] => Return (false, py "Invalid SQL syntax (parsing failed).")
    | statement :: _ =>
        match scan (tokens statement) false ∅ with
        | Return extracted_tables =>
            Return (check_tables (iter extracted_tables) schema_table_names)
        | Raise e m => Raise e m
        end
    end.

Definition validate (sql_query : str) : outcome (bool * str) :=
  if bool_decide (strip sql_query = [])
  then Return (false, py "SQL query is empty.")
  else if negb (is_readonly_query sql_query)
  then Return (false, py "Invalid SQL: Only SELECT queries are permitted.")
  else
    match validate_schema_references sql_query with
    | Return (valid_schema, schema_msg) =>
        if negb valid_schema then Return (false, schema_msg)
        else Return (true, py "SQL Validated")
    | Raise e m => Raise e m
    end.

End Validator.

(** The schema of the module's self test. *)
Definition mock_db_schema : gmap str (list str) :=
  <[ py "users" := [py "user_id"; py "username"; py "email"; py "age"] ]>
  (<[ py "products" := [py "product_id"; py "name"; py "price"] ]>
  (<[ py "orders" :=
        [py "order_id"; py "user_id"; py "product_id"; py "quantity"] ]> ∅)).

End SQLValidator.

Import SQLValidator.

(** *** [_extract_identifiers]

    The helper walks a token tree: it takes the names of the identifiers and
    of the members of identifier lists it meets, and goes down into every
    other group. *)

Module SQLTree.

#[warnings="-register-all"]
Inductive node : Type :=
| NIdentifier (get_real_name : option str)
| NIdentifierList (get_identifiers : list list_item)
| NGroup (tokens : list node)
| NToken.

End SQLTree.

Import SQLTree.

Module ExtractIdentifiers.

Definition none_has_no_lower : str :=
  py "'NoneType' object has no attribute 'lower'".

(** [name = token.get_real_name().lower(); tables.add(name)] *)
Definition add_name (real_name : option str) (tables : gset str)
  : outcome (gset str) :=
  match real_name with
  | Some real_name => Return ({[ lower real_name ]} ∪ tables)
  | None => Raise "AttributeError" none_has_no_lower
  end.

(** The loop over [token.get_identifiers()]. *)
Fixpoint add_names (idents : list list_item) (tables : gset str)
  : outcome (gset str) :=
  match idents with
  | [] => Return tables
  | PlainItem :: _ => Raise "AttributeError" no_get_real_name
  | IdentifierItem real_name :: idents' =>
      match add_name real_name tables with
      | Return tables => add_names idents' tables
      | Raise e m => Raise e m
      end
  end.

(** One round of the loop over [tokens], the sets [tables] and [columns]
    being threaded through; [_extract_identifiers] is the loop from two empty
    sets. *)
Fixpoint visit (token : node) (sets : gset str * gset str)
  : outcome (gset str * gset str) :=
  let '(tables, columns) := sets in
  match token with
  | NIdentifier real_name =>
      match add_name real_name tables with
      | Return tables => Return (tables, columns)
      | Raise e m => Raise e m
      end
  | NIdentifierList idents =>
      match add_names idents tables with
      | Return tables => Return (tables, columns)
      | Raise e m => Raise e m
      end
  | NGroup tokens =>
      match
        (fix loop (tokens : list node) (sub : gset str * gset str) :=
           match tokens with
           | [] => Return sub
           | token :: tokens' =>
               match visit token sub with
               | Return sub => loop tokens' sub
               | Raise e m => Raise e m
               end
           end) tokens (∅, ∅)
      with
      | Return (t_sub, c_sub) => Return (tables ∪ t_sub, columns ∪ c_sub)
      | Raise e m => Raise e m
      end
  | NToken => Return sets
  end.

Fixpoint visit_all (tokens : list node) (sets : gset str * gset str)
  : outcome (gset str * gset str) :=
  match tokens with
  | [] => Return sets
  | token :: tokens' =>
      match visit token sets with
      | Return sets => visit_all tokens' sets
      | Raise e m => Raise e m
      end
  end.

Definition _extract_identifiers (tokens : list node)
  : outcome (gset str * gset str) :=
  visit_all tokens (∅, ∅).

End ExtractIdentifiers.

Import ExtractIdentifiers.

(** ** config.py *)

Module Config.

(** [os.getenv(key, default)] on the environment as [load_dotenv] leaves it;
    [None] is Python's. *)
Definition getenv (environ : gmap str str) (key : str) (default : option str)
  : option str :=
  match environ !! key with
  | Some v => Some v
  | None => default
  end.

(** The truth value of a setting: [None] and the empty text are false. *)
Definition truthy (v : option str) : bool :=
  match v with
  | Some (_ :: _) => true
  | _ => false
  end.

(** The names the module binds. *)
Record settings : Type := Settings {
  DB_HOST : option str;
  DB_PORT : option str;
  DB_USER : option str;
  DB_PASSWORD : option str;
  DB_NAME : option str;
  OLLAMA_BASE_URL : option str;
  OLLAMA_MODEL : option str;
  LOG_FILE : option str
}.

(** The module's body: what importing it comes to.  [EnvironmentError] is
    Python's other name for [OSError]. *)
Definition load (environ : gmap str str) : outcome settings :=
  let DB_HOST := getenv environ (py "DB_HOST") (Some (py "localhost")) in
  let DB_PORT := getenv environ (py "DB_PORT") (Some (py "5432")) in
  let DB_USER := getenv environ (py "DB_USER") None in
  let DB_PASSWORD := getenv environ (py "DB_PASSWORD") None in
  let DB_NAME := getenv environ (py "DB_NAME") None in
  let OLLAMA_BASE_URL :=
    getenv environ (py "OLLAMA_BASE_URL") (Some (py "http://localhost:11434")) in
  let OLLAMA_MODEL := getenv environ (py "OLLAMA_MODEL") None in
  let LOG_FILE := getenv environ (py "LOG_FILE") (Some (py "logs/sqlagent.log")) in
  if negb (forallb truthy [DB_USER; DB_PASSWORD; DB_NAME])
  then Raise "OSError"
         (py "Missing essential database configuration (DB_USER, DB_PASSWORD, DB_NAME) in .env file.")
  else if negb (truthy OLLAMA_MODEL)
  then Raise "OSError"
         (py "Missing OLLAMA_MODEL configuration in .env file. Please specify the Ollama model to use (e.g., mistral, codellama).")
  else Return (Settings DB_HOST DB_PORT DB_USER DB_PASSWORD DB_NAME
                 OLLAMA_BASE_URL OLLAMA_MODEL LOG_FILE).

End Config.

(** ** db_handler.py *)

Module DBHandler.

(** The settings of config.py that the engine's address is made of. *)
Record config : Type := Config {
  DB_HOST : str;
  DB_PORT : str;
  DB_USER : str;
  DB_PASSWORD : str;
  DB_NAME : str
}.

Definition db_url (c : config) : str :=
  py "postgresql+psycopg2://" ++ DB_USER c ++ py ":" ++ DB_PASSWORD c
  ++ py "@" ++ DB_HOST c ++ py ":" ++ DB_PORT c ++ py "/" ++ DB_NAME c.

(** [sep.join(parts)] *)
Fixpoint join (sep : str) (parts : list str) : str :=
  match parts with
  | [] => []
  | [part] => part
  | part :: parts' => part ++ sep ++ join sep parts'
  end.

(** A column as the inspector describes it; the loader reads its name. *)
Record column : Type := Column { name : str }.

Definition schema_line (table_name : str) (columns : list str) : str :=
  py "Table " ++ table_name ++ py " has columns: "
  ++ join (py ", ") columns ++ py ".".

Section Database.

(** SQLAlchemy's objects and calls, which the module does not define. *)
Variables engine connection inspector row : Type.
Variable create_engine : str → outcome engine.
Variable connect : engine → outcome connection.
Variable inspect : engine → outcome inspector.
Variable get_table_names : inspector → outcome (list str).
Variable get_columns : inspector → str → outcome (list column).
Variable execute : connection → str → outcome (list str * list row).

(** The truth value Python gives an engine in [if not engine]. *)
Variable truth : engine → bool.

Variable cfg : config.

(** The two module-level caches. *)
Record globals : Type := Globals {
  _schema_cache : option (gmap str (list str) * str);
  _engine_cache : option engine
}.

Definition get_engine (g : globals) : outcome engine * globals :=
  match _engine_cache g with
  | Some e => (Return e, g)
  | None =>
      match create_engine (db_url cfg) with
      | Return e =>
          match connect e with
          | Return _ => (Return e, Globals (_schema_cache g) (Some e))
          | Raise x m => (Raise x m, Globals (_schema_cache g) None)
          end
      | Raise x m => (Raise x m, Globals (_schema_cache g) None)
      end
  end.

(** The loop over [inspector.get_table_names()]. *)
Fixpoint load_tables (insp : inspector) (table_names : list str)
  (schema_dict : gmap str (list str)) (schema_string_parts : list str)
  : outcome (gmap str (list str) * list str) :=
  match table_names with
  | [] => Return (schema_dict, schema_string_parts)
  | table_name :: table_names' =>
      match get_columns insp table_name with
      | Return cols =>
          let columns := map name cols in
          load_tables insp table_names'
            (<[ table_name := columns ]> schema_dict)
            (schema_string_parts ++ [schema_line table_name columns])
      | Raise x m => Raise x m
      end
  end.

(** The body of the [try]. *)
Definition load_schema (insp : inspector)
  : outcome (gmap str (list str) * str) :=
  match get_table_names insp with
  | Return table_names =>
      match load_tables insp table_names ∅ [] with
      | Return (schema_dict, schema_string_parts) =>
          Return (schema_dict, join [LF] schema_string_parts)
      | Raise x m => Raise x m
      end
  | Raise x m => Raise x m
  end.

Definition get_db_schema_info (g : globals)
  : outcome (gmap str (list str) * str) * globals :=
  match _schema_cache g with
  | Some cached => (Return cached, g)
  | None =>
      match get_engine g with
      | (Return e, g) =>
          if negb (truth e) then (Return (∅, []), g)
          else
            match inspect e with
            | Return insp =>
                match load_schema insp with
                | Return loaded =>
                    (Return loaded, Globals (Some loaded) (_engine_cache g))
                | Raise _ _ => (Return (∅, []), g)
                end
            | Raise x m => (Raise x m, g)
            end
      | (Raise x m, g) => (Raise x m, g)
      end
  end.

(** The test that lets a text through to the database. *)
Definition is_select (sql_query : str) : bool :=
  startswith (upper (strip sql_query)) (py "SELECT").

(** [execute_query(sql_query)]; no caller passes [params]. *)
Definition execute_query (g : globals) (sql_query : str)
  : outcome (list str * list row) * globals :=
  match get_engine g with
  | (Return e, g) =>
      if negb (truth e)
      then (Raise "ConnectionError" (py "Database engine not initialized."), g)
      else
        match connect e with
        | Return conn =>
            if is_select sql_query then (execute conn sql_query, g)
            else (Raise "ValueError"
                    (py "Only SELECT queries are allowed for execution by this agent."),
                  g)
        | Raise x m => (Raise x m, g)
        end
  | (Raise x m, g) => (Raise x m, g)
  end.

End Database.

Arguments Globals {engine} _schema_cache _engine_cache.
Arguments _schema_cache {engine} g.
Arguments _engine_cache {engine} g.
Arguments get_engine {engine connection} create_engine connect cfg g.
Arguments load_tables {inspector} get_columns insp table_names
  schema_dict schema_string_parts.
Arguments load_schema {inspector} get_table_names get_columns insp.
Arguments get_db_schema_info {engine connection inspector} create_engine
  connect inspect get_table_names get_columns truth cfg g.
Arguments execute_query {engine connection row} create_engine connect
  execute truth cfg g sql_query.

End DBHandler.

Import DBHandler.

(** ** nl_to_sql.py: the making of a converter *)

Module Converter.

(** What asking the server for its models comes to, by what
    [_test_ollama_connection] does with it: a failure of the request, any
    other exception, or the decoded list with the name of each model, the
    empty text for a model without one. *)
Inductive tags_reply : Type :=
| RequestFailed (e : str)
| TagsFailed (exn : string) (msg : str)
| Tags (names : list str).

Definition not_configured : str :=
  py "Ollama base URL or model not configured. NL-to-SQL functionality will be disabled.".

Definition failed_to_connect (ollama_base_url e : str) : str :=
  py "Failed to connect to Ollama API at " ++ ollama_base_url
  ++ py ". Ensure Ollama is running and the OLLAMA_BASE_URL is correct. Error: "
  ++ e.

(** [a or b] on two settings. *)
Definition or_else (a b : option str) : option str :=
  if Config.truthy a then a else b.

Section Init.

(** [requests.get] with the status check and the decoding of the body. *)
Variable get_tags : str → tags_reply.

(** The module [config] as it was loaded. *)
Variable config : Config.settings.

(** A model that is not on the server is worth a warning in the log and no
    more. *)
Definition _test_ollama_connection (ollama_base_url ollama_model : str)
  : outcome unit :=
  match get_tags (ollama_base_url ++ py "/api/tags") with
  | Tags names =>
      let model_found :=
        existsb (λ name, startswith name ollama_model) names in
      if negb model_found then Return tt else Return tt
  | RequestFailed e =>
      Raise "ConnectionError" (failed_to_connect ollama_base_url e)
  | TagsFailed exn msg => Raise exn msg
  end.

(** [NLToSQLConverter(ollama_base_url, ollama_model)]: the two attributes of
    the new object. *)
Definition __init__ (ollama_base_url ollama_model : option str)
  : outcome (str * str) :=
  let self_ollama_base_url :=
    or_else ollama_base_url (Config.OLLAMA_BASE_URL config) in
  let self_ollama_model :=
    or_else ollama_model (Config.OLLAMA_MODEL config) in
  match self_ollama_base_url, self_ollama_model with
  | Some ((_ :: _) as url), Some ((_ :: _) as model) =>
      match _test_ollama_connection url model with
      | Return _ => Return (url, model)
      | Raise exn msg => Raise exn msg
      end
  | _, _ => Raise "ValueError" not_configured
  end.

End Init.

End Converter.

(** ** nl_to_sql.py: [translate] around its cleanup *)

Module Translate.

(** A field of the decoded body: a text, or a value of another type, of
    which [translate] meets the truth value, the text an f-string makes of
    it and, when it calls [strip] on it, the name of its type. *)
Inductive value : Type :=
| Text (s : str)
| NonText (truth : bool) (shown : str) (type_name : str).

(** What posting the prompt comes to: one of the three failures of the
    request that [translate] has a handler for, a body that is not JSON, any
    other exception of the request or of the decoding, or the decoded body.
    The body is an object, [Json], or something else: a list, of which it
    matters whether the text "response" is among its items, a text, or a
    number, a truth value or null, of which the name of the type shows in
    the message of Python. *)
Inductive reply : Type :=
| Timeout
| ConnectionFailed (e : str)
| HTTPFailed (status_code : str) (text : str)
| NotJSON (e : str)
| Failed (exn : string) (msg : str)
| Json (response_data : gmap str value)
| JsonList (has_response : bool)
| JsonText (s : str)
| JsonScalar (type_name : str).

(** [f"{v}"] *)
Definition format (v : value) : str :=
  match v with Text s => s | NonText _ shown _ => shown end.

Definition no_strip (type_name : str) : str :=
  py "'" ++ type_name ++ py "' object has no attribute 'strip'".

(** The messages of CPython 3.12 for what lines 98 and 99 do to a body that
    is no object. *)
Definition no_get (type_name : str) : str :=
  py "'" ++ type_name ++ py "' object has no attribute 'get'".

Definition list_index_not_str : str :=
  py "list indices must be integers or slices, not str".

Definition string_index_not_str : str :=
  py "string indices must be integers, not 'str'".

Definition not_iterable (type_name : str) : str :=
  py "argument of type '" ++ type_name ++ py "' is not iterable".

Definition full_prompt (nl_query db_schema_str : str) : str :=
  [LF] ++ py "Given the following PostgreSQL database schema:" ++ [LF]
  ++ py "--- SCHEMA START ---" ++ [LF]
  ++ db_schema_str ++ [LF]
  ++ py "--- SCHEMA END ---" ++ [LF]
  ++ [LF]
  ++ py "Convert the following natural language query into a valid PostgreSQL SQL query." ++ [LF]
  ++ py "Your response MUST be ONLY the SQL query itself, with no explanations, comments, or surrounding text." ++ [LF]
  ++ py "Ensure the query is safe and only retrieves data (e.g., use SELECT statements)." ++ [LF]
  ++ py "Do not use any DML (INSERT, UPDATE, DELETE) or DDL (CREATE, ALTER, DROP) statements." ++ [LF]
  ++ [LF]
  ++ py "Natural Language Query: " ++ [dquote] ++ nl_query ++ [dquote] ++ [LF]
  ++ [LF]
  ++ py "SQL Query:" ++ [LF].

Definition no_response : str := py "No 'response' field or empty response.".

Section Converter.

Variable ollama_base_url : str.
Variable ollama_model : str.

(** [requests.post] of the prompt for the model at the address, with the
    status check and the decoding of the body. *)
Variable post : str → str → str → reply.

Definition translate (nl_query db_schema_str : str) : outcome str :=
  if bool_decide (db_schema_str = [])
  then Raise "ValueError"
         (py "Database schema is required for NL-to-SQL conversion.")
  else
    let ollama_api_url := ollama_base_url ++ py "/api/generate" in
    match post ollama_api_url ollama_model
            (full_prompt nl_query db_schema_str) with
    | Json response_data =>
        match response_data !! py "response" with
        | Some (Text ((_ :: _) as response)) => cleanup response
        | Some (NonText true _ type_name) =>
            Raise "AttributeError" (no_strip type_name)
        | _ =>
            let error_detail :=
              match response_data !! py "error" with
              | Some v => format v
              | None => no_response
              end in
            Raise "ValueError"
              (py "LLM (Ollama) returned an empty or malformed response: "
               ++ error_detail)
        end
    | Timeout =>
        Raise "ConnectionError"
          (py "Timeout: Ollama API at " ++ ollama_api_url
           ++ py " did not respond in time.")
    | ConnectionFailed e =>
        Raise "ConnectionError"
          (py "Connection error: Could not connect to Ollama API at "
           ++ ollama_api_url ++ py ". Ensure Ollama is running. Details: " ++ e)
    | HTTPFailed status_code error_body =>
        Raise "ConnectionError"
          (py "Ollama API HTTP error: " ++ status_code ++ py ". Detail: "
           ++ slice error_body None (Some 200))
    | NotJSON e =>
        Raise "ValueError"
          (py "Ollama API returned non-JSON or malformed JSON. Error: " ++ e)
    | Failed exn msg => Raise exn msg
    | JsonList has_response =>
        if negb has_response
        then Raise "AttributeError" (no_get (py "list"))
        else Raise "TypeError" list_index_not_str
    | JsonText s =>
        if negb (contains s (py "response"))
        then Raise "AttributeError" (no_get (py "str"))
        else Raise "TypeError" string_index_not_str
    | JsonScalar type_name => Raise "TypeError" (not_iterable type_name)
    end.

End Converter.

End Translate.

Import Translate.

(** ** cli.py *)

Module CLI.

(** What a run of [main] does that can be seen from outside, in order: the
    lines it prints, the call of [execute_query], and [sys.exit]. *)
Inductive event : Type :=
| Printed (line : str)
| Executed (sql_query : str)
| Exited (code : Z).

(** What [parser.parse_args()] makes of the command line: the namespace with
    the question, or the end of the run, which argparse brings about itself,
    with status 0 after the help it was asked for and with status 2 after a
    command line that does not fit (no question, a second argument, an option
    it does not know).  What argparse prints then is not kept. *)
Inductive arguments : Type :=
| Namespace (nl_query : str)
| Help
| Usage.

Section Main.

Variable row : Type.

(** [get_db_schema_info()] and [NLToSQLConverter()] as the run finds them. *)
Variable schema_info : outcome (gmap str (list str) * str).
Variable new_converter : outcome unit.

(** [nl_converter.translate] *)
Variable translate : str → str → outcome str.

(** The parser and the order of sets behind [sql_validator.validate]. *)
Variable parse : str → list statement.
Variable iter : gset str → list str.

Variable execute_query : str → outcome (list str * list row).

(** [pd.DataFrame(data, columns=cols)] and [df.to_string(index=False)] *)
Variable frame : Type.
Variable DataFrame : list row → list str → outcome frame.
Variable to_string : frame → outcome str.

(** [issubclass] on the names of exception classes, for the two classes the
    handlers are written for. *)
Variable subclass : string → string → bool.

Definition is_a (exn base : string) : bool :=
  String.eqb exn base || subclass exn base.

Definition execution_failed (e : str) : list event :=
  [ Printed (py "Error: SQL Execution Failed: " ++ e); Exited 1 ].

(** Step 5. *)
Definition execute_step (generated_sql : str) : list event :=
  Printed ([LF] ++ py "Executing SQL...")
  :: Executed generated_sql
  :: match execute_query generated_sql with
     | Return (cols, data) =>
         match data with
         | _ :: _ =>
             match DataFrame data cols with
             | Return df =>
                 Printed ([LF] ++ py "Query Results:")
                 :: match to_string df with
                    | Return table => [ Printed table ]
                    | Raise _ e => execution_failed e
                    end
             | Raise _ e => execution_failed e
             end
         | [] =>
             [ Printed ([LF]
                 ++ py "Query executed successfully, but no rows were returned.") ]
         end
     | Raise _ e => execution_failed e
     end.

(** Step 4. *)
Definition validate_step (db_schema_dict : gmap str (list str))
  (generated_sql : str) : list event :=
  Printed (py "Validating SQL...")
  :: match validate parse iter db_schema_dict generated_sql with
     | Return (is_valid, validation_msg) =>
         if negb is_valid
         then [ Printed (py "Error: Invalid SQL. " ++ validation_msg); Exited 1 ]
         else Printed (py "SQL Validated successfully.")
              :: execute_step generated_sql
     | Raise _ _ =>
         [ Printed (py "Error: Error during SQL validation."); Exited 1 ]
     end.

(** Step 3. *)
Definition translate_step (nl_query : str)
  (db_schema_dict : gmap str (list str)) (db_schema_str : str) : list event :=
  Printed (py "Translating to SQL...")
  :: match translate nl_query db_schema_str with
     | Return generated_sql =>
         Printed ([LF] ++ py "Generated SQL:" ++ [LF] ++ generated_sql ++ [LF])
         :: validate_step db_schema_dict generated_sql
     | Raise exn e =>
         if is_a exn "ValueError"
         then [ Printed (py "Translation Error: " ++ e); Exited 1 ]
         else if is_a exn "ConnectionError"
         then [ Printed (py "Translation Service Error: " ++ e); Exited 1 ]
         else [ Printed (py "Error: Unable to generate SQL. Please refine your question or check LLM configuration.");
                Exited 1 ]
     end.

Definition main (args : arguments) : list event :=
  match args with
  | Help => [ Exited 0 ]
  | Usage => [ Exited 2 ]
  | Namespace nl_query =>
      match schema_info with
      | Return (db_schema_dict, db_schema_str) =>
          if bool_decide (db_schema_dict = ∅)
          then [ Printed (py "Error: Could not load database schema. Check connection and logs.");
                 Exited 1 ]
          else
            match new_converter with
            | Return _ => translate_step nl_query db_schema_dict db_schema_str
            | Raise _ e =>
                [ Printed (py "Error initializing core components: " ++ e);
                  Exited 1 ]
            end
      | Raise _ e =>
          [ Printed (py "Error initializing database connection or schema: "
                     ++ e);
            Exited 1 ]
      end
  end.

End Main.

Arguments execute_step {row} execute_query {frame} DataFrame to_string
  generated_sql.
Arguments validate_step {row} parse iter execute_query {frame} DataFrame
  to_string db_schema_dict generated_sql.
Arguments translate_step {row} translate parse iter execute_query {frame}
  DataFrame to_string subclass nl_query db_schema_dict db_schema_str.
Arguments main {row} schema_info new_converter translate parse iter
  execute_query {frame} DataFrame to_string subclass args.

End CLI.

Import CLI.

(** ** app.py *)

Module App.

Section Resources.

Variables converter validator : Type.

(** [get_db_schema_info()], [NLToSQLConverter()] and [SQLValidator(...)] as
    the session finds them. *)
Variable schema_info : outcome (gmap str (list str) * str).
Variable new_converter : outcome converter.
Variable new_validator : gmap str (list str) → outcome validator.

(** What [initialize_app_resources] returns; [None] stands for Python's. *)
Record resources : Type := Resources {
  db_schema_dict : option (gmap str (list str));
  db_schema_str : option str;
  nl_converter : option converter;
  sql_validator : option validator;
  app_init_error : option str
}.

Definition critical (e : str) : str :=
  py "Critical error during app initialization: " ++ e.

Definition initialize_app_resources : resources :=
  match schema_info with
  | Return (schema_dict, schema_str) =>
      if bool_decide (schema_dict = ∅)
      then Resources (Some schema_dict) (Some schema_str) None None
             (Some (py "Failed to load database schema. Please check DB connection and logs."))
      else
        match new_converter with
        | Return nl_converter =>
            match new_validator schema_dict with
            | Return sql_validator_instance =>
                Resources (Some schema_dict) (Some schema_str)
                  (Some nl_converter) (Some sql_validator_instance) None
            | Raise _ e =>
                Resources (Some schema_dict) (Some schema_str)
                  (Some nl_converter) None (Some (critical e))
            end
        | Raise _ e =>
            Resources (Some schema_dict) (Some schema_str) None None
              (Some (critical e))
        end
  | Raise _ e => Resources None None None None (Some (critical e))
  end.

(** How the script goes on after the resources are there: it stops with an
    error on the page, or it draws the page. *)
Inductive start : Type :=
| Stopped (error : str)
| Page.

(** Lines 51 to 59; a converter and a validator are objects, which Python
    takes for true. *)
Definition startup : start :=
  let r := initialize_app_resources in
  match app_init_error r with
  | Some ((_ :: _) as app_init_error) =>
      Stopped (py "Application Initialization Failed: " ++ app_init_error)
  | _ =>
      let no_schema :=
        match db_schema_dict r with
        | Some d => bool_decide (d = ∅)
        | None => true
        end in
      if no_schema || negb (bool_decide (is_Some (nl_converter r)))
         || negb (bool_decide (is_Some (sql_validator r)))
      then Stopped (py "One or more critical components (schema, NL converter, SQL validator) failed to initialize properly. The application cannot proceed.")
      else Page
  end.

End Resources.

Arguments Resources {converter validator} db_schema_dict db_schema_str
  nl_converter sql_validator app_init_error.
Arguments db_schema_dict {converter validator} r.
Arguments db_schema_str {converter validator} r.
Arguments nl_converter {converter validator} r.
Arguments sql_validator {converter validator} r.
Arguments app_init_error {converter validator} r.
Arguments initialize_app_resources {converter validator} schema_info
  new_converter new_validator.
Arguments startup {converter validator} schema_info new_converter
  new_validator.

Section Submit.

Variable row : Type.

(** [nl_converter.translate] and the schema text it is given. *)
Variable translate : str → str → outcome str.
Variable db_schema_str : str.

(** What lies behind [sql_validator.validate]. *)
Variable parse : str → list statement.
Variable iter : gset str → list str.
Variable db_schema_dict : gmap str (list str).

Variable execute_query : str → outcome (list str * list row).
Variable subclass : string → string → bool.

(** The four entries of [st.session_state]. *)
Record session_state : Type := SessionState {
  nl_query : str;
  generated_sql : str;
  query_results : option (list str * list row);
  error_message : str
}.

(** Step 4: the state afterwards and the texts [execute_query] was called
    with. *)
Definition execute_step (s : session_state) : session_state * list str :=
  if bool_decide (error_message s = []) then
    match execute_query (generated_sql s) with
    | Return (cols, data) =>
        (SessionState (nl_query s) (generated_sql s) (Some (cols, data))
           (error_message s),
         [generated_sql s])
    | Raise _ e =>
        (SessionState (nl_query s) (generated_sql s) (query_results s)
           (py "SQL Execution Failed: " ++ e),
         [generated_sql s])
    end
  else (s, []).

(** Steps 2 and 3. *)
Definition validate_step (s : session_state) : session_state * list str :=
  if negb (bool_decide (generated_sql s = []))
     && bool_decide (error_message s = []) then
    let s :=
      match validate parse iter db_schema_dict (generated_sql s) with
      | Return (is_valid, validation_msg) =>
          if negb is_valid
          then SessionState (nl_query s) (generated_sql s) (query_results s)
                 (py "Invalid SQL: " ++ validation_msg)
          else s
      | Raise _ _ =>
          SessionState (nl_query s) (generated_sql s) (query_results s)
            (py "Error during SQL validation. Please check the query.")
      end in
    execute_step s
  else (s, []).

(** Step 1, after the four assignments that open the block. *)
Definition translate_step (nl_query_input : str) : session_state :=
  let s := SessionState nl_query_input [] None [] in
  match translate (nl_query s) db_schema_str with
  | Return sql => SessionState (nl_query s) sql (query_results s) (error_message s)
  | Raise exn e =>
      SessionState (nl_query s) (generated_sql s) (query_results s)
        (if is_a subclass exn "ValueError"
         then py "Translation Error: " ++ e
         else if is_a subclass exn "ConnectionError"
         then py "Translation Service Error: " ++ e
         else py "Unable to generate SQL. Please refine your question or check LLM configuration.")
  end.

(** The body of the block of line 83: what is done once the button was
    pressed with a text in the form. *)
Definition submit (nl_query_input : str) : session_state * list str :=
  validate_step (translate_step nl_query_input).

(** Line 83 with its block: without the button, or with no text in the
    form, nothing is done and the session stays as it is.  The rerun that
    ends the block, after which the page is drawn from the session, is not
    modelled. *)
Definition on_form (submit_button : bool) (nl_query_input : str)
  (s : session_state) : session_state * list str :=
  if submit_button && negb (bool_decide (nl_query_input = []))
  then submit nl_query_input
  else (s, []).

End Submit.

Arguments SessionState {row} nl_query generated_sql query_results
  error_message.
Arguments nl_query {row} s.
Arguments generated_sql {row} s.
Arguments query_results {row} s.
Arguments error_message {row} s.
Arguments execute_step {row} execute_query s.
Arguments validate_step {row} parse iter db_schema_dict execute_query s.
Arguments translate_step {row} translate db_schema_str subclass
  nl_query_input.
Arguments submit {row} translate db_schema_str parse iter db_schema_dict
  execute_query subclass nl_query_input.
Arguments on_form {row} translate db_schema_str parse iter db_schema_dict
  execute_query subclass submit_button nl_query_input s.

End App.

(** ** Vocabulary of the statements *)

(** [p] occurs in [s] as a run of consecutive characters. *)
Definition occurs (p s : str) : Prop := ∃ a b, s = a ++ p ++ b.

(** A completion that needs no cleanup: trimmed, opening with SELECT, closed
    by a semicolon, and either free of the token "SELECT " or opening with it
    and free of every marker. *)
Definition well_formed (y : str) : bool :=
  bool_decide (strip y = y)
  && startswith (upper y) (py "SELECT")
  && endswith y (py ";")
  && (negb (contains (upper y) (py "SELECT "))
      || startswith (lower y) (py "select ")
         && forallb (λ m, negb (contains (lower y) m)) explanation_markers).

(** [s] is empty or opens with a character that is not white space. *)
Definition nospace_hd (s : str) : bool :=
  match s with
  | [] => true
  | c :: _ => negb (isspace c)
  end.

(** One of [a] and [b] is a prefix of the other: a text that opens with [a]
    may open with [b]. *)
Definition compatible (a b : str) : bool := startswith a b || startswith b a.

(** No marker of [before] can begin inside an occurrence of [m]. *)
Definition clear_of (m : str) (before : list str) : bool :=
  forallb (λ m1, forallb (λ d, negb (compatible (skipn d m) m1))
                   (seq 1 (length m - 1)))
          before.

(** [cur] is a prefix of [s] that stops at or before the position [i] of an
    occurrence of [m] in [s], or else holds that occurrence whole. *)
Definition stands_apart (s m : str) (i : nat) (cur : str) : Prop :=
  (∃ w, s = cur ++ w)
  ∧ ((length cur ≤ i)%nat ∨ (i + length m ≤ length cur)%nat).

(** A token that makes the scan expect a table. *)
Definition opens_table (t : token) : bool := is_from t || is_join t.

(** White space, punctuation and the like between the tokens of interest. *)
Definition plain (t : token) : bool :=
  match t with Other => true | _ => false end.

(** A member of an identifier list that answers [get_real_name] with a
    name. *)
Definition named_item (i : list_item) : bool :=
  match i with IdentifierItem (Some _) => true | _ => false end.

(** A token all of whose identifiers answer [get_real_name] with a name. *)
Definition named (t : token) : bool :=
  match t with
  | Identifier None => false
  | IdentifierList idents => forallb named_item idents
  | _ => true
  end.

(** The schema has a table whose name is [t] up to case. *)
Definition known (schema : gmap str (list str)) (t : str) : Prop :=
  ∃ k, is_Some (schema !! k) ∧ lower k = t.

(** The schema of the specification's examples: one table, users. *)
Definition users_schema : gmap str (list str) :=
  {[ py "users" := [py "user_id"; py "username"; py "email"; py "age"] ]}.

(** The first element of [l] that is not in [X]. *)
Fixpoint first_missing (l : list str) (X : gset str) : option str :=
  match l with
  | [] => None
  | t :: l' => if bool_decide (t ∉ X) then Some t else first_missing l' X
  end.

(** What a round of [_extract_identifiers] may do to its two sets: the
    columns stay as they are, and every table name that comes in is in lower
    case. *)
Definition grown (before after : gset str * gset str) : Prop :=
  after.2 = before.2
  ∧ before.1 ⊆ after.1
  ∧ ∀ t, t ∈ after.1 → t ∈ before.1 ∨ lower t = t.

(** The texts with which a run called [execute_query], in order. *)
Fixpoint calls (run : list event) : list str :=
  match run with
  | [] => []
  | Executed sql_query :: run' => sql_query :: calls run'
  | _ :: run' => calls run'
  end.

(** The codes with which a run called [sys.exit], in order. *)
Fixpoint exits (run : list event) : list Z :=
  match run with
  | [] => []
  | Exited code :: run' => code :: exits run'
  | _ :: run' => exits run'
  end.

(** *** Parse trees of sqlparse for a few statements

    The tokens sqlparse delivers for the statements of the module's self test
    and of the examples below; [Other] stands for white space, the wildcard,
    numbers and punctuation. *)

Definition select_star_from (table : token) : list token :=
  [ Keyword (py "SELECT"); Other; Other; Other; Keyword (py "FROM"); Other;
    table; Other ].

Definition sample_parse (sql_query : str) : list statement :=
  if bool_decide (sql_query = py "SELECT * FROM users;") then
    [ Statement (py "SELECT")
        (select_star_from (Identifier (Some (py "users")))) ]
  else if bool_decide (sql_query = py "SELECT * FROM ghost_table;") then
    [ Statement (py "SELECT")
        (select_star_from (Identifier (Some (py "ghost_table")))) ]
  else if bool_decide (sql_query = py "SELECT * FROM ghost_one, ghost_two;") then
    [ Statement (py "SELECT")
        (select_star_from
           (IdentifierList [ IdentifierItem (Some (py "ghost_one"));
                             IdentifierItem (Some (py "ghost_two")) ])) ]
  else if bool_decide (sql_query = py "SELECT * FROM pg_catalog.users;") then
    [ Statement (py "SELECT")
        (select_star_from (Identifier (Some (py "users")))) ]
  else if bool_decide (sql_query = py "SELECT 1;") then
    [ Statement (py "SELECT") [ Keyword (py "SELECT"); Other; Other; Other ] ]
  else if bool_decide (sql_query = py "DROP TABLE users;") then
    [ Statement (py "DROP")
        [ Keyword (py "DROP"); Other; Keyword (py "TABLE"); Other;
          Identifier (Some (py "users")); Other ] ]
  else if bool_decide
            (sql_query = py "SELECT * FROM users; SELECT * FROM orders;") then
    [ Statement (py "SELECT")
        (select_star_from (Identifier (Some (py "users"))));
      Statement (py "SELECT")
        (Other :: select_star_from (Identifier (Some (py "orders")))) ]
  else [].

(** *** The clauses of a statement

    A table reference as the scan meets it: one identifier, or a list of
    identifiers, each with a real name. *)
Inductive reference : Type :=
| One (real_name : str)
| Several (real_names : list str).

Definition reference_token (r : reference) : token :=
  match r with
  | One real_name => Identifier (Some real_name)
  | Several real_names =>
      IdentifierList (map (λ n, IdentifierItem (Some n)) real_names)
  end.

Definition reference_names (r : reference) : list str :=
  match r with
  | One real_name => [real_name]
  | Several real_names => real_names
  end.

(** A clause: the keyword that opens it, the white space after the keyword,
    the reference, and what follows up to the next clause. *)
Record clause : Type := Clause {
  opener : str;
  space : list token;
  referred : reference;
  rest : list token
}.

Definition clause_tokens (c : clause) : list token :=
  Keyword (opener c) :: space c ++ reference_token (referred c) :: rest c.

(** The keyword is FROM or one of the join keywords, white space alone
    stands before the reference, and no such keyword comes after it. *)
Definition is_clause (c : clause) : bool :=
  bool_decide (opener c ∈ py "FROM" :: join_keywords)
  && forallb plain (space c)
  && forallb (λ t, negb (opens_table t)) (rest c).

(** The real names of all references of a list of clauses, in order. *)
Definition referenced (cs : list clause) : list str :=
  concat (map (λ c, reference_names (referred c)) cs).

(** A reference that names, without or with a prefix, a table the schema
    has up to case. *)
Definition qualifies (schema : gmap str (list str)) (r : str) : Prop :=
  ∃ name key,
    (r = name ∨ ∃ prefix, r = prefix ++ py "." ++ name)
    ∧ contains name (py ".") = false
    ∧ is_Some (schema !! key) ∧ lower key = lower name.


(** *** A session on the users schema

    The schema text that goes with [users_schema], a converter that answers
    every question with the one statement, a server that does, and a database
    that answers with a column and no rows. *)

Definition users_text : str :=
  py "Table users has columns: user_id, username, email, age.".

Definition sample_translate (nl_query db_schema_str : str) : outcome str :=
  Return (py "SELECT * FROM users;").

Definition sample_post (url model prompt : str) : reply :=
  Json {[ py "response" := Text (py "SELECT * FROM users;") ]}.

Definition sample_execute (sql_query : str) : outcome (list str * list unit) :=
  Return ([py "user_id"], []).

(** A database of one table, behind an engine that is its address. *)
Definition shop : config :=
  Config (py "localhost") (py "5432") (py "u") (py "p") (py "shop").

Definition shop_engine (url : str) : outcome str := Return url.

Definition shop_connect (e : str) : outcome unit := Return tt.

Definition shop_inspect (e : str) : outcome unit := Return tt.

Definition shop_tables (i : unit) : outcome (list str) := Return [py "users"].

Definition shop_columns (i : unit) (table_name : str)
  : outcome (list column) :=
  Return [Column (py "id"); Column (py "email")].

Definition shop_execute (c : unit) (sql_query : str)
  : outcome (list str * list str) :=
  Return ([py "ok"], [sql_query]).

(** * Properties *)

(** ** Characters *)

Ltac each_char c :=
  destruct c as [[] [] [] [] [] [] [] []]; vm_compute; try reflexivity.

Lemma isspace_toupper c : isspace (toupper c) = isspace c.
Proof. each_char c. Qed.

Lemma isspace_tolower c : isspace (tolower c) = isspace c.
Proof. each_char c. Qed.

Lemma toupper_tolower c : toupper (tolower c) = toupper c.
Proof. each_char c. Qed.

Lemma tolower_toupper c : tolower (toupper c) = tolower c.
Proof. each_char c. Qed.

Lemma caseless_eqb c a :
  Ascii.eqb (toupper c) (toupper a) = Ascii.eqb (tolower c) (tolower a).
Proof.
  destruct (Ascii.eqb_spec (toupper c) (toupper a)) as [E|E];
    destruct (Ascii.eqb_spec (tolower c) (tolower a)) as [F|F]; try reflexivity.
  - exfalso. apply F.
    rewrite <- (tolower_toupper c), <- (tolower_toupper a). now rewrite E.
  - exfalso. apply E.
    rewrite <- (toupper_tolower c), <- (toupper_tolower a). now rewrite F.
Qed.

(** ** Trimming *)

Lemma lstrip_id s : nospace_hd s = true → lstrip s = s.
Proof. destruct s as [|c s]; simpl; [easy|]. now destruct (isspace c). Qed.

Lemma nospace_hd_lstrip s : nospace_hd (lstrip s) = true.
Proof.
  induction s as [|c s IH]; simpl; [easy|].
  destruct (isspace c) eqn:E; [exact IH|]. simpl. now rewrite E.
Qed.

Lemma lstrip_app x y : nospace_hd y = true → lstrip (x ++ y) = lstrip x ++ y.
Proof.
  intros Hy. induction x as [|d x IH]; simpl.
  - now apply lstrip_id.
  - now destruct (isspace d).
Qed.

Lemma lstrip_suffix s : ∃ w, s = w ++ lstrip s.
Proof.
  induction s as [|c s [w IH]]; simpl.
  - now exists [].
  - destruct (isspace c).
    + exists (c :: w). simpl. now f_equal.
    + now exists [].
Qed.

Lemma rstrip_prefix s : ∃ w, s = rstrip s ++ w.
Proof.
  unfold rstrip. destruct (lstrip_suffix (rev s)) as [w Hw].
  exists (rev w). rewrite <- rev_app_distr, <- Hw. now rewrite rev_involutive.
Qed.

Lemma rstrip_id s : nospace_hd (rev s) = true → rstrip s = s.
Proof. intros H. unfold rstrip. rewrite lstrip_id by exact H. apply rev_involutive. Qed.

Lemma rstrip_app x y : nospace_hd (rev x) = true → rstrip (x ++ y) = x ++ rstrip y.
Proof.
  intros H. unfold rstrip.
  rewrite rev_app_distr, lstrip_app by exact H.
  now rewrite rev_app_distr, rev_involutive.
Qed.

Lemma nospace_hd_prefix p w : nospace_hd (p ++ w) = true → nospace_hd p = true.
Proof. now destruct p. Qed.

Lemma nospace_hd_rstrip s : nospace_hd s = true → nospace_hd (rstrip s) = true.
Proof.
  intros H. destruct (rstrip_prefix s) as [w Hw].
  rewrite Hw in H. now apply nospace_hd_prefix in H.
Qed.

Lemma nospace_hd_strip s : nospace_hd (strip s) = true.
Proof. apply nospace_hd_rstrip, nospace_hd_lstrip. Qed.

Lemma nospace_hd_rev_strip s : nospace_hd (rev (strip s)) = true.
Proof. unfold strip, rstrip. rewrite rev_involutive. apply nospace_hd_lstrip. Qed.

Lemma strip_id s :
  nospace_hd s = true → nospace_hd (rev s) = true → strip s = s.
Proof. intros H1 H2. unfold strip. rewrite lstrip_id by exact H1. now apply rstrip_id. Qed.

Lemma strip_idem s : strip (strip s) = strip s.
Proof. apply strip_id; [apply nospace_hd_strip | apply nospace_hd_rev_strip]. Qed.

Lemma strip_fixed s :
  strip s = s → nospace_hd s = true ∧ nospace_hd (rev s) = true.
Proof.
  intros H. rewrite <- H. split; [apply nospace_hd_strip | apply nospace_hd_rev_strip].
Qed.

Lemma strip_infix s : occurs (strip s) s.
Proof.
  destruct (lstrip_suffix s) as [a Ha].
  destruct (rstrip_prefix (lstrip s)) as [b Hb].
  exists a, b. unfold strip. now rewrite <- Hb.
Qed.

(** Trimming a text that opens with a visible character keeps a prefix. *)
Lemma strip_headed s : nospace_hd s = true → ∃ w, s = strip s ++ w.
Proof.
  intros H. unfold strip. rewrite lstrip_id by exact H. apply rstrip_prefix.
Qed.

Lemma strip_snoc s c : isspace c = false → strip (strip s ++ [c]) = strip s ++ [c].
Proof.
  intros Hc. apply strip_id.
  - pose proof (nospace_hd_strip s) as H.
    destruct (strip s); simpl in *; [now rewrite Hc | exact H].
  - rewrite rev_app_distr. simpl. now rewrite Hc.
Qed.

Lemma lstrip_map (f : ascii → ascii) s :
  (∀ c, isspace (f c) = isspace c) → lstrip (map f s) = map f (lstrip s).
Proof.
  intros Hf. induction s as [|c s IH]; simpl; [easy|].
  rewrite Hf. now destruct (isspace c).
Qed.

Lemma strip_map (f : ascii → ascii) s :
  (∀ c, isspace (f c) = isspace c) → strip (map f s) = map f (strip s).
Proof.
  intros Hf. unfold strip, rstrip.
  rewrite lstrip_map, <- map_rev, lstrip_map, map_rev by exact Hf.
  reflexivity.
Qed.

Lemma strip_upper s : strip (upper s) = upper (strip s).
Proof. apply strip_map, isspace_toupper. Qed.

Lemma strip_lower s : strip (lower s) = lower (strip s).
Proof. apply strip_map, isspace_tolower. Qed.

Lemma upper_lower s : upper (lower s) = upper s.
Proof.
  unfold upper, lower. rewrite map_map. apply map_ext, toupper_tolower.
Qed.

Lemma lower_upper s : lower (upper s) = lower s.
Proof.
  unfold upper, lower. rewrite map_map. apply map_ext, tolower_toupper.
Qed.

(** ** Prefixes and occurrences *)

Lemma startswith_cons c s a p :
  startswith (c :: s) (a :: p) = Ascii.eqb c a && startswith s p.
Proof. simpl. now destruct (Ascii.eqb c a). Qed.

Lemma startswith_iff s p : startswith s p = true ↔ ∃ r, s = p ++ r.
Proof.
  revert s. induction p as [|a p IH]; intros s.
  - simpl. split; [exists s; reflexivity | reflexivity].
  - destruct s as [|c s].
    + simpl. split; [discriminate | intros [r Hr]; discriminate].
    + rewrite startswith_cons, andb_true_iff, IH. split.
      * intros [Hc [r ->]]. apply Ascii.eqb_eq in Hc as ->. now exists r.
      * intros [r Hr]. simpl in Hr. injection Hr as -> ->.
        split; [apply Ascii.eqb_refl | now exists r].
Qed.

Lemma startswith_app s t p : startswith s p = true → startswith (s ++ t) p = true.
Proof.
  rewrite !startswith_iff. intros [r ->]. exists (r ++ t). now rewrite app_assoc.
Qed.

Lemma startswith_firstn k s p :
  startswith (firstn k s) p = true → startswith s p = true.
Proof.
  intros H. rewrite <- (firstn_skipn k s). now apply startswith_app.
Qed.

Lemma startswith_length s p : startswith s p = true → (length p ≤ length s)%nat.
Proof.
  rewrite startswith_iff. intros [r ->]. rewrite length_app. lia.
Qed.

Lemma startswith_caseless s p :
  startswith (upper s) (upper p) = startswith (lower s) (lower p).
Proof.
  revert s. induction p as [|a p IH]; intros [|c s]; try reflexivity.
  unfold upper, lower in *. cbn [map].
  now rewrite !startswith_cons, caseless_eqb, IH.
Qed.

Lemma index_of_caseless s p :
  index_of (upper s) (upper p) = index_of (lower s) (lower p).
Proof.
  induction s as [|c s IH].
  - pose proof (startswith_caseless [] p) as H.
    unfold upper, lower in *. cbn [index_of map] in *. now rewrite H.
  - pose proof (startswith_caseless (c :: s) p) as H.
    unfold upper, lower in *. cbn [index_of map] in *. now rewrite H, IH.
Qed.

Lemma index_of_Some s p i :
  index_of s p = Some i → (i ≤ length s)%nat ∧ startswith (skipn i s) p = true.
Proof.
  revert i. induction s as [|c s IH]; intros i; cbn [index_of].
  - destruct (startswith [] p) eqn:E; [|discriminate].
    intros [= <-]. simpl. split; [lia | exact E].
  - destruct (startswith (c :: s) p) eqn:E.
    + intros [= <-]. simpl. split; [lia | exact E].
    + destruct (index_of s p) as [j|]; [|discriminate].
      intros [= <-]. destruct (IH j eq_refl) as [Hj Hs].
      simpl. split; [lia | exact Hs].
Qed.

Lemma index_of_occurs s p i : index_of s p = Some i → occurs p s.
Proof.
  intros H. apply index_of_Some in H as [_ H].
  apply startswith_iff in H as [r Hr].
  exists (firstn i s), r. now rewrite <- Hr, firstn_skipn.
Qed.

Lemma occurs_index_of s p : occurs p s → index_of s p ≠ None.
Proof.
  intros (a & b & ->). induction a as [|c a IH]; cbn [index_of app].
  - assert (startswith (p ++ b) p = true) as H by (apply startswith_iff; eauto).
    destruct p, b; simpl in *; rewrite ?H; discriminate.
  - destruct (startswith (c :: a ++ p ++ b) p); [discriminate|].
    destruct (index_of (a ++ p ++ b) p); [discriminate | contradiction].
Qed.

Lemma index_of_None s p : index_of s p = None ↔ ¬ occurs p s.
Proof.
  split.
  - intros H Ho. now apply occurs_index_of in Ho.
  - intros H. destruct (index_of s p) eqn:E; [|reflexivity].
    exfalso. apply H. eapply index_of_occurs, E.
Qed.

(** Before its first occurrence the pattern does not occur. *)
Lemma index_of_first s p i :
  p ≠ [] → index_of s p = Some i → index_of (firstn i s) p = None.
Proof.
  intros Hp. revert i. induction s as [|c s IH]; intros i; cbn [index_of].
  - destruct (startswith [] p) eqn:E; [|discriminate].
    destruct p; [contradiction | discriminate].
  - destruct (startswith (c :: s) p) eqn:E.
    + intros [= <-]. simpl. destruct p; [contradiction | reflexivity].
    + destruct (index_of s p) as [j|] eqn:Ej; [|discriminate].
      intros [= <-]. cbn [firstn index_of].
      destruct (startswith (c :: firstn j s) p) eqn:F.
      * apply (startswith_firstn (S j) (c :: s)) in F. congruence.
      * now rewrite (IH j eq_refl).
Qed.

Lemma occurs_trans p t s : occurs p t → occurs t s → occurs p s.
Proof.
  intros (a & b & ->) (a' & b' & ->).
  exists (a' ++ a), (b ++ b'). now rewrite <- !app_assoc.
Qed.

Lemma occurs_map (f : ascii → ascii) t s : occurs t s → occurs (map f t) (map f s).
Proof.
  intros (a & b & ->). exists (map f a), (map f b). now rewrite !map_app.
Qed.

Lemma occurs_prefix p w : occurs p (p ++ w).
Proof. now exists [], w. Qed.

(** A character appended to [s] creates no occurrence of a pattern that ends
    otherwise. *)
Lemma occurs_snoc p s c :
  p ≠ [] → last p ≠ Some c → occurs p (s ++ [c]) → occurs p s.
Proof.
  intros Hp Hl (a & b & H).
  destruct b as [|y b _] using rev_ind.
  - exfalso. destruct p as [|x p _] using rev_ind; [easy|].
    rewrite app_nil_r, app_assoc in H. apply app_inj_tail in H as [_ <-].
    apply Hl. now rewrite last_snoc.
  - rewrite !app_assoc in H. apply app_inj_tail in H as [-> _].
    exists a, b. now rewrite app_assoc.
Qed.

Lemma endswith_snoc s c : endswith (s ++ [c]) [c] = true.
Proof.
  unfold endswith. rewrite rev_app_distr. simpl. now rewrite Ascii.eqb_refl.
Qed.

Lemma endswith_char s c : endswith s [c] = true ↔ ∃ r, s = r ++ [c].
Proof.
  unfold endswith. rewrite startswith_iff. simpl. split.
  - intros [r Hr]. exists (rev r).
    rewrite <- (rev_involutive s), Hr. reflexivity.
  - intros [r ->]. exists (rev r). now rewrite rev_app_distr.
Qed.

Lemma startswith_char_false s c d : c ≠ d → startswith (c :: s) [d] = false.
Proof. intros H. simpl. now destruct (Ascii.eqb_spec c d). Qed.

(** ** Slices and [find] *)

Lemma slice_from s (i : nat) : slice s (Some (Z.of_nat i)) None = skipn i s.
Proof.
  unfold slice, bound.
  destruct (Z.ltb_spec (Z.of_nat i) 0) as [H|_]; [lia|].
  destruct (Nat.le_gt_cases i (length s)) as [H|H].
  - replace (Z.to_nat (Z.min (Z.of_nat i) (Z.of_nat (length s)))) with i by lia.
    apply firstn_all2. rewrite length_skipn. lia.
  - replace (Z.to_nat (Z.min (Z.of_nat i) (Z.of_nat (length s))))
      with (length s) by lia.
    rewrite !skipn_all2 by lia. now destruct (length s - length s)%nat.
Qed.

Lemma slice_to s (i : nat) : slice s None (Some (Z.of_nat i)) = firstn i s.
Proof.
  unfold slice, bound.
  destruct (Z.ltb_spec (Z.of_nat i) 0) as [H|_]; [lia|].
  rewrite Nat.sub_0_r. cbn [skipn].
  destruct (Nat.le_gt_cases i (length s)) as [H|H].
  - f_equal. lia.
  - replace (Z.to_nat (Z.min (Z.of_nat i) (Z.of_nat (length s))))
      with (length s) by lia.
    rewrite (firstn_all2 (n:=i)) by lia. apply firstn_all.
Qed.

Lemma slice_from_end s (k : nat) :
  (0 < k)%nat → slice s None (Some (- Z.of_nat k)) = firstn (length s - k) s.
Proof.
  intros Hk. unfold slice, bound.
  destruct (Z.ltb_spec (- Z.of_nat k) 0) as [_|H]; [|lia].
  rewrite Nat.sub_0_r. cbn [skipn]. f_equal. lia.
Qed.

(** [s[1:-1]] *)
Lemma slice_inner s :
  slice s (Some 1) (Some (-1)) = firstn (length s - 2) (skipn 1 s).
Proof.
  unfold slice, bound. cbn [Z.ltb Z.compare].
  destruct s as [|c s]; [reflexivity|].
  f_equal; [|f_equal]; cbn [length]; lia.
Qed.

Lemma slice_inner_wrapped q inner :
  slice (q :: inner ++ [q]) (Some 1) (Some (-1)) = inner.
Proof.
  rewrite slice_inner. cbn [length skipn]. rewrite length_app. cbn [length].
  replace (S (length inner + 1) - 2)%nat with (length inner) by lia.
  apply take_app_length.
Qed.

Lemma find_Some s p i : index_of s p = Some i → find s p = Z.of_nat i.
Proof. unfold find. now intros ->. Qed.

Lemma find_None s p : index_of s p = None → find s p = -1.
Proof. unfold find. now intros ->. Qed.

Lemma find_eqb s p :
  (find s p =? -1) = match index_of s p with Some _ => false | None => true end.
Proof.
  unfold find. destruct (index_of s p); [|reflexivity].
  apply Z.eqb_neq. lia.
Qed.

(** ** The stages of the cleanup *)

Lemma cut_marker_None s m : index_of (lower s) m = None → cut_marker s m = s.
Proof. intros H. unfold cut_marker. now rewrite find_eqb, H. Qed.

Lemma cut_marker_Some s m i :
  index_of (lower s) m = Some i → cut_marker s m = strip (firstn i s).
Proof.
  intros H. unfold cut_marker. rewrite find_eqb, H, (find_Some _ _ _ H).
  now rewrite slice_to.
Qed.

Lemma extract_select_None s :
  index_of (upper s) (py "SELECT ") = None → extract_select s = s.
Proof. intros H. unfold extract_select. now rewrite find_eqb, H. Qed.

Lemma extract_select_Some s i :
  index_of (lower s) (py "select ") = Some i →
  extract_select s = fold_left cut_marker explanation_markers (skipn i s).
Proof.
  intros H. unfold extract_select.
  pose proof (index_of_caseless s (py "select ")) as E.
  change (upper (py "select ")) with (py "SELECT ") in E.
  change (lower (py "select ")) with (py "select ") in E.
  rewrite !find_eqb, E, H. cbn [negb].
  now rewrite (find_Some _ _ _ H), slice_from.
Qed.

Lemma fold_cut_none ms s :
  (∀ m, m ∈ ms → index_of (lower s) m = None) →
  fold_left cut_marker ms s = s.
Proof.
  induction ms as [|m ms IH]; intros H; cbn [fold_left]; [reflexivity|].
  rewrite cut_marker_None by (apply H; left).
  apply IH. intros m' Hm'. apply H. now right.
Qed.

Lemma cut_marker_infix s m : occurs (cut_marker s m) s.
Proof.
  destruct (index_of (lower s) m) as [i|] eqn:E.
  - rewrite (cut_marker_Some _ _ _ E).
    eapply occurs_trans; [apply strip_infix|].
    exists [], (skipn i s). cbn [app]. now rewrite firstn_skipn.
  - rewrite (cut_marker_None _ _ E). exists [], []. now rewrite app_nil_r.
Qed.

Lemma fold_cut_infix ms s : occurs (fold_left cut_marker ms s) s.
Proof.
  revert s. induction ms as [|m ms IH]; intros s; cbn [fold_left].
  - exists [], []. now rewrite app_nil_r.
  - eapply occurs_trans; [apply IH | apply cut_marker_infix].
Qed.

Lemma cut_marker_clean s m : m ≠ [] → index_of (lower (cut_marker s m)) m = None.
Proof.
  intros Hm. destruct (index_of (lower s) m) as [i|] eqn:E.
  - rewrite (cut_marker_Some _ _ _ E). apply index_of_None. intros Ho.
    pose proof (index_of_first _ _ _ Hm E) as F.
    apply index_of_None in F. apply F.
    eapply occurs_trans; [exact Ho|].
    unfold lower. rewrite firstn_map. apply occurs_map, strip_infix.
  - now rewrite (cut_marker_None _ _ E).
Qed.

(** After the loop no marker is left. *)
Lemma fold_cut_clean ms s m :
  (∀ m', m' ∈ ms → m' ≠ []) → m ∈ ms →
  index_of (lower (fold_left cut_marker ms s)) m = None.
Proof.
  revert s. induction ms as [|m1 ms IH]; intros s Hne Hin; [inversion Hin|].
  cbn [fold_left]. apply elem_of_cons in Hin as [-> | Hin].
  - apply index_of_None. intros Ho.
    pose proof (cut_marker_clean s m1 (Hne m1 ltac:(left))) as F.
    apply index_of_None in F. apply F.
    eapply occurs_trans; [exact Ho|]. apply occurs_map, fold_cut_infix.
  - apply IH; [|exact Hin]. intros m' Hm'. apply Hne. now right.
Qed.

Lemma markers_nonempty m : m ∈ explanation_markers → m ≠ [].
Proof.
  unfold explanation_markers. rewrite !elem_of_cons, elem_of_nil.
  intros H. repeat destruct H as [-> | H]; try discriminate. contradiction.
Qed.

Lemma markers_last m : m ∈ explanation_markers → last m ≠ Some ";"%char.
Proof.
  unfold explanation_markers. rewrite !elem_of_cons, elem_of_nil.
  intros H. repeat destruct H as [-> | H]; try discriminate. contradiction.
Qed.

Lemma index_of_startswith s p : startswith s p = true → index_of s p = Some 0%nat.
Proof. intros H. destruct s; cbn [index_of]; now rewrite H. Qed.

Lemma contains_false s p : contains s p = false ↔ index_of s p = None.
Proof. unfold contains. destruct (index_of s p); split; congruence. Qed.

Lemma cut_marker_prefix s m : nospace_hd s = true → ∃ w, s = cut_marker s m ++ w.
Proof.
  intros H. destruct (index_of (lower s) m) as [i|] eqn:E.
  - rewrite (cut_marker_Some _ _ _ E).
    destruct (strip_headed (firstn i s)) as [w Hw].
    { apply (nospace_hd_prefix _ (skipn i s)). now rewrite firstn_skipn. }
    exists (w ++ skipn i s). rewrite app_assoc, <- Hw. now rewrite firstn_skipn.
  - rewrite (cut_marker_None _ _ E). exists []. now rewrite app_nil_r.
Qed.

Lemma fold_cut_prefix ms s :
  nospace_hd s = true → ∃ w, s = fold_left cut_marker ms s ++ w.
Proof.
  revert s. induction ms as [|m ms IH]; intros s H; cbn [fold_left].
  - exists []. now rewrite app_nil_r.
  - destruct (cut_marker_prefix s m H) as [w Hw].
    destruct (IH (cut_marker s m)) as [w' Hw'].
    { apply (nospace_hd_prefix _ w). now rewrite <- Hw. }
    exists (w' ++ w). now rewrite app_assoc, <- Hw', <- Hw.
Qed.

(** A text that opens with SELECT opens with none of the other openers. *)
Lemma select_not_opener y c p :
  startswith (upper y) (py "SELECT") = true → toupper c ≠ "S"%char →
  startswith y (c :: p) = false.
Proof.
  intros H Hc. destruct y as [|d y]; [reflexivity|].
  unfold upper in H. cbn [map] in H.
  change (py "SELECT") with ("S"%char :: py "ELECT") in H.
  rewrite startswith_cons in H. apply andb_true_iff in H as [H _].
  apply Ascii.eqb_eq in H. rewrite startswith_cons.
  destruct (Ascii.eqb_spec d c) as [->|_]; [contradiction | reflexivity].
Qed.

Lemma select_nospace_hd z :
  startswith (lower z) (py "select ") = true → nospace_hd z = true.
Proof.
  intros H. destruct z as [|c z]; [reflexivity|].
  unfold lower in H. cbn [map] in H.
  change (py "select ") with ("s"%char :: py "elect ") in H.
  rewrite startswith_cons in H. apply andb_true_iff in H as [H _].
  apply Ascii.eqb_eq in H. cbn [nospace_hd].
  now rewrite <- isspace_tolower, H.
Qed.

Lemma upper_app a b : upper (a ++ b) = upper a ++ upper b.
Proof. apply map_app. Qed.

Lemma lower_app a b : lower (a ++ b) = lower a ++ lower b.
Proof. apply map_app. Qed.

(** *** The semicolon and the final check *)

Lemma ensure_semicolon_accepted s :
  startswith (strip (upper s)) (py "SELECT") = true →
  ensure_semicolon s
  = if endswith (strip s) (py ";") then s else strip s ++ py ";".
Proof.
  intros H. unfold ensure_semicolon. rewrite H.
  now destruct (endswith (strip s) (py ";")).
Qed.

Lemma ensure_semicolon_rejected s :
  startswith (strip (upper s)) (py "SELECT") = false → ensure_semicolon s = s.
Proof. intros H. unfold ensure_semicolon. now rewrite H. Qed.

Lemma select_snoc s :
  startswith (strip (upper s)) (py "SELECT") = true →
  startswith (strip (upper (strip s ++ py ";"))) (py "SELECT") = true.
Proof.
  intros H. rewrite strip_upper in *.
  change (py ";") with [";"%char].
  rewrite strip_snoc by reflexivity. rewrite upper_app.
  now apply startswith_app.
Qed.

Lemma check_select_ensure s :
  check_select (ensure_semicolon s)
  = if startswith (strip (upper s)) (py "SELECT")
    then Return (ensure_semicolon s)
    else Raise "ValueError" rejection.
Proof.
  destruct (startswith (strip (upper s)) (py "SELECT")) eqn:H.
  - rewrite (ensure_semicolon_accepted _ H). unfold check_select.
    destruct (endswith (strip s) (py ";")).
    + rewrite H. destruct s; [discriminate H | reflexivity].
    + rewrite (select_snoc _ H). now destruct (strip s).
  - rewrite (ensure_semicolon_rejected _ H). unfold check_select.
    rewrite H. now rewrite orb_true_r.
Qed.

Lemma cleanup_stages x :
  cleanup x
  = let s := extract_select (remove_quotes (remove_fences (strip x))) in
    if startswith (strip (upper s)) (py "SELECT")
    then Return (ensure_semicolon s)
    else Raise "ValueError" rejection.
Proof. unfold cleanup. apply check_select_ensure. Qed.

(** *** Texts the cleanup leaves alone *)

Lemma well_formed_spec y :
  well_formed y = true ↔
  strip y = y ∧ startswith (upper y) (py "SELECT") = true
  ∧ endswith y (py ";") = true
  ∧ (index_of (upper y) (py "SELECT ") = None
     ∨ startswith (lower y) (py "select ") = true
       ∧ ∀ m, m ∈ explanation_markers → index_of (lower y) m = None).
Proof.
  unfold well_formed.
  rewrite !andb_true_iff, orb_true_iff, andb_true_iff, bool_decide_eq_true,
    negb_true_iff, contains_false, forallb_forall.
  split.
  - intros [[[H1 H2] H3] H4]. repeat split; try assumption.
    destruct H4 as [H4 | [H4 H5]]; [now left | right]. split; [assumption|].
    intros m Hm. apply contains_false, negb_true_iff, H5.
    now apply list_elem_of_In.
  - intros (H1 & H2 & H3 & H4). repeat split; try assumption.
    destruct H4 as [H4 | [H4 H5]]; [now left | right]. split; [assumption|].
    intros m Hm. apply negb_true_iff, contains_false, H5.
    now apply list_elem_of_In.
Qed.

Lemma remove_fences_id y :
  startswith (upper y) (py "SELECT") = true → endswith y (py ";") = true →
  remove_fences y = y.
Proof.
  intros H2 H3. unfold remove_fences.
  change (py "```sql") with ("`"%char :: py "``sql").
  rewrite (select_not_opener _ _ _ H2) by discriminate.
  apply endswith_char in H3 as [r ->].
  unfold endswith. rewrite rev_app_distr. reflexivity.
Qed.

Lemma remove_quotes_id y :
  startswith (upper y) (py "SELECT") = true → remove_quotes y = y.
Proof.
  intros H2. unfold remove_quotes.
  change (py "'") with ["'"%char].
  rewrite (select_not_opener _ _ _ H2) by discriminate. cbn [andb].
  now rewrite (select_not_opener _ _ _ H2) by discriminate.
Qed.

Lemma extract_select_id y :
  index_of (upper y) (py "SELECT ") = None
  ∨ startswith (lower y) (py "select ") = true
    ∧ (∀ m, m ∈ explanation_markers → index_of (lower y) m = None) →
  extract_select y = y.
Proof.
  intros [H | [H1 H2]].
  - now apply extract_select_None.
  - rewrite (extract_select_Some y 0) by now apply index_of_startswith.
    now apply fold_cut_none.
Qed.

(** A well-formed completion comes out of the cleanup as it went in. *)
Lemma cleanup_well_formed y : well_formed y = true → cleanup y = Return y.
Proof.
  intros (H1 & H2 & H3 & H4)%well_formed_spec.
  rewrite cleanup_stages. cbn zeta.
  rewrite H1, (remove_fences_id _ H2 H3), (remove_quotes_id _ H2),
    (extract_select_id _ H4).
  rewrite strip_upper, H1, H2.
  rewrite ensure_semicolon_accepted by now rewrite strip_upper, H1.
  now rewrite H1, H3.
Qed.

(** *** What the cleanup returns *)

(** A prefix of a text that opens with "select ", with or without a closing
    semicolon, holds the token "SELECT " only if it opens with it. *)
Lemma select_token_prefix (r : str) (k : nat) (semi : bool) :
  let Y := (if semi then firstn k (py "select " ++ r) ++ [";"%char]
            else firstn k (py "select " ++ r)) in
  index_of (upper Y) (py "SELECT ") ≠ None →
  startswith Y (py "select ") = true.
Proof.
  do 7 (destruct k as [|k];
        [destruct semi; vm_compute; intros H; exfalso; now apply H|]).
  intros Y _. now destruct semi.
Qed.

Lemma select_token_last : last (py "SELECT ") ≠ Some ";"%char.
Proof. discriminate. Qed.

Lemma lower_semicolon s : lower (s ++ [";"%char]) = lower s ++ [";"%char].
Proof. apply lower_app. Qed.

Lemma upper_semicolon s : upper (s ++ [";"%char]) = upper s ++ [";"%char].
Proof. apply upper_app. Qed.

(** What is returned, once trimmed, is well formed. *)
Lemma cleanup_returns_well_formed x y :
  cleanup x = Return y → well_formed (strip y) = true.
Proof.
  rewrite cleanup_stages. cbn zeta.
  set (s2 := remove_quotes (remove_fences (strip x))).
  destruct (startswith (strip (upper (extract_select s2))) (py "SELECT"))
    eqn:H; [|discriminate].
  intros [= <-]. set (s3 := extract_select s2) in *.
  set (T := strip s3).
  assert (strip (ensure_semicolon s3)
          = if endswith T (py ";") then T else T ++ [";"%char]) as HY.
  { rewrite ensure_semicolon_accepted by exact H. fold T.
    destruct (endswith T (py ";")); [reflexivity|].
    now apply strip_snoc. }
  assert (startswith (upper T) (py "SELECT") = true) as HT.
  { unfold T. now rewrite <- strip_upper. }
  apply well_formed_spec. rewrite HY.
  split; [rewrite <- HY; apply strip_idem|].
  split.
  { destruct (endswith T (py ";")); [exact HT|].
    rewrite upper_semicolon. now apply startswith_app. }
  split.
  { destruct (endswith T (py ";")) eqn:E; [exact E | apply endswith_snoc]. }
  destruct (index_of
              (upper (if endswith T (py ";") then T else T ++ [";"%char]))
              (py "SELECT ")) eqn:EI; [right | now left].
  assert (occurs (py "SELECT ") (upper T)) as HoT.
  { apply index_of_occurs in EI.
    destruct (endswith T (py ";")); [exact EI|].
    rewrite upper_semicolon in EI.
    now apply occurs_snoc in EI; [|discriminate|apply select_token_last]. }
  destruct (index_of (lower s2) (py "select ")) as [i0|] eqn:E0.
  - (* the retained text and the prefix of it that is returned *)
    set (z := skipn i0 s2).
    assert (s3 = fold_left cut_marker explanation_markers z) as Hs3
      by (unfold s3, z; now apply extract_select_Some).
    assert (startswith (lower z) (py "select ") = true) as Hz.
    { apply index_of_Some in E0 as [_ E0].
      unfold z, lower. now rewrite <- skipn_map. }
    pose proof (select_nospace_hd _ Hz) as Hhd.
    destruct (fold_cut_prefix explanation_markers z Hhd) as [w1 Hw1].
    rewrite <- Hs3 in Hw1.
    destruct (strip_headed s3) as [w2 Hw2].
    { apply (nospace_hd_prefix _ w1). now rewrite <- Hw1. }
    fold T in Hw2.
    assert (lower T = firstn (length T) (lower z)) as HL.
    { rewrite Hw1, Hw2, !lower_app, <- !app_assoc.
      unfold lower at 2. rewrite <- (length_map tolower T).
      now rewrite take_app_length. }
    apply startswith_iff in Hz as [r Hr]. rewrite Hr in HL.
    split.
    + pose proof (select_token_prefix r (length T)
                    (negb (endswith T (py ";")))) as P.
      cbn zeta in P. rewrite <- HL in P.
      destruct (endswith T (py ";")); cbn [negb] in P.
      * apply P. rewrite upper_lower. congruence.
      * rewrite lower_semicolon. apply P.
        rewrite <- lower_semicolon, upper_lower. congruence.
    + intros m Hm. apply index_of_None. intros Ho.
      assert (occurs m (lower T)) as Ho'.
      { destruct (endswith T (py ";")); [exact Ho|].
        rewrite lower_semicolon in Ho.
        now apply occurs_snoc in Ho;
          [|apply markers_nonempty|apply markers_last]. }
      pose proof (fold_cut_clean explanation_markers z m markers_nonempty Hm)
        as F.
      rewrite <- Hs3 in F. apply index_of_None in F. apply F.
      eapply occurs_trans; [exact Ho'|]. apply occurs_map, strip_infix.
  - exfalso.
    pose proof (index_of_caseless s2 (py "select ")) as E.
    change (upper (py "select ")) with (py "SELECT ") in E.
    change (lower (py "select ")) with (py "select ") in E.
    rewrite E0 in E.
    assert (s3 = s2) as Hs3 by (unfold s3; now apply extract_select_None).
    apply index_of_None in E. apply E.
    eapply occurs_trans; [exact HoT|].
    unfold T. rewrite Hs3. apply occurs_map, strip_infix.
Qed.

Lemma cleanup_strip y : cleanup (strip y) = cleanup y.
Proof. unfold cleanup. now rewrite strip_idem. Qed.

(** ** The completion normalizer *)

(** C4, as the code has it.  When the token "SELECT " occurs nowhere in the
    text left by trimming, fence removal and quote stripping, that text goes
    unchanged to the last two steps: it is rejected, with the one message the
    cleanup has, unless it opens (after white space, in any case) with SELECT,
    and then it is returned, closed by a semicolon. *)
Theorem cleanup_without_select_token (raw : str) :
  let s := remove_quotes (remove_fences (strip raw)) in
  find (upper s) (py "SELECT ") = -1 →
  cleanup raw
  = if startswith (strip (upper s)) (py "SELECT")
    then Return (ensure_semicolon s)
    else Raise "ValueError" rejection.
Proof.
  intros s H. rewrite cleanup_stages. cbn zeta. fold s.
  assert (index_of (upper s) (py "SELECT ") = None) as E.
  { unfold find in H. destruct (index_of (upper s) (py "SELECT ")); [lia|easy]. }
  now rewrite (extract_select_None _ E).
Qed.

(** The completion of the specification's example holds no "SELECT " and is
    rejected. *)
Lemma cleanup_without_select_token_witness :
  cleanup (py "I cannot help with that.") = Raise "ValueError" rejection.
Proof.
  exact (cleanup_without_select_token (py "I cannot help with that.") eq_refl).
Defined.

(** C4 as stated fails: a completion without the token "SELECT " is accepted
    when it opens with SELECT followed by something else than a blank. *)
Lemma cleanup_accepts_without_select_token :
  let raw := py "SELECT*FROM users" in
  find (upper (remove_quotes (remove_fences (strip raw)))) (py "SELECT ") = -1
  ∧ cleanup raw = Return (py "SELECT*FROM users;").
Proof. split; reflexivity. Qed.

(** C5, as the code has it.  The two tests follow one another: a pair of
    double quotes around the text is one layer and only that layer goes; a
    pair of single quotes goes, and then a pair of double quotes around what
    is left goes too. *)
Theorem remove_quotes_layers (inner : str) :
  remove_quotes (dquote :: inner ++ [dquote]) = inner
  ∧ remove_quotes ("'"%char :: inner ++ ["'"%char])
    = (if startswith inner [dquote] && endswith inner [dquote]
       then slice inner (Some 1) (Some (-1))
       else inner)
  ∧ remove_quotes ("'"%char :: (dquote :: inner ++ [dquote]) ++ ["'"%char])
    = inner.
Proof.
  assert (∀ q t, endswith (q :: t ++ [q]) [q] = true) as He.
  { intros q t. rewrite app_comm_cons. apply endswith_snoc. }
  assert (remove_quotes (dquote :: inner ++ [dquote]) = inner) as H1.
  { unfold remove_quotes. change (py "'") with ["'"%char].
    rewrite startswith_char_false by discriminate. cbn [andb].
    rewrite He. cbn [startswith Ascii.eqb dquote Bool.eqb andb].
    apply slice_inner_wrapped. }
  assert (∀ t, remove_quotes ("'"%char :: t ++ ["'"%char])
               = (if startswith t [dquote] && endswith t [dquote]
                  then slice t (Some 1) (Some (-1)) else t)) as H2.
  { intros t. unfold remove_quotes. change (py "'") with ["'"%char].
    rewrite He. cbn [startswith Ascii.eqb Bool.eqb andb].
    now rewrite slice_inner_wrapped. }
  split; [exact H1|]. split; [apply H2|].
  rewrite H2, He. cbn [startswith Ascii.eqb dquote Bool.eqb andb].
  apply slice_inner_wrapped.
Qed.

(** C5 as stated fails: of a query in double quotes inside single quotes both
    layers are stripped. *)
Lemma remove_quotes_strips_two_layers :
  let quoted := dquote :: py "SELECT 1" ++ [dquote] in
  let text := py "'" ++ quoted ++ py "'" in
  remove_fences (strip text) = text
  ∧ remove_quotes text = py "SELECT 1"
  ∧ remove_quotes text ≠ quoted
  ∧ cleanup text = Return (py "SELECT 1;").
Proof. repeat split; try reflexivity. discriminate. Qed.

(** C6.  The fenced completion of the specification comes out as the bare
    statement with its semicolon: the opener and the closer go in the first
    step, and the fourth step appends the semicolon because the text opens
    with SELECT and does not end with one. *)
Theorem cleanup_fenced_select :
  let raw := py "```sql" ++ [LF] ++ py "SELECT * FROM users" ++ [LF] ++ py "```" in
  cleanup raw = Return (py "SELECT * FROM users;")
  ∧ remove_fences (strip raw) = py "SELECT * FROM users"
  ∧ startswith (strip (upper (py "SELECT * FROM users"))) (py "SELECT") = true
  ∧ endswith (strip (py "SELECT * FROM users")) (py ";") = false
  ∧ ensure_semicolon (py "SELECT * FROM users") = py "SELECT * FROM users;".
Proof. repeat split; reflexivity. Qed.

(** C7, as the code has it, for ASCII text.  A well-formed completion,
    "SELECT 1;" for one, is returned as it is; and cleaning up a result once
    more trims it and does nothing else, so that the cleanup is idempotent on
    exactly the completions whose result carries no white space at its
    ends. *)
Theorem cleanup_twice :
  (∀ y, isascii y = true → well_formed y = true → cleanup y = Return y)
  ∧ cleanup (py "SELECT 1;") = Return (py "SELECT 1;")
  ∧ (∀ x y, isascii x = true → cleanup x = Return y →
       cleanup y = Return (strip y)
       ∧ (cleanup y = cleanup x ↔ strip y = y)).
Proof.
  split; [intros y _; apply cleanup_well_formed|]. split; [reflexivity|].
  intros x y _ H.
  assert (cleanup y = Return (strip y)) as E.
  { rewrite <- cleanup_strip. apply cleanup_well_formed.
    eapply cleanup_returns_well_formed, H. }
  split; [exact E|]. rewrite E, H. split; [now intros [= ->] | now intros ->].
Qed.

(** The three parts at work on the completions of the specification. *)
Lemma cleanup_twice_witness :
  cleanup (py "SELECT 1;") = Return (py "SELECT 1;")
  ∧ cleanup (py "SELECT * FROM users;")
    = Return (strip (py "SELECT * FROM users;")).
Proof.
  split.
  - apply (proj1 cleanup_twice); vm_compute; reflexivity.
  - refine (proj1 (proj2 (proj2 cleanup_twice)
                     (py "SELECT * FROM users") (py "SELECT * FROM users;") _ _));
      vm_compute; reflexivity.
Defined.

(** C7 as stated fails: quotes taken away can leave white space at the end of
    the result, which a second cleanup trims. *)
Lemma cleanup_not_idempotent :
  let x := py "' SELECT 1; '" in
  cleanup x = Return (py "SELECT 1; ")
  ∧ cleanup (py "SELECT 1; ") = Return (py "SELECT 1;")
  ∧ cleanup (py "SELECT 1; ") ≠ cleanup x.
Proof.
  vm_compute. repeat split. intros H. discriminate H.
Qed.

(** ** The statement validator *)

Section ValidatorFacts.

Variable parse : str → list statement.
Variable iter : gset str → list str.
Variable schema : gmap str (list str).

Lemma is_readonly_query_spec sql :
  is_readonly_query parse sql = true
  ↔ ∃ st, parse sql = [st] ∧ get_type st = py "SELECT".
Proof.
  unfold is_readonly_query. destruct (parse sql) as [|st [|st' rest]].
  - split; [discriminate | intros (st & H & _); discriminate].
  - cbn [length Nat.ltb Nat.leb]. case_bool_decide as E.
    + split; [discriminate | intros (st0 & [= <-] & H); contradiction].
    + split; [eauto | reflexivity].
  - cbn [length Nat.ltb Nat.leb]. case_bool_decide;
      (split; [discriminate | intros (st0 & H0 & _); discriminate]).
Qed.

Lemma elem_of_schema_table_names t :
  t ∈ schema_table_names schema ↔ known schema t.
Proof.
  unfold schema_table_names, known. rewrite elem_of_map. split.
  - intros (k & -> & Hk). apply elem_of_dom in Hk. eauto.
  - intros (k & Hk & <-). exists k. split; [reflexivity | now apply elem_of_dom].
Qed.

Lemma check_tables_first_missing l X :
  check_tables l X
  = match first_missing l X with
    | Some t => (false, unknown_table t)
    | None => (true, py "SQL schema references seem valid.")
    end.
Proof.
  induction l as [|t l IH]; cbn [check_tables first_missing]; [reflexivity|].
  now case_bool_decide.
Qed.

Lemma first_missing_Some l X t :
  first_missing l X = Some t → t ∈ l ∧ t ∉ X.
Proof.
  induction l as [|u l IH]; cbn [first_missing]; [discriminate|].
  case_bool_decide as E.
  - intros [= <-]. split; [left | exact E].
  - intros H. destruct (IH H). split; [now right | assumption].
Qed.

Lemma first_missing_None l X : first_missing l X = None ↔ ∀ t, t ∈ l → t ∈ X.
Proof.
  induction l as [|u l IH]; cbn [first_missing].
  - split; [intros _ t Ht; inversion Ht | reflexivity].
  - case_bool_decide as E.
    + split; [discriminate|]. intros H. exfalso. apply E, H. left.
    + try apply dec_stable in E. rewrite IH. split.
      * intros H t [-> | Ht]%elem_of_cons; [exact E | now apply H].
      * intros H t Ht. apply H. now right.
Qed.

(** The verdict on a lone SELECT, once its references are extracted. *)
Lemma validate_references sql st refs :
  strip sql ≠ [] → parse sql = [st] → get_type st = py "SELECT" →
  schema ≠ ∅ → scan (tokens st) false ∅ = Return refs →
  validate parse iter schema sql
  = match first_missing (iter refs) (schema_table_names schema) with
    | Some t => Return (false, unknown_table t)
    | None => Return (true, py "SQL Validated")
    end.
Proof.
  intros Hne Hp Ht Hs Hscan. unfold validate.
  rewrite bool_decide_eq_false_2 by exact Hne.
  assert (is_readonly_query parse sql = true) as ->
    by (apply is_readonly_query_spec; eauto).
  cbn [negb]. unfold validate_schema_references.
  rewrite bool_decide_eq_false_2 by exact Hs.
  rewrite Hp, Hscan, check_tables_first_missing.
  now destruct (first_missing _ _).
Qed.

Lemma validate_rejects_not_readonly sql :
  is_readonly_query parse sql = false →
  validate parse iter schema sql
  = Return (false, if bool_decide (strip sql = []) then py "SQL query is empty."
                   else py "Invalid SQL: Only SELECT queries are permitted.").
Proof.
  intros H. unfold validate. case_bool_decide; [reflexivity|]. now rewrite H.
Qed.

Lemma validate_accepted_readonly sql msg :
  validate parse iter schema sql = Return (true, msg) →
  is_readonly_query parse sql = true.
Proof.
  unfold validate. case_bool_decide; [discriminate|].
  now destruct (is_readonly_query parse sql).
Qed.

(** All references known: accepted. *)
Lemma validate_resolved sql st refs :
  (∀ X x, x ∈ iter X ↔ x ∈ X) →
  strip sql ≠ [] → parse sql = [st] → get_type st = py "SELECT" →
  schema ≠ ∅ → scan (tokens st) false ∅ = Return refs →
  (∀ t, t ∈ refs → known schema t) →
  validate parse iter schema sql = Return (true, py "SQL Validated").
Proof.
  intros Hiter Hne Hp Ht Hs Hscan Hall.
  rewrite (validate_references sql st refs Hne Hp Ht Hs Hscan).
  assert (first_missing (iter refs) (schema_table_names schema) = None)
    as -> ; [|reflexivity].
  apply first_missing_None. intros t Hin.
  apply elem_of_schema_table_names, Hall, Hiter, Hin.
Qed.

(** No schema: the reference check answers before it parses. *)
Lemma validate_schema_skipped sql :
  schema = ∅ → strip sql ≠ [] → is_readonly_query parse sql = true →
  validate_schema_references parse iter schema sql
  = Return (true, py "Schema not available for validation.")
  ∧ validate parse iter schema sql = Return (true, py "SQL Validated").
Proof.
  intros Hs Hne Hro.
  assert (validate_schema_references parse iter schema sql
          = Return (true, py "Schema not available for validation.")) as E.
  { unfold validate_schema_references. now rewrite bool_decide_eq_true_2. }
  split; [exact E|]. unfold validate.
  rewrite bool_decide_eq_false_2 by exact Hne. now rewrite Hro, E.
Qed.

End ValidatorFacts.

(** Tokens that do not open a table reference leave the scan as it is. *)
Lemma scan_no_table toks acc :
  forallb (λ t, negb (opens_table t)) toks = true →
  scan toks false acc = Return acc.
Proof.
  induction toks as [|t toks IH]; cbn [forallb scan]; [reflexivity|].
  intros [Ht Hr]%andb_true_iff. unfold opens_table in Ht.
  apply negb_true_iff, orb_false_iff in Ht as [-> ->]. now apply IH.
Qed.

Lemma scan_app_no_table pre toks acc :
  forallb (λ t, negb (opens_table t)) pre = true →
  scan (pre ++ toks) false acc = scan toks false acc.
Proof.
  induction pre as [|t pre IH]; cbn [forallb scan app]; [reflexivity|].
  intros [Ht Hr]%andb_true_iff. unfold opens_table in Ht.
  apply negb_true_iff, orb_false_iff in Ht as [-> ->]. now apply IH.
Qed.

(** White space after the keyword is skipped with the flag up. *)
Lemma scan_app_plain gap toks acc :
  forallb plain gap = true →
  scan (gap ++ toks) true acc = scan toks true acc.
Proof.
  induction gap as [|t gap IH]; cbn [forallb scan app]; [reflexivity|].
  intros [Ht Hr]%andb_true_iff. destruct t; try discriminate. now apply IH.
Qed.

(** *** The name under which a reference is recorded *)

Lemma contains_char s c : contains s [c] = existsb (Ascii.eqb c) s.
Proof.
  unfold contains. induction s as [|d s IH]; [reflexivity|].
  cbn [index_of existsb startswith]. rewrite (Ascii.eqb_sym c d).
  destruct (Ascii.eqb d c); [reflexivity|].
  cbn [orb]. rewrite <- IH. now destruct (index_of s [c]).
Qed.

Lemma existsb_dot_app prefix name :
  existsb (Ascii.eqb ".") (prefix ++ "."%char :: name) = true.
Proof. rewrite existsb_app. cbn. apply orb_true_r. Qed.

Lemma split_last_qualified prefix name :
  existsb (Ascii.eqb ".") name = false →
  split_last "." (prefix ++ "."%char :: name) = name.
Proof.
  intros H. induction prefix as [|c prefix IH]; cbn [app split_last].
  - now rewrite H.
  - now rewrite existsb_dot_app.
Qed.

Lemma table_name_qualified prefix name :
  contains name (py ".") = false →
  table_name (prefix ++ py "." ++ name) = lower name.
Proof.
  intros H. change (py ".") with ["."%char] in *. rewrite contains_char in H.
  unfold table_name. change (py ".") with ["."%char].
  rewrite contains_char. cbn [app].
  now rewrite existsb_dot_app, split_last_qualified.
Qed.

Lemma is_from_FROM : is_from (Keyword (py "FROM")) = true.
Proof. vm_compute. reflexivity. Qed.

Lemma scan_select_star_from r :
  scan (select_star_from (Identifier (Some r))) false ∅
  = Return {[ table_name r ]}.
Proof.
  unfold select_star_from.
  change (scan ([Keyword (py "SELECT"); Other; Other; Other]
                ++ Keyword (py "FROM")
                   :: [Other] ++ Identifier (Some r) :: [Other]) false ∅
          = Return {[ table_name r ]}).
  rewrite scan_app_no_table by (vm_compute; reflexivity).
  cbn [scan]. rewrite is_from_FROM, scan_app_plain by reflexivity.
  cbn [scan is_from is_join is_keyword andb add_identifier].
  cbn [table_name].
  now rewrite union_empty_r_L.
Qed.

Lemma users_schema_nonempty : users_schema ≠ ∅.
Proof. apply insert_non_empty. Qed.

Lemma users_schema_users : is_Some (users_schema !! py "users").
Proof. unfold users_schema. rewrite lookup_singleton_eq. eauto. Qed.


(** *** The claims on the validator *)

(** C1.  Whatever the parser and the schema, [validate] accepts only a text
    that parses to exactly one statement of type SELECT; a text that parses to
    no statement, one whose first statement is of another type, and one that
    holds more than one statement are rejected. *)
Theorem validate_accepts_lone_select
  (parse : str → list statement) (iter : gset str → list str)
  (schema : gmap str (list str)) (sql : str) :
  let rejected :=
    Return (false, if bool_decide (strip sql = []) then py "SQL query is empty."
                   else py "Invalid SQL: Only SELECT queries are permitted.") in
  (∀ msg, validate parse iter schema sql = Return (true, msg) →
     ∃ st, parse sql = [st] ∧ get_type st = py "SELECT")
  ∧ (parse sql = [] → validate parse iter schema sql = rejected)
  ∧ (∀ st rest, parse sql = st :: rest → get_type st ≠ py "SELECT" →
       validate parse iter schema sql = rejected)
  ∧ (∀ st st' rest, parse sql = st :: st' :: rest →
       validate parse iter schema sql = rejected).
Proof.
  intros rejected. split; [|split; [|split]].
  - intros msg H. eapply is_readonly_query_spec, validate_accepted_readonly, H.
  - intros H. apply validate_rejects_not_readonly.
    unfold is_readonly_query. now rewrite H.
  - intros st rest H Ht. apply validate_rejects_not_readonly.
    unfold is_readonly_query. rewrite H.
    now rewrite bool_decide_eq_true_2 by exact Ht.
  - intros st st' rest H. apply validate_rejects_not_readonly.
    unfold is_readonly_query. rewrite H. cbn [length Nat.ltb Nat.leb].
    now case_bool_decide.
Qed.

(** The two rejections of the specification, on the module's own schema. *)
Lemma validate_accepts_lone_select_witness :
  validate sample_parse elements mock_db_schema (py "DROP TABLE users;")
  = Return (false, py "Invalid SQL: Only SELECT queries are permitted.")
  ∧ validate sample_parse elements mock_db_schema
      (py "SELECT * FROM users; SELECT * FROM orders;")
    = Return (false, py "Invalid SQL: Only SELECT queries are permitted.").
Proof.
  split.
  - refine (eq_trans
      (proj1 (proj2 (proj2 (validate_accepts_lone_select sample_parse elements
         mock_db_schema (py "DROP TABLE users;")))) _ _ _ _) _).
    + vm_compute. reflexivity.
    + vm_compute. discriminate.
    + vm_compute. reflexivity.
  - refine (eq_trans
      (proj2 (proj2 (proj2 (validate_accepts_lone_select sample_parse elements
         mock_db_schema (py "SELECT * FROM users; SELECT * FROM orders;"))))
         _ _ _ _) _).
    + vm_compute. reflexivity.
    + vm_compute. reflexivity.
Defined.

(** C2.  On a schema that is not empty and a lone SELECT whose scan records
    the references [refs]: if one of them is unknown to the schema, up to
    case, the statement is rejected with the message that names the first such
    reference in the order the set is gone through, which is that very
    reference when no other is unknown; if all are known the statement is
    accepted with the message "SQL Validated". *)
Theorem validate_names_unknown_table
  (parse : str → list statement) (iter : gset str → list str)
  (schema : gmap str (list str)) (sql : str) (st : statement)
  (refs : gset str) :
  (∀ X x, x ∈ iter X ↔ x ∈ X) →
  schema ≠ ∅ → strip sql ≠ [] →
  parse sql = [st] → get_type st = py "SELECT" →
  scan (tokens st) false ∅ = Return refs →
  (∀ t, t ∈ refs → ¬ known schema t →
     ∃ t', t' ∈ refs ∧ ¬ known schema t'
       ∧ first_missing (iter refs) (schema_table_names schema) = Some t'
       ∧ validate parse iter schema sql = Return (false, unknown_table t')
       ∧ occurs t' (unknown_table t'))
  ∧ (∀ t, t ∈ refs → ¬ known schema t →
       (∀ u, u ∈ refs → ¬ known schema u → u = t) →
       validate parse iter schema sql = Return (false, unknown_table t))
  ∧ ((∀ t, t ∈ refs → known schema t) →
       validate parse iter schema sql = Return (true, py "SQL Validated")).
Proof.
  intros Hiter Hs Hne Hp Ht Hscan.
  pose proof (validate_references parse iter schema sql st refs
                Hne Hp Ht Hs Hscan) as V.
  assert (∀ t, t ∈ refs → ¬ known schema t →
            ∃ t', t' ∈ refs ∧ ¬ known schema t'
              ∧ first_missing (iter refs) (schema_table_names schema) = Some t')
    as Hfirst.
  { intros t Hin Hun.
    destruct (first_missing (iter refs) (schema_table_names schema))
      as [t'|] eqn:E.
    - apply first_missing_Some in E as [E1 E2]. exists t'.
      rewrite Hiter in E1. rewrite elem_of_schema_table_names in E2. eauto.
    - exfalso. apply Hun, elem_of_schema_table_names.
      rewrite first_missing_None in E. apply E, Hiter, Hin. }
  split; [|split].
  - intros t Hin Hun. destruct (Hfirst t Hin Hun) as (t' & H1 & H2 & H3).
    exists t'. rewrite V, H3. repeat split; try assumption.
    unfold unknown_table. now eexists _, _.
  - intros t Hin Hun Honly. destruct (Hfirst t Hin Hun) as (t' & H1 & H2 & H3).
    rewrite V, H3. now rewrite (Honly t' H1 H2).
  - intros Hall. now apply (validate_resolved parse iter schema sql st refs).
Qed.

(** The example of the specification: ghost_table against a schema that has
    users only; and users itself, which resolves. *)
Lemma validate_names_unknown_table_witness :
  validate sample_parse elements users_schema (py "SELECT * FROM ghost_table;")
  = Return (false, unknown_table (py "ghost_table"))
  ∧ validate sample_parse elements users_schema (py "SELECT * FROM users;")
    = Return (true, py "SQL Validated").
Proof.
  assert (∀ (X : gset str) x, x ∈ elements X ↔ x ∈ X) as Hiter
    by (intros X x; apply elem_of_elements).
  split.
  - refine (proj1 (proj2 (validate_names_unknown_table sample_parse elements
      users_schema (py "SELECT * FROM ghost_table;")
      (Statement (py "SELECT")
         (select_star_from (Identifier (Some (py "ghost_table")))))
      {[ py "ghost_table" ]} Hiter users_schema_nonempty _ _ _ _))
      (py "ghost_table") _ _ _).
    + vm_compute. discriminate.
    + vm_compute. reflexivity.
    + reflexivity.
    + apply scan_select_star_from.
    + now apply elem_of_singleton.
    + rewrite <- elem_of_schema_table_names.
      apply (bool_decide_eq_false_1
               (py "ghost_table" ∈ schema_table_names users_schema)).
      vm_compute. reflexivity.
    + now intros u ->%elem_of_singleton _.
  - refine (proj2 (proj2 (validate_names_unknown_table sample_parse elements
      users_schema (py "SELECT * FROM users;")
      (Statement (py "SELECT")
         (select_star_from (Identifier (Some (py "users")))))
      {[ py "users" ]} Hiter users_schema_nonempty _ _ _ _)) _).
    + vm_compute. discriminate.
    + vm_compute. reflexivity.
    + reflexivity.
    + apply scan_select_star_from.
    + intros t ->%elem_of_singleton. exists (py "users").
      split; [apply users_schema_users | reflexivity].
Defined.

(** C3.  With an empty schema the reference check is skipped: every text that
    is not blank and passes the read-only check is accepted, whatever tables
    it names. *)
Theorem validate_empty_schema
  (parse : str → list statement) (iter : gset str → list str) (sql : str) :
  strip sql ≠ [] → is_readonly_query parse sql = true →
  validate_schema_references parse iter ∅ sql
  = Return (true, py "Schema not available for validation.")
  ∧ validate parse iter ∅ sql = Return (true, py "SQL Validated").
Proof.
  intros Hne Hro. now apply validate_schema_skipped.
Qed.

(** A table no schema was loaded for is let through. *)
Lemma validate_empty_schema_witness :
  validate sample_parse elements ∅ (py "SELECT * FROM ghost_table;")
  = Return (true, py "SQL Validated").
Proof.
  refine (proj2 (validate_empty_schema sample_parse elements
                   (py "SELECT * FROM ghost_table;") _ _)).
  - vm_compute. discriminate.
  - vm_compute. reflexivity.
Defined.

Lemma opener_opens k toks from_seen acc :
  k ∈ py "FROM" :: join_keywords →
  scan (Keyword k :: toks) from_seen acc = scan toks true acc.
Proof.
  intros Hk. cbn [scan].
  destruct (is_from (Keyword k)) eqn:Ef; [reflexivity|].
  assert (is_join (Keyword k) = true) as ->; [|reflexivity].
  unfold is_from, is_join in *. cbn [is_keyword normalized andb] in *.
  apply bool_decide_eq_true. apply elem_of_cons in Hk as [->|Hk]; [|exact Hk].
  rewrite bool_decide_eq_true_2 in Ef by reflexivity. discriminate Ef.
Qed.

Lemma add_identifiers_names names acc :
  add_identifiers (map (λ n, IdentifierItem (Some n)) names) acc
  = Return (list_to_set (map table_name names) ∪ acc).
Proof.
  revert acc. induction names as [|n names IH]; intros acc;
    cbn [map add_identifiers add_identifier list_to_set].
  - now rewrite union_empty_l_L.
  - rewrite IH. f_equal.
    rewrite (comm_L (∪) {[ table_name n ]} (list_to_set _)).
    now rewrite (assoc_L (∪)).
Qed.

(** A clause adds the names of its reference and leaves the flag down. *)
Lemma scan_clause c more from_seen acc :
  is_clause c = true →
  scan (clause_tokens c ++ more) from_seen acc
  = scan more false
      (list_to_set (map table_name (reference_names (referred c))) ∪ acc).
Proof.
  unfold is_clause. intros [[Hk Hs]%andb_true_iff Hr]%andb_true_iff.
  apply bool_decide_eq_true in Hk.
  unfold clause_tokens. cbn [app]. rewrite (opener_opens _ _ _ _ Hk).
  rewrite <- app_assoc, scan_app_plain by exact Hs. cbn [app].
  destruct (referred c) as [r|names];
    cbn [reference_token reference_names scan is_from is_join is_keyword andb].
  - cbn [add_identifier map list_to_set]. rewrite union_empty_r_L.
    now apply scan_app_no_table.
  - rewrite add_identifiers_names. now apply scan_app_no_table.
Qed.

Lemma scan_clauses cs from_seen acc :
  forallb is_clause cs = true →
  scan (concat (map clause_tokens cs)) from_seen acc
  = Return (list_to_set (map table_name (referenced cs)) ∪ acc).
Proof.
  revert from_seen acc. induction cs as [|c cs IH]; intros b acc;
    cbn [map concat forallb].
  - intros _. cbn. now rewrite union_empty_l_L.
  - intros [Hc Hcs]%andb_true_iff. rewrite (scan_clause _ _ _ _ Hc), IH by exact Hcs.
    f_equal. unfold referenced. cbn [map concat].
    rewrite map_app, list_to_set_app_L.
    set (A := list_to_set (map table_name (reference_names (referred c)))).
    set (B := list_to_set (map table_name (concat _))).
    now rewrite (assoc_L (∪) B A acc), (comm_L (∪) B A).
Qed.

Lemma elem_of_recorded (names : list str) t :
  t ∈ (list_to_set (map table_name names) : gset str)
  ↔ ∃ r, r ∈ names ∧ t = table_name r.
Proof.
  rewrite elem_of_list_to_set, list_elem_of_In, in_map_iff. split.
  - intros (r & <- & Hr). exists r. now rewrite list_elem_of_In.
  - intros (r & Hr & ->). exists r. now rewrite <- list_elem_of_In.
Qed.

Lemma qualifies_known schema r : qualifies schema r → known schema (table_name r).
Proof.
  intros (name & key & Hr & Hname & Hkey & Hlow). exists key.
  split; [exact Hkey|]. rewrite Hlow.
  destruct Hr as [->|[prefix ->]].
  - unfold table_name. now rewrite Hname.
  - symmetry. now apply table_name_qualified.
Qed.

(** C8.  Of a reference with dots the part after the last dot is recorded,
    in lower case.  In a statement made of clauses, each opened by FROM or a
    join keyword and naming one table or a list of tables, the scan records
    every reference so; the statement is accepted exactly when every recorded
    name is a table of the schema up to case, hence whenever every reference
    names such a table, whatever prefix it carries. *)
Theorem validate_qualified_table
  (parse : str → list statement) (iter : gset str → list str)
  (schema : gmap str (list str)) (sql : str) (st : statement)
  (pre : list token) (cs : list clause) :
  (∀ X x, x ∈ iter X ↔ x ∈ X) →
  strip sql ≠ [] → parse sql = [st] → get_type st = py "SELECT" →
  tokens st = pre ++ concat (map clause_tokens cs) →
  forallb (λ t, negb (opens_table t)) pre = true →
  forallb is_clause cs = true →
  (∀ prefix name, contains name (py ".") = false →
     table_name (prefix ++ py "." ++ name) = lower name)
  ∧ scan (tokens st) false ∅
    = Return (list_to_set (map table_name (referenced cs)))
  ∧ (schema ≠ ∅ →
     (validate parse iter schema sql = Return (true, py "SQL Validated")
      ↔ ∀ r, r ∈ referenced cs → known schema (table_name r)))
  ∧ ((∀ r, r ∈ referenced cs → qualifies schema r) →
     validate parse iter schema sql = Return (true, py "SQL Validated")).
Proof.
  intros Hiter Hne Hp Ht Htok Hpre Hcs.
  assert (scan (tokens st) false ∅
          = Return (list_to_set (map table_name (referenced cs)))) as Hscan.
  { rewrite Htok, scan_app_no_table by exact Hpre.
    rewrite scan_clauses by exact Hcs. now rewrite union_empty_r_L. }
  assert (schema ≠ ∅ →
          (∀ r, r ∈ referenced cs → known schema (table_name r)) →
          validate parse iter schema sql = Return (true, py "SQL Validated"))
    as Hacc.
  { intros Hs Hall.
    apply (validate_resolved parse iter schema sql st
             (list_to_set (map table_name (referenced cs))));
      try assumption.
    intros t (r & Hr & ->)%elem_of_recorded. now apply Hall. }
  split; [exact table_name_qualified|]. split; [exact Hscan|]. split.
  - intros Hs. split; [|now apply Hacc].
    rewrite (validate_references parse iter schema sql st
               (list_to_set (map table_name (referenced cs)))
               Hne Hp Ht Hs Hscan).
    destruct (first_missing _ _) eqn:Hm; [discriminate|]. intros _ r Hr.
    apply elem_of_schema_table_names.
    eapply first_missing_None; [exact Hm|].
    apply Hiter, elem_of_recorded. eauto.
  - intros Hq. destruct (decide (schema = ∅)) as [Hs|Hs].
    + apply validate_schema_skipped; try assumption.
      apply is_readonly_query_spec. eauto.
    + apply Hacc; [exact Hs|]. intros r Hr. apply qualifies_known, Hq, Hr.
Qed.

(** The statement of the specification, of which sqlparse hands on the name
    after the dot, against the schema that has users; and the name a
    reference with its dots is recorded under. *)
Lemma validate_qualified_table_witness :
  table_name (py "pg_catalog" ++ py "." ++ py "users") = py "users"
  ∧ validate sample_parse elements users_schema
      (py "SELECT * FROM pg_catalog.users;")
    = Return (true, py "SQL Validated").
Proof.
  pose proof (validate_qualified_table sample_parse elements users_schema
    (py "SELECT * FROM pg_catalog.users;")
    (Statement (py "SELECT")
       (select_star_from (Identifier (Some (py "users")))))
    [Keyword (py "SELECT"); Other; Other; Other]
    [Clause (py "FROM") [Other] (One (py "users")) [Other]]) as H.
  destruct H as (H1 & _ & _ & H4).
  - intros X x. apply elem_of_elements.
  - vm_compute. discriminate.
  - vm_compute. reflexivity.
  - reflexivity.
  - reflexivity.
  - vm_compute. reflexivity.
  - vm_compute. reflexivity.
  - split.
    + apply (H1 (py "pg_catalog") (py "users")). vm_compute. reflexivity.
    + apply H4. intros r ->%list_elem_of_singleton.
      exists (py "users"), (py "users"). split; [now left|].
      split; [vm_compute; reflexivity|].
      split; [apply users_schema_users | reflexivity].
Defined.

(** C9.  A lone SELECT without FROM and without a join keyword yields no
    reference and is accepted against every schema. *)
Theorem validate_without_from
  (parse : str → list statement) (iter : gset str → list str)
  (schema : gmap str (list str)) (sql : str) (st : statement) :
  (∀ X x, x ∈ iter X ↔ x ∈ X) →
  strip sql ≠ [] → parse sql = [st] → get_type st = py "SELECT" →
  forallb (λ t, negb (opens_table t)) (tokens st) = true →
  scan (tokens st) false ∅ = Return ∅
  ∧ validate parse iter schema sql = Return (true, py "SQL Validated").
Proof.
  intros Hiter Hne Hp Ht Htok.
  pose proof (scan_no_table (tokens st) ∅ Htok) as Hscan.
  split; [exact Hscan|].
  destruct (decide (schema = ∅)) as [Hs|Hs].
  - apply validate_schema_skipped; [exact Hs | exact Hne |].
    apply is_readonly_query_spec. eauto.
  - apply (validate_resolved parse iter schema sql st ∅); try assumption.
    intros t Hin. now apply not_elem_of_empty in Hin.
Qed.

(** SELECT 1; against the schema of the module's self test. *)
Lemma validate_without_from_witness :
  validate sample_parse elements mock_db_schema (py "SELECT 1;")
  = Return (true, py "SQL Validated").
Proof.
  refine (proj2 (validate_without_from sample_parse elements mock_db_schema
    (py "SELECT 1;")
    (Statement (py "SELECT") [Keyword (py "SELECT"); Other; Other; Other])
    _ _ _ _ _)).
  - intros X x. apply elem_of_elements.
  - vm_compute. discriminate.
  - vm_compute. reflexivity.
  - reflexivity.
  - vm_compute. reflexivity.
Defined.

(** ** Where the markers cut *)

Lemma startswith_app_inv a b p :
  startswith (a ++ b) p = true → (length p ≤ length a)%nat →
  startswith a p = true.
Proof.
  rewrite !startswith_iff. intros [r Hr] Hl. exists (skipn (length p) a).
  rewrite <- (firstn_skipn (length p) a) at 1. f_equal.
  apply (f_equal (firstn (length p))) in Hr.
  rewrite firstn_app, take_app_length in Hr.
  replace (length p - length a)%nat with 0%nat in Hr by lia.
  cbn [firstn] in Hr. now rewrite app_nil_r in Hr.
Qed.

Lemma startswith_app_compatible a r b :
  startswith (a ++ r) b = true → compatible a b = true.
Proof.
  unfold compatible. revert a. induction b as [|x b IH]; intros a H.
  - reflexivity.
  - destruct a as [|y a]; [apply orb_true_r|].
    cbn [app] in H. rewrite startswith_cons in *.
    apply andb_true_iff in H as [Hy H]. apply Ascii.eqb_eq in Hy as ->.
    rewrite startswith_cons, Ascii.eqb_refl. cbn [andb]. now apply IH.
Qed.

(** An occurrence that lies within a prefix is the first one there too. *)
Lemma index_of_prefix a b p i :
  index_of (a ++ b) p = Some i → (i + length p ≤ length a)%nat →
  index_of a p = Some i.
Proof.
  revert i. induction a as [|c a IH]; intros i H Hl.
  - cbn [length] in Hl. assert (i = 0%nat) as -> by lia.
    destruct p; [reflexivity | cbn [length] in Hl; lia].
  - cbn [app index_of] in *.
    destruct (startswith (c :: a ++ b) p) eqn:E.
    + injection H as <-.
      now rewrite (startswith_app_inv (c :: a) b p E) by (cbn [length] in *; lia).
    + destruct (index_of (a ++ b) p) as [j|] eqn:Ej; [|discriminate].
      injection H as <-. cbn [length] in Hl.
      rewrite (IH j eq_refl) by lia.
      destruct (startswith (c :: a) p) eqn:F; [|reflexivity].
      apply (startswith_app _ b) in F. cbn [app] in F. congruence.
Qed.

Lemma length_strip s : (length (strip s) ≤ length s)%nat.
Proof.
  destruct (strip_infix s) as (a & b & H).
  rewrite H at 2. rewrite !length_app. lia.
Qed.

Lemma nospace_hd_lower s : nospace_hd (lower s) = nospace_hd s.
Proof. destruct s; [reflexivity|]. cbn. now rewrite isspace_tolower. Qed.

Lemma nospace_hd_app s t : s ≠ [] → nospace_hd (s ++ t) = nospace_hd s.
Proof. now destruct s. Qed.

Lemma prefix_firstn (r s : str) w i :
  s = r ++ w → (length r ≤ i)%nat → ∃ w', firstn i s = r ++ w'.
Proof.
  intros -> H. exists (firstn (i - length r) w).
  rewrite firstn_app. f_equal. now apply firstn_all2.
Qed.

Section Cut.

(** A text [s] that opens with a visible character, and a pattern [m0] that
    ends with one and is first found in [s], whatever the case, at [i]. *)
Variables (s m0 : str) (i : nat).
Hypothesis s_headed : nospace_hd s = true.
Hypothesis m0_found : index_of (lower s) m0 = Some i.
Hypothesis m0_nonempty : m0 ≠ [].
Hypothesis m0_visible : nospace_hd (rev m0) = true.

Lemma found_split : ∃ r, lower s = firstn i (lower s) ++ m0 ++ r.
Proof.
  destruct (index_of_Some _ _ _ m0_found) as [_ H].
  apply startswith_iff in H as [r Hr]. exists r.
  now rewrite <- Hr, firstn_skipn.
Qed.

Lemma found_length : (i + length m0 ≤ length s)%nat.
Proof.
  destruct found_split as [r Hr]. apply (f_equal length) in Hr.
  destruct (index_of_Some _ _ _ m0_found) as [Hi _].
  unfold lower in *. rewrite length_map in *.
  rewrite !length_app, length_firstn, length_map in Hr. lia.
Qed.

Local Abbreviation apart := (stands_apart s m0 i).

Lemma apart_headed cur : apart cur → nospace_hd cur = true.
Proof.
  intros [[w Hw] _]. apply (nospace_hd_prefix _ w). now rewrite <- Hw.
Qed.

Lemma occurrence_in_text cur m1 j :
  (∃ w, s = cur ++ w) → index_of (lower cur) m1 = Some j →
  startswith (skipn j (lower s)) m1 = true.
Proof.
  intros [w ->] H. apply index_of_Some in H as [Hj H].
  rewrite lower_app, skipn_app.
  now apply startswith_app.
Qed.

Lemma occurrence_overlap m1 j :
  startswith (skipn j (lower s)) m1 = true →
  (i < j < i + length m0)%nat →
  compatible (skipn (j - i) m0) m1 = true.
Proof.
  intros H Hj. destruct found_split as [r Hr].
  destruct (index_of_Some _ _ _ m0_found) as [Hi _].
  replace j with ((j - i) + i)%nat in H by lia.
  rewrite <- skipn_skipn in H.
  assert (skipn i (lower s) = m0 ++ r) as E.
  { rewrite Hr at 1. rewrite skipn_app, length_firstn.
    replace (i `min` length (lower s))%nat with i by lia.
    rewrite Nat.sub_diag. cbn [skipn].
    rewrite skipn_all2 by (rewrite length_firstn; lia). reflexivity. }
  rewrite E, skipn_app in H.
  replace (j - i - length m0)%nat with 0%nat in H by lia.
  cbn [skipn] in H. now apply startswith_app_compatible in H.
Qed.

(** The occurrence ends with a visible character, which trimming keeps. *)
Lemma strip_keeps_occurrence cur j :
  (∃ w, s = cur ++ w) → (i + length m0 ≤ j)%nat → (j ≤ length cur)%nat →
  (i + length m0 ≤ length (strip (firstn j cur)))%nat.
Proof.
  intros [w Hw] Hj Hl. set (k := (i + length m0)%nat) in *.
  set (A := firstn k cur).
  assert (firstn j cur = A ++ skipn k (firstn j cur)) as E.
  { rewrite <- (firstn_skipn k (firstn j cur)) at 1. f_equal.
    rewrite firstn_firstn. unfold A. f_equal. lia. }
  assert (nospace_hd (firstn j cur) = true) as Hhd.
  { apply (nospace_hd_prefix _ (skipn j cur)). rewrite firstn_skipn.
    apply (nospace_hd_prefix _ w). now rewrite <- Hw. }
  assert (nospace_hd (rev A) = true) as HA.
  { rewrite <- nospace_hd_lower. unfold lower. rewrite map_rev.
    destruct found_split as [r Hr].
    destruct (index_of_Some _ _ _ m0_found) as [Hi _].
    assert (map tolower A = firstn i (lower s) ++ m0) as ->.
    { unfold A. rewrite <- firstn_map. fold (lower cur).
      assert (firstn k (lower cur) = firstn k (lower s)) as ->.
      { rewrite Hw, lower_app, firstn_app.
        replace (k - length (lower cur))%nat with 0%nat
          by (unfold lower; rewrite length_map; lia).
        cbn [firstn]. now rewrite app_nil_r. }
      rewrite Hr at 1. rewrite firstn_app, length_firstn.
      replace (i `min` length (lower s))%nat with i by lia.
      rewrite (firstn_all2 (n:=k)) by (rewrite length_firstn; lia).
      f_equal. replace (k - i)%nat with (length m0) by lia.
      apply take_app_length. }
    rewrite rev_app_distr, nospace_hd_app; [exact m0_visible|].
    intros H. apply (f_equal (@rev ascii)) in H.
    rewrite rev_involutive in H. now apply m0_nonempty. }
  unfold strip. rewrite lstrip_id by exact Hhd.
  rewrite E, rstrip_app by exact HA.
  rewrite length_app. unfold A. rewrite length_firstn. lia.
Qed.

(** A cut by a marker that cannot begin inside the occurrence. *)
Lemma cut_marker_apart cur m1 :
  apart cur →
  (∀ d, (0 < d < length m0)%nat → compatible (skipn d m0) m1 = false) →
  apart (cut_marker cur m1).
Proof.
  intros Hap Hclear. pose proof (apart_headed _ Hap) as Hhd.
  destruct Hap as [Hpre Hlen].
  destruct (index_of (lower cur) m1) as [j|] eqn:E.
  2:{ rewrite (cut_marker_None _ _ E). now split. }
  split.
  { destruct Hpre as [w Hw]. destruct (cut_marker_prefix cur m1 Hhd) as [w' Hw'].
    exists (w' ++ w). now rewrite app_assoc, <- Hw', <- Hw. }
  rewrite (cut_marker_Some _ _ _ E).
  pose proof (index_of_Some _ _ _ E) as [Hj _].
  unfold lower in Hj. rewrite length_map in Hj.
  destruct (Nat.le_gt_cases j i) as [Hji | Hji].
  - left. pose proof (length_strip (firstn j cur)).
    rewrite length_firstn in *. lia.
  - destruct (Nat.le_gt_cases (i + length m0) j) as [Hjk | Hjk].
    + right. now apply strip_keeps_occurrence.
    + exfalso. pose proof (occurrence_in_text cur m1 j Hpre E) as Ho.
      apply occurrence_overlap in Ho; [|lia].
      rewrite Hclear in Ho by lia. discriminate.
Qed.

(** The cut by the pattern itself. *)
Lemma cut_marker_short cur :
  apart cur →
  (∃ w, s = cut_marker cur m0 ++ w) ∧ (length (cut_marker cur m0) ≤ i)%nat.
Proof.
  intros Hap. pose proof (apart_headed _ Hap) as Hhd.
  destruct Hap as [[w Hw] Hlen]. split.
  { destruct (cut_marker_prefix cur m0 Hhd) as [w' Hw'].
    exists (w' ++ w). now rewrite app_assoc, <- Hw', <- Hw. }
  destruct Hlen as [Hlen | Hlen].
  - destruct (cut_marker_prefix cur m0 Hhd) as [w' Hw'].
    apply (f_equal length) in Hw'. rewrite length_app in Hw'. lia.
  - assert (index_of (lower cur) m0 = Some i) as E.
    { apply (index_of_prefix _ (lower w)).
      - now rewrite <- lower_app, <- Hw.
      - unfold lower. rewrite length_map. lia. }
    rewrite (cut_marker_Some _ _ _ E).
    pose proof (length_strip (firstn i cur)).
    rewrite length_firstn in *. lia.
Qed.

Lemma fold_cut_apart before cur :
  apart cur →
  (∀ m1 d, m1 ∈ before → (0 < d < length m0)%nat →
     compatible (skipn d m0) m1 = false) →
  apart (fold_left cut_marker before cur).
Proof.
  revert cur. induction before as [|m1 before IH]; intros cur Hap Hclear.
  - exact Hap.
  - cbn [fold_left]. apply IH.
    + apply cut_marker_apart; [exact Hap|].
      intros d Hd. apply Hclear; [left | exact Hd].
    + intros m d Hm Hd. apply Hclear; [now right | exact Hd].
Qed.

Lemma fold_cut_short after cur :
  (∃ w, s = cur ++ w) → (length cur ≤ i)%nat →
  (∃ w, s = fold_left cut_marker after cur ++ w)
  ∧ (length (fold_left cut_marker after cur) ≤ i)%nat.
Proof.
  intros [w Hw] Hl.
  destruct (fold_cut_prefix after cur) as [w' Hw'].
  { apply (nospace_hd_prefix _ w). now rewrite <- Hw. }
  split.
  - exists (w' ++ w). now rewrite app_assoc, <- Hw', <- Hw.
  - apply (f_equal length) in Hw'. rewrite length_app in Hw'. lia.
Qed.

(** After the whole loop nothing is left from the occurrence on. *)
Lemma fold_cut_before before after :
  clear_of m0 before = true →
  ∃ w, firstn i s = fold_left cut_marker (before ++ m0 :: after) s ++ w.
Proof.
  intros Hclear.
  assert (apart s) as Hap.
  { split; [exists []; now rewrite app_nil_r | right; apply found_length]. }
  assert (apart (fold_left cut_marker before s)) as Hap'.
  { apply fold_cut_apart; [exact Hap|]. intros m1 d Hm Hd.
    unfold clear_of in Hclear. rewrite forallb_forall in Hclear.
    apply list_elem_of_In in Hm. specialize (Hclear m1 Hm).
    rewrite forallb_forall in Hclear.
    apply negb_true_iff, Hclear, in_seq. lia. }
  rewrite fold_left_app. cbn [fold_left].
  destruct (cut_marker_short _ Hap') as [Hpre Hlen].
  destruct (fold_cut_short after _ Hpre Hlen) as [[w Hw] Hl].
  now apply (prefix_firstn _ _ w).
Qed.

End Cut.

(** In the list of the source no marker can begin inside an occurrence of a
    later one, and every marker ends with a visible character. *)
Lemma markers_split m :
  m ∈ explanation_markers →
  ∃ before after,
    explanation_markers = before ++ m :: after
    ∧ clear_of m before = true ∧ nospace_hd (rev m) = true.
Proof.
  unfold explanation_markers. rewrite !elem_of_cons, elem_of_nil.
  intros H. repeat destruct H as [-> | H]; [..|contradiction].
  - exists [], (tl explanation_markers). now vm_compute.
  - exists (firstn 1 explanation_markers), (skipn 2 explanation_markers).
    now vm_compute.
  - exists (firstn 2 explanation_markers), (skipn 3 explanation_markers).
    now vm_compute.
  - exists (firstn 3 explanation_markers), (skipn 4 explanation_markers).
    now vm_compute.
  - exists (firstn 4 explanation_markers), (skipn 5 explanation_markers).
    now vm_compute.
  - exists (firstn 5 explanation_markers), []. now vm_compute.
Qed.

(** *** The retained text keeps its SELECT *)

(** In a text that opens with "select" followed by nothing or by a blank, a
    marker is found only from the seventh character on. *)
Lemma marker_after_select m tail j :
  m ∈ explanation_markers →
  tail = [] ∨ (∃ tail', tail = " "%char :: tail') →
  index_of (py "select" ++ tail) m = Some j →
  ∃ j', j = (6 + j')%nat ∧ index_of tail m = Some j'.
Proof.
  unfold explanation_markers. rewrite !elem_of_cons, elem_of_nil.
  intros H Ht. repeat destruct H as [-> | H]; [..|contradiction];
    (destruct Ht as [-> | [tail' ->]];
     [vm_compute; discriminate |
      cbn; destruct (index_of tail' _) as [j0|]; cbn;
      [intros [= <-]; now exists (S j0) | discriminate]]).
Qed.

Lemma select_split z :
  startswith (lower z) (py "select ") = true →
  ∃ sel c tail, z = sel ++ c :: tail
    ∧ lower sel = py "select" ∧ tolower c = " "%char.
Proof.
  intros [r Hr]%startswith_iff.
  destruct z as [|c1 [|c2 [|c3 [|c4 [|c5 [|c6 [|c7 z]]]]]]]; try discriminate.
  exists [c1; c2; c3; c4; c5; c6], c7, z.
  cbn in Hr. injection Hr as H1 H2 H3 H4 H5 H6 H7 _.
  repeat split; [|exact H7]. cbn. congruence.
Qed.

Section Retained.

(** The first six characters of a retained text and what follows them. *)
Variables (sel : str) (c : ascii) (rest : str).
Hypothesis sel_select : lower sel = py "select".
Hypothesis c_blank : tolower c = " "%char.

Lemma sel_length : length sel = 6%nat.
Proof. apply (f_equal length) in sel_select. unfold lower in *.
  now rewrite length_map in sel_select. Qed.

Lemma strip_sel_app x : strip (sel ++ x) = sel ++ rstrip x.
Proof.
  unfold strip. rewrite lstrip_id.
  - apply rstrip_app. rewrite <- nospace_hd_lower. unfold lower.
    rewrite map_rev. fold (lower sel). now rewrite sel_select.
  - rewrite <- nospace_hd_lower, lower_app, sel_select. reflexivity.
Qed.

Lemma tail_form tail w :
  c :: rest = tail ++ w →
  lower tail = [] ∨ ∃ tail', lower tail = " "%char :: tail'.
Proof.
  destruct tail as [|d tail]; [now left|].
  intros [= <- _]. right. exists (lower tail). cbn. now rewrite c_blank.
Qed.

Lemma cut_marker_keeps_select tail w m :
  c :: rest = tail ++ w → m ∈ explanation_markers →
  ∃ tail2 w2, cut_marker (sel ++ tail) m = sel ++ tail2
              ∧ c :: rest = tail2 ++ w2.
Proof.
  intros Hw Hm. destruct (index_of (lower (sel ++ tail)) m) as [j|] eqn:E.
  2:{ rewrite (cut_marker_None _ _ E). now exists tail, w. }
  rewrite (cut_marker_Some _ _ _ E).
  rewrite lower_app, sel_select in E.
  apply (marker_after_select m _ j Hm (tail_form _ _ Hw)) in E
    as (j' & -> & _).
  rewrite <- sel_length, firstn_app_2, strip_sel_app.
  destruct (rstrip_prefix (firstn j' tail)) as [w1 Hw1].
  exists (rstrip (firstn j' tail)), (w1 ++ skipn j' tail ++ w).
  split; [reflexivity|].
  now rewrite Hw, !app_assoc, <- Hw1, firstn_skipn.
Qed.

Lemma fold_cut_keeps_select ms tail w :
  c :: rest = tail ++ w → (∀ m, m ∈ ms → m ∈ explanation_markers) →
  ∃ tail2, fold_left cut_marker ms (sel ++ tail) = sel ++ tail2.
Proof.
  revert tail w. induction ms as [|m ms IH]; intros tail w Hw Hms.
  - now exists tail.
  - cbn [fold_left].
    destruct (cut_marker_keeps_select tail w m Hw) as (tail2 & w2 & -> & Hw2).
    { apply Hms. left. }
    apply (IH tail2 w2 Hw2). intros m' Hm'. apply Hms. now right.
Qed.

(** What the loop leaves of the retained text passes the final check. *)
Lemma fold_cut_select :
  startswith
    (strip (upper (fold_left cut_marker explanation_markers (sel ++ c :: rest))))
    (py "SELECT") = true.
Proof.
  destruct (fold_cut_keeps_select explanation_markers (c :: rest) [])
    as [tail2 ->]; [now rewrite app_nil_r | easy |].
  rewrite strip_upper, strip_sel_app, upper_app, <- (upper_lower sel),
    sel_select.
  apply startswith_iff. now eexists.
Qed.

End Retained.

(** X24.  In an ASCII completion the markers are looked for as plain text,
    in any case, anywhere in the text retained from "SELECT " on: when one of
    them occurs there, at [i], be it inside a quoted literal, what the loop
    leaves is a prefix of the text before [i] in which no marker is left, and
    the cleanup returns it, closed by a semicolon; the cut by the marker
    itself is at [i] exactly. *)
Theorem cleanup_cuts_at_marker (raw m : str) (i0 i : nat) :
  let s2 := remove_quotes (remove_fences (strip raw)) in
  let retained := skipn i0 s2 in
  let r := extract_select s2 in
  isascii raw = true →
  index_of (lower s2) (py "select ") = Some i0 →
  m ∈ explanation_markers →
  index_of (lower retained) m = Some i →
  cut_marker retained m = strip (firstn i retained)
  ∧ (∃ w, firstn i retained = r ++ w)
  ∧ (∀ m', m' ∈ explanation_markers → index_of (lower r) m' = None)
  ∧ cleanup raw = Return (ensure_semicolon r).
Proof.
  intros s2 retained r _ H0 Hm Hi.
  assert (r = fold_left cut_marker explanation_markers retained) as Hr
    by (apply extract_select_Some, H0).
  assert (startswith (lower retained) (py "select ") = true) as Hsel.
  { apply index_of_Some in H0 as [_ H0].
    unfold retained, lower. now rewrite <- skipn_map. }
  split; [now apply cut_marker_Some|]. split; [|split].
  - destruct (markers_split m Hm) as (before & after & Hsplit & Hclear & Hvis).
    rewrite Hr, Hsplit.
    apply fold_cut_before; try assumption.
    + now apply select_nospace_hd.
    + now apply markers_nonempty.
  - intros m' Hm'. rewrite Hr.
    now apply fold_cut_clean; [apply markers_nonempty|].
  - rewrite cleanup_stages. cbn zeta. fold s2. fold r.
    destruct (select_split _ Hsel) as (sel & c & tail & Hz & Hs & Hc).
    now rewrite Hr, Hz, (fold_cut_select sel c tail Hs Hc).
Qed.

(** The statement with a marker inside its literal: the cleanup hands out
    the text before the marker, closed by a semicolon. *)
Lemma cleanup_cuts_at_marker_witness :
  cleanup (py "SELECT * FROM t WHERE c = 'note: x'")
  = Return (py "SELECT * FROM t WHERE c = ';").
Proof.
  refine (eq_trans
    (proj2 (proj2 (proj2 (cleanup_cuts_at_marker
       (py "SELECT * FROM t WHERE c = 'note: x'") (py "note:") 0 27
       _ _ _ _))))
    _).
  - vm_compute. reflexivity.
  - vm_compute. reflexivity.
  - vm_compute. do 4 right. left.
  - vm_compute. reflexivity.
  - vm_compute. reflexivity.
Defined.

(** ** Two unknown tables

    With two references that the schema does not know, the message names one
    of them, whichever the set yields first. *)
Lemma validate_two_unknown_tables (iter : gset str → list str) :
  (∀ X x, x ∈ iter X ↔ x ∈ X) →
  ∃ t, (t = py "ghost_one" ∨ t = py "ghost_two")
    ∧ validate sample_parse iter users_schema
        (py "SELECT * FROM ghost_one, ghost_two;")
      = Return (false, unknown_table t).
Proof.
  intros Hiter.
  set (refs := {[ py "ghost_two" ]} ∪ ({[ py "ghost_one" ]} ∪ ∅) : gset str).
  pose proof (validate_references sample_parse iter users_schema
    (py "SELECT * FROM ghost_one, ghost_two;")
    (Statement (py "SELECT")
       (select_star_from
          (IdentifierList [ IdentifierItem (Some (py "ghost_one"));
                            IdentifierItem (Some (py "ghost_two")) ])))
    refs) as V.
  rewrite V; clear V.
  - destruct (first_missing (iter refs) (schema_table_names users_schema))
      as [t|] eqn:E.
    + exists t. split; [|reflexivity].
      apply first_missing_Some in E as [E _]. apply Hiter in E.
      apply elem_of_union in E as [E%elem_of_singleton | E%elem_of_union].
      * now right.
      * destruct E as [E%elem_of_singleton | E%not_elem_of_empty];
          [now left | contradiction].
    + exfalso. rewrite first_missing_None in E.
      assert (py "ghost_one" ∈ schema_table_names users_schema) as H.
      { apply E, Hiter, elem_of_union_r, elem_of_union_l.
        now apply elem_of_singleton. }
      revert H.
      apply (bool_decide_eq_false_1
               (py "ghost_one" ∈ schema_table_names users_schema)).
      vm_compute. reflexivity.
  - vm_compute. discriminate.
  - vm_compute. reflexivity.
  - reflexivity.
  - apply users_schema_nonempty.
  - reflexivity.
Qed.

(** ** What the scan raises

    An identifier without a real name after FROM stops the validation with
    the exception of the [in] test; the caller in app.py reports it as an
    error of the validation. *)
Lemma scan_raises_on_nameless toks acc :
  scan (Keyword (py "FROM") :: Identifier None :: toks) false acc
  = Raise "TypeError" none_not_iterable.
Proof. cbn [scan]. rewrite is_from_FROM. reflexivity. Qed.

Lemma scan_raises_on_plain_item items toks acc :
  scan (Keyword (py "FROM") :: IdentifierList (PlainItem :: items) :: toks)
    false acc
  = Raise "AttributeError" no_get_real_name.
Proof. cbn [scan]. rewrite is_from_FROM. reflexivity. Qed.

(** * Further properties of the code *)

(** ** The cleanup only takes text away *)

Lemma occurs_refl s : occurs s s.
Proof. exists [], []. now rewrite app_nil_r. Qed.

Lemma occurs_firstn n s : occurs (firstn n s) s.
Proof. exists [], (skipn n s). cbn [app]. now rewrite firstn_skipn. Qed.

Lemma occurs_skipn n s : occurs (skipn n s) s.
Proof. exists (firstn n s), []. now rewrite app_nil_r, firstn_skipn. Qed.

Lemma occurs_slice s lo hi : occurs (slice s lo hi) s.
Proof.
  unfold slice. eapply occurs_trans; [apply occurs_firstn | apply occurs_skipn].
Qed.

Lemma occurs_length p s : occurs p s → (length p ≤ length s)%nat.
Proof. intros (a & b & ->). rewrite !length_app. lia. Qed.

Lemma remove_fences_infix s : occurs (remove_fences s) s.
Proof.
  unfold remove_fences.
  set (s1 := if startswith s (py "```sql")
             then strip (slice s (Some (len (py "```sql"))) None) else s).
  assert (occurs s1 s) as H1.
  { unfold s1. destruct (startswith s (py "```sql")); [|apply occurs_refl].
    eapply occurs_trans; [apply strip_infix | apply occurs_slice]. }
  clearbody s1.
  destruct (endswith s1 (py "```")); [|exact H1].
  eapply occurs_trans; [apply strip_infix|].
  eapply occurs_trans; [apply occurs_slice | exact H1].
Qed.

Lemma remove_quotes_infix s : occurs (remove_quotes s) s.
Proof.
  unfold remove_quotes.
  set (s1 := if startswith s (py "'") && endswith s (py "'")
             then slice s (Some 1) (Some (-1)) else s).
  assert (occurs s1 s) as H1.
  { unfold s1. destruct (_ && _); [apply occurs_slice | apply occurs_refl]. }
  clearbody s1.
  destruct (startswith s1 [dquote] && endswith s1 [dquote]); [|exact H1].
  eapply occurs_trans; [apply occurs_slice | exact H1].
Qed.

Lemma extract_select_infix s : occurs (extract_select s) s.
Proof.
  unfold extract_select. destruct (negb _); [|apply occurs_refl].
  eapply occurs_trans; [apply fold_cut_infix|].
  destruct (negb _); apply occurs_slice.
Qed.

(** X1.  The cleanup makes up no SQL: what it returns stands as it is in the
    completion, but for the one semicolon it may append; so the result is at
    most one character longer than the completion. *)
Theorem cleanup_returns_text_of_completion (raw y : str) :
  cleanup raw = Return y →
  (occurs y raw ∨ ∃ t, y = t ++ py ";" ∧ occurs t raw)
  ∧ (length y ≤ length raw + 1)%nat.
Proof.
  rewrite cleanup_stages. cbn zeta.
  set (s3 := extract_select (remove_quotes (remove_fences (strip raw)))).
  assert (occurs s3 raw) as H3.
  { eapply occurs_trans; [apply extract_select_infix|].
    eapply occurs_trans; [apply remove_quotes_infix|].
    eapply occurs_trans; [apply remove_fences_infix | apply strip_infix]. }
  destruct (startswith (strip (upper s3)) (py "SELECT")) eqn:H; [|discriminate].
  intros [= <-]. rewrite (ensure_semicolon_accepted _ H).
  destruct (endswith (strip s3) (py ";")).
  - split; [now left|]. apply occurs_length in H3. lia.
  - assert (occurs (strip s3) raw) as Ht
      by (eapply occurs_trans; [apply strip_infix | exact H3]).
    split; [right; now exists (strip s3)|].
    apply occurs_length in Ht. rewrite length_app.
    change (length (py ";")) with 1%nat. lia.
Qed.

(** The chatty completion of the specification: its result is the statement
    that stands in it, with the semicolon appended. *)
Lemma cleanup_returns_text_of_completion_witness :
  let raw :=
    py "Sure! Here is the SQL: SELECT id FROM t Explanation: this returns..." in
  let y := py "SELECT id FROM t;" in
  cleanup raw = Return y
  ∧ (occurs y raw ∨ ∃ t, y = t ++ py ";" ∧ occurs t raw)
  ∧ (length y ≤ length raw + 1)%nat.
Proof.
  intros raw y.
  assert (cleanup raw = Return y) as H by (vm_compute; reflexivity).
  split; [exact H|]. exact (cleanup_returns_text_of_completion raw y H).
Defined.

(** ** A completion that holds the token is never rejected *)

(** X2.  When the text left of an ASCII completion by the first two steps
    holds "SELECT " in any case, first at [i0], the cleanup does not reject: it returns, with the
    semicolon seen to, a prefix of the text from [i0] on, which opens with
    that very SELECT; what stood before [i0] is dropped. *)
Theorem cleanup_accepts_select_token (raw : str) (i0 : nat) :
  let s2 := remove_quotes (remove_fences (strip raw)) in
  let r := extract_select s2 in
  isascii raw = true →
  find (upper s2) (py "SELECT ") = Z.of_nat i0 →
  cleanup raw = Return (ensure_semicolon r)
  ∧ (∃ w, skipn i0 s2 = r ++ w)
  ∧ startswith (upper r) (py "SELECT") = true
  ∧ firstn 6 r = firstn 6 (skipn i0 s2).
Proof.
  intros s2 r _ Hfind.
  assert (index_of (lower s2) (py "select ") = Some i0) as H0.
  { pose proof (index_of_caseless s2 (py "select ")) as E.
    change (upper (py "select ")) with (py "SELECT ") in E.
    change (lower (py "select ")) with (py "select ") in E.
    rewrite <- E. unfold find in Hfind.
    destruct (index_of (upper s2) (py "SELECT ")) as [j|]; [|lia].
    f_equal. lia. }
  set (z := skipn i0 s2).
  assert (r = fold_left cut_marker explanation_markers z) as Hr
    by (apply extract_select_Some, H0).
  assert (startswith (lower z) (py "select ") = true) as Hsel.
  { apply index_of_Some in H0 as [_ H0]. unfold z, lower.
    now rewrite <- skipn_map. }
  destruct (select_split _ Hsel) as (sel & c & tail & Hz & Hs & Hc).
  pose proof (fold_cut_select sel c tail Hs Hc) as Hcheck.
  destruct (fold_cut_keeps_select sel c tail Hs Hc explanation_markers
              (c :: tail) []) as [tail2 Ht2];
    [now rewrite app_nil_r | easy |].
  rewrite <- Hz, <- Hr in Hcheck, Ht2.
  split; [|split; [|split]].
  - rewrite cleanup_stages. cbn zeta. fold s2. fold r. now rewrite Hcheck.
  - rewrite Hr. apply fold_cut_prefix. now apply select_nospace_hd.
  - rewrite Ht2, upper_app, <- (upper_lower sel), Hs.
    apply startswith_iff. now eexists.
  - rewrite Ht2, Hz.
    pose proof (sel_length sel Hs) as Hl.
    rewrite !firstn_app, Hl. cbn [Nat.sub firstn]. reflexivity.
Qed.

(** The prose around the statement goes, the statement stays. *)
Lemma cleanup_accepts_select_token_witness :
  cleanup
    (py "Sure! Here is the SQL: SELECT id FROM t Explanation: this returns...")
  = Return (py "SELECT id FROM t;").
Proof.
  refine (eq_trans (proj1 (cleanup_accepts_select_token
    (py "Sure! Here is the SQL: SELECT id FROM t Explanation: this returns...")
    23 _ _)) _).
  - vm_compute. reflexivity.
  - vm_compute. reflexivity.
  - vm_compute. reflexivity.
Defined.

(** ** What the cleanup hands on *)

(** X3.  A text the cleanup returns is not empty and, once trimmed, opens
    with SELECT in some case and ends with a semicolon; in particular it
    passes the test [execute_query] makes before it runs a text. *)
Theorem cleanup_result_is_select (raw y : str) :
  cleanup raw = Return y →
  y ≠ []
  ∧ startswith (upper (strip y)) (py "SELECT") = true
  ∧ endswith (strip y) (py ";") = true
  ∧ is_select y = true.
Proof.
  intros H. apply cleanup_returns_well_formed, well_formed_spec in H
    as (_ & H2 & H3 & _).
  unfold is_select. repeat split; try assumption.
  intros ->. discriminate H2.
Qed.

Lemma cleanup_result_is_select_witness :
  let raw := py "' select 1; '" in
  let y := py "select 1; " in
  cleanup raw = Return y
  ∧ y ≠ []
  ∧ startswith (upper (strip y)) (py "SELECT") = true
  ∧ endswith (strip y) (py ";") = true
  ∧ is_select y = true.
Proof.
  intros raw y.
  assert (cleanup raw = Return y) as H by (vm_compute; reflexivity).
  split; [exact H|]. exact (cleanup_result_is_select raw y H).
Defined.

(** ** nl_to_sql.py: [translate] *)


Lemma translate_returns url model post nl_query db_schema_str y :
  translate url model post nl_query db_schema_str = Return y →
  db_schema_str ≠ []
  ∧ ∃ response_data raw,
      post (url ++ py "/api/generate") model
        (full_prompt nl_query db_schema_str) = Json response_data
      ∧ response_data !! py "response" = Some (Text raw)
      ∧ raw ≠ [] ∧ cleanup raw = Return y.
Proof.
  unfold translate. case_bool_decide as Hs; [discriminate|].
  destruct (post _ _ _) as [| | | | |response_data|[]|body|type_name] eqn:Hp;
    try discriminate; [|destruct (contains body _); discriminate].
  destruct (response_data !! py "response") as [[[|c raw]|[] shown t]|] eqn:Hr;
    try discriminate.
  intros H. split; [exact Hs|]. exists response_data, (c :: raw).
  split; [reflexivity|]. split; [exact Hr|]. split; [discriminate | exact H].
Qed.

Lemma sample_post_response :
  translate (py "http://localhost:11434") (py "mistral") sample_post
    (py "all users") users_text
  = Return (py "SELECT * FROM users;").
Proof.
  unfold translate. rewrite bool_decide_eq_false_2 by discriminate.
  unfold sample_post. rewrite lookup_singleton_eq. vm_compute. reflexivity.
Qed.

Section TranslateFacts.

Variables ollama_base_url ollama_model : str.
Variable post : str → str → str → reply.

(** X4.  What [translate] returns is what the cleanup returns for the text
    in the field "response" of the reply to the one request it makes, for the
    prompt made of the question and the schema text.  The schema text was not
    empty then, and the result opens with SELECT and ends with a semicolon,
    white space and case apart. *)
Theorem translate_returns_cleaned (nl_query db_schema_str y : str) :
  translate ollama_base_url ollama_model post nl_query db_schema_str = Return y →
  db_schema_str ≠ []
  ∧ (∃ response_data raw,
       post (ollama_base_url ++ py "/api/generate") ollama_model
         (full_prompt nl_query db_schema_str) = Json response_data
       ∧ response_data !! py "response" = Some (Text raw)
       ∧ raw ≠ [] ∧ cleanup raw = Return y)
  ∧ is_select y = true
  ∧ endswith (strip y) (py ";") = true.
Proof.
  intros H. destruct (translate_returns _ _ _ _ _ _ H)
    as (Hs & response_data & raw & Hp & Hr & Hne & Hc).
  split; [exact Hs|]. split; [eauto 10|].
  apply cleanup_returns_well_formed, well_formed_spec in Hc as (_ & H2 & H3 & _).
  split; assumption.
Qed.


End TranslateFacts.

Lemma translate_returns_cleaned_witness :
  translate (py "http://localhost:11434") (py "mistral") sample_post
    (py "all users") users_text
  = Return (py "SELECT * FROM users;")
  ∧ is_select (py "SELECT * FROM users;") = true
  ∧ endswith (strip (py "SELECT * FROM users;")) (py ";") = true.
Proof.
  split; [exact sample_post_response|].
  exact (proj2 (proj2 (translate_returns_cleaned _ _ _ _ _ _
                         sample_post_response))).
Defined.


(** ** The verdicts of the validator *)

Lemma validate_accepted_message parse iter schema sql msg :
  validate parse iter schema sql = Return (true, msg) → msg = py "SQL Validated".
Proof.
  unfold validate. case_bool_decide; [discriminate|].
  destruct (is_readonly_query parse sql); [|discriminate]. cbn [negb].
  destruct (validate_schema_references parse iter schema sql) as [[[] m]|];
    cbn [negb]; [|discriminate..].
  now intros [= <-].
Qed.

(** The statement of the sample session is accepted. *)
Lemma validate_users_sample :
  validate sample_parse elements users_schema (py "SELECT * FROM users;")
  = Return (true, py "SQL Validated").
Proof.
  apply (validate_resolved sample_parse elements users_schema _
           (Statement (py "SELECT")
              (select_star_from (Identifier (Some (py "users")))))
           {[ py "users" ]}).
  - intros X x. apply elem_of_elements.
  - vm_compute. intros E. discriminate E.
  - vm_compute. reflexivity.
  - reflexivity.
  - apply users_schema_nonempty.
  - apply scan_select_star_from.
  - intros t ->%elem_of_singleton. exists (py "users").
    split; [apply users_schema_users | reflexivity].
Qed.

Lemma unknown_table_not_parsing_failed t :
  unknown_table t ≠ py "Invalid SQL syntax (parsing failed).".
Proof. unfold unknown_table. vm_compute. intros H. discriminate H. Qed.

Lemma check_tables_verdict l X ok msg :
  check_tables l X = (ok, msg) →
  (ok = true ∧ msg = py "SQL schema references seem valid.")
  ∨ (ok = false ∧ ∃ t, msg = unknown_table t ∧ t ∈ l ∧ t ∉ X).
Proof.
  rewrite check_tables_first_missing.
  destruct (first_missing l X) as [t|] eqn:E; intros [= <- <-].
  - right. split; [reflexivity|]. exists t. split; [reflexivity|].
    now apply first_missing_Some.
  - now left.
Qed.

(** X6.  [validate] has four verdicts and no other: the acceptance with
    its one message, for a text that is not blank and passes the read-only
    check; the rejection of a blank text; the rejection of a text that fails
    the read-only check; and, against a schema that is not empty, the
    rejection that names a table the schema lacks.  The messages of the
    reference check other than that last one stay inside, and its answer to a
    text the parser makes nothing of is never given: the read-only check has
    rejected such a text before.  No message is empty. *)
Theorem validate_verdicts (parse : str → list statement)
  (iter : gset str → list str) (schema : gmap str (list str))
  (sql : str) (ok : bool) (msg : str) :
  validate parse iter schema sql = Return (ok, msg) →
  ((ok = true ∧ msg = py "SQL Validated"
    ∧ strip sql ≠ [] ∧ is_readonly_query parse sql = true)
   ∨ (ok = false ∧ msg = py "SQL query is empty." ∧ strip sql = [])
   ∨ (ok = false ∧ msg = py "Invalid SQL: Only SELECT queries are permitted."
      ∧ strip sql ≠ [] ∧ is_readonly_query parse sql = false)
   ∨ (ok = false ∧ schema ≠ ∅ ∧ is_readonly_query parse sql = true
      ∧ ∃ t, msg = unknown_table t ∧ t ∉ schema_table_names schema))
  ∧ msg ≠ [] ∧ msg ≠ py "Invalid SQL syntax (parsing failed).".
Proof.
  unfold validate. case_bool_decide as Hne.
  { intros [= <- <-]. split; [|split; discriminate]. right. left. auto. }
  destruct (is_readonly_query parse sql) eqn:Hro; cbn [negb].
  2: { intros [= <- <-]. split; [|split; discriminate].
       right. right. left. auto. }
  unfold validate_schema_references. case_bool_decide as Hs.
  { cbn [negb]. intros [= <- <-]. split; [|split; discriminate]. left. auto. }
  destruct (parse sql) as [|st rest] eqn:Hp.
  { apply is_readonly_query_spec in Hro as (st & Hst & _). congruence. }
  destruct (scan (tokens st) false ∅) as [refs|e m]; [|discriminate].
  destruct (check_tables _ _) as [valid schema_msg] eqn:Hc.
  apply check_tables_verdict in Hc as [[-> ->] | (-> & t & -> & _ & Ht)];
    cbn [negb]; intros [= <- <-].
  - split; [|split; discriminate]. left. auto.
  - split; [|split].
    + right. right. right. eauto 10.
    + discriminate.
    + apply unknown_table_not_parsing_failed.
Qed.

(** The example of the specification: ghost_table against the users schema. *)
Lemma validate_verdicts_witness :
  let v := validate sample_parse elements users_schema
             (py "SELECT * FROM ghost_table;") in
  v = Return (false, unknown_table (py "ghost_table"))
  ∧ unknown_table (py "ghost_table") ≠ []
  ∧ unknown_table (py "ghost_table")
    ≠ py "Invalid SQL syntax (parsing failed).".
Proof.
  intros v.
  assert (v = Return (false, unknown_table (py "ghost_table"))) as H.
  { unfold v.
    rewrite (validate_references sample_parse elements users_schema _
               (Statement (py "SELECT")
                  (select_star_from (Identifier (Some (py "ghost_table")))))
               {[ py "ghost_table" ]}).
    - rewrite elements_singleton. cbn [first_missing].
      rewrite bool_decide_eq_true_2; [reflexivity|].
      rewrite elem_of_schema_table_names. intros (k & Hk & E).
      unfold users_schema in Hk.
      destruct (decide (k = py "users")) as [->|Hn].
      + vm_compute in E. discriminate E.
      + rewrite lookup_singleton_ne in Hk by congruence.
        destruct Hk as [? Hk]. discriminate Hk.
    - vm_compute. intros E. discriminate E.
    - vm_compute. reflexivity.
    - reflexivity.
    - apply users_schema_nonempty.
    - apply scan_select_star_from. }
  split; [exact H|].
  exact (proj2 (validate_verdicts _ _ _ _ _ _ H)).
Defined.

(** ** Acceptance *)

(** X7.  When a set is iterated through its members, [validate] accepts a
    text exactly when the text is not blank, parses to one statement of type
    SELECT and, unless the schema is empty, the scan of that statement's
    tokens goes through and records only names of tables the schema has, up
    to case. *)
Theorem validate_accepts_iff (parse : str → list statement)
  (iter : gset str → list str) (schema : gmap str (list str)) (sql : str) :
  (∀ X x, x ∈ iter X ↔ x ∈ X) →
  validate parse iter schema sql = Return (true, py "SQL Validated")
  ↔ strip sql ≠ []
    ∧ ∃ st, parse sql = [st] ∧ get_type st = py "SELECT"
      ∧ (schema = ∅
         ∨ ∃ refs, scan (tokens st) false ∅ = Return refs
                   ∧ ∀ t, t ∈ refs → known schema t).
Proof.
  intros Hiter. split.
  - intros H.
    assert (strip sql ≠ []) as Hne.
    { intros E. unfold validate in H.
      rewrite bool_decide_eq_true_2 in H by exact E. discriminate H. }
    split; [exact Hne|].
    pose proof (validate_accepted_readonly _ _ _ _ _ H) as Hro.
    apply is_readonly_query_spec in Hro as (st & Hp & Ht).
    exists st. split; [exact Hp|]. split; [exact Ht|].
    destruct (decide (schema = ∅)) as [Hs|Hs]; [now left|right].
    destruct (scan (tokens st) false ∅) as [refs|e m] eqn:Hscan.
    + exists refs. split; [reflexivity|].
      rewrite (validate_references _ _ _ _ _ _ Hne Hp Ht Hs Hscan) in H.
      destruct (first_missing _ _) eqn:Hm; [discriminate|].
      intros t Hin. apply elem_of_schema_table_names.
      eapply first_missing_None; [exact Hm|]. now apply Hiter.
    + exfalso. unfold validate, validate_schema_references in H.
      rewrite bool_decide_eq_false_2 in H by exact Hne.
      assert (is_readonly_query parse sql = true) as Hro
        by (apply is_readonly_query_spec; eauto).
      rewrite Hro in H. cbn [negb] in H.
      rewrite bool_decide_eq_false_2, Hp, Hscan in H by exact Hs.
      discriminate H.
  - intros (Hne & st & Hp & Ht & [Hs | (refs & Hscan & Hall)]).
    + apply validate_schema_skipped; try assumption.
      apply is_readonly_query_spec; eauto.
    + destruct (decide (schema = ∅)) as [Hs|Hs].
      * apply validate_schema_skipped; try assumption.
        apply is_readonly_query_spec; eauto.
      * eapply validate_resolved; eassumption.
Qed.

Lemma validate_accepts_iff_witness :
  validate sample_parse elements users_schema (py "SELECT * FROM users;")
  = Return (true, py "SQL Validated").
Proof.
  apply (validate_accepts_iff sample_parse elements users_schema
           (py "SELECT * FROM users;")).
  - intros X x. apply elem_of_elements.
  - split; [vm_compute; intros E; discriminate E|].
    exists (Statement (py "SELECT")
              (select_star_from (Identifier (Some (py "users"))))).
    split; [vm_compute; reflexivity|]. split; [reflexivity|].
    right. exists {[ py "users" ]}. split; [apply scan_select_star_from|].
    intros t ->%elem_of_singleton. exists (py "users").
    split; [apply users_schema_users | reflexivity].
Defined.

(** ** What the validator raises *)

Lemma add_identifiers_named idents X :
  forallb named_item idents = true → ∃ Y, add_identifiers idents X = Return Y.
Proof.
  revert X. induction idents as [|[[r|]|] idents IH]; intros X;
    cbn [forallb named_item add_identifiers add_identifier andb];
    try discriminate; eauto.
Qed.

Lemma add_identifiers_raises idents X e m :
  add_identifiers idents X = Raise e m →
  ((e = "TypeError"%string ∧ m = none_not_iterable)
   ∨ (e = "AttributeError"%string ∧ m = no_get_real_name))
  ∧ forallb named_item idents = false.
Proof.
  revert X. induction idents as [|[[r|]|] idents IH]; intros X;
    cbn [forallb named_item add_identifiers add_identifier andb].
  - discriminate.
  - apply IH.
  - intros [= <- <-]. auto.
  - intros [= <- <-]. auto.
Qed.

Lemma scan_named toks b X :
  forallb named toks = true → ∃ Y, scan toks b X = Return Y.
Proof.
  revert b X. induction toks as [|t toks IH]; intros b X; cbn [forallb scan].
  { eauto. }
  intros [Ht Hr]%andb_true_iff.
  destruct (is_from t); [now apply IH|].
  destruct (is_join t); [now apply IH|].
  destruct b; [|now apply IH].
  destruct t as [n|[r|]|idents|]; cbn [named add_identifier] in *;
    try discriminate; try now apply IH.
  destruct (add_identifiers_named idents X Ht) as [Y ->]. now apply IH.
Qed.

Lemma scan_raises toks b X e m :
  scan toks b X = Raise e m →
  ((e = "TypeError"%string ∧ m = none_not_iterable)
   ∨ (e = "AttributeError"%string ∧ m = no_get_real_name))
  ∧ forallb named toks = false.
Proof.
  revert b X. induction toks as [|t toks IH]; intros b X; cbn [forallb scan].
  { discriminate. }
  assert (∀ b' X', scan toks b' X' = Raise e m →
            ((e = "TypeError"%string ∧ m = none_not_iterable)
             ∨ (e = "AttributeError"%string ∧ m = no_get_real_name))
            ∧ named t && forallb named toks = false) as Hrest.
  { intros b' X' H. destruct (IH _ _ H) as [H1 H2]. split; [exact H1|].
    rewrite H2. apply andb_false_r. }
  destruct (is_from t); [apply Hrest|].
  destruct (is_join t); [apply Hrest|].
  destruct b; [|apply Hrest].
  destruct t as [n|[r|]|idents|]; cbn [named add_identifier];
    try apply Hrest.
  - intros [= <- <-]. auto.
  - destruct (add_identifiers idents X) as [Y|e' m'] eqn:E; [apply Hrest|].
    intros [= <- <-]. apply add_identifiers_raises in E as [E1 E2].
    rewrite E2. auto.
Qed.

(** X8.  The loop over the tokens of a statement raises in two ways only:
    the [TypeError] of looking for a dot in a name that is [None], and the
    [AttributeError] of asking a plain token of an identifier list for its
    name; in both, some identifier among the tokens has no name.  When every
    identifier has a name the loop runs through, and [validate] gives a
    verdict on a text of which the parser hands on one statement of such
    tokens. *)
Theorem scan_raises_two_ways (toks : list token) (from_seen : bool)
  (acc : gset str) :
  (∀ e m, scan toks from_seen acc = Raise e m →
     ((e = "TypeError"%string ∧ m = none_not_iterable)
      ∨ (e = "AttributeError"%string ∧ m = no_get_real_name))
     ∧ forallb named toks = false)
  ∧ (forallb named toks = true →
     (∃ refs, scan toks from_seen acc = Return refs)
     ∧ ∀ parse iter schema sql st,
         parse sql = [st] → tokens st = toks →
         ∃ ok msg, validate parse iter schema sql = Return (ok, msg)).
Proof.
  split; [intros e m; apply scan_raises|]. intros Hnamed.
  split; [now apply scan_named|].
  intros parse iter schema sql st Hp Htok.
  unfold validate. case_bool_decide; [eauto|].
  destruct (is_readonly_query parse sql); cbn [negb]; [|eauto].
  unfold validate_schema_references. case_bool_decide; [cbn [negb]; eauto|].
  rewrite Hp, Htok. destruct (scan_named toks false ∅ Hnamed) as [refs ->].
  destruct (check_tables _ _) as [[] msg]; cbn [negb]; eauto.
Qed.

(** A reference without a name after FROM; and the statement on users. *)
Lemma scan_raises_two_ways_witness :
  let nameless := [Keyword (py "FROM"); Other; Identifier None] in
  (scan nameless false ∅ = Raise "TypeError" none_not_iterable
   ∧ forallb named nameless = false)
  ∧ ∃ ok msg,
      validate sample_parse elements users_schema (py "SELECT * FROM users;")
      = Return (ok, msg).
Proof.
  intros nameless. split.
  - assert (scan nameless false ∅ = Raise "TypeError" none_not_iterable) as H
      by reflexivity.
    split; [exact H|].
    exact (proj2 (proj1 (scan_raises_two_ways nameless false ∅) _ _ H)).
  - refine (proj2 (proj2 (scan_raises_two_ways
                            (select_star_from (Identifier (Some (py "users"))))
                            false ∅) _)
              sample_parse elements users_schema (py "SELECT * FROM users;")
              (Statement (py "SELECT")
                 (select_star_from (Identifier (Some (py "users")))))
              _ _).
    + vm_compute. reflexivity.
    + vm_compute. reflexivity.
    + reflexivity.
Defined.

(** ** The names the scan records *)

Lemma tolower_dot c : Ascii.eqb "." (tolower c) = Ascii.eqb "." c.
Proof. each_char c. Qed.

Lemma tolower_idem c : tolower (tolower c) = tolower c.
Proof. each_char c. Qed.

Lemma lower_idem s : lower (lower s) = lower s.
Proof. unfold lower. rewrite map_map. apply map_ext, tolower_idem. Qed.

Lemma existsb_dot_lower s :
  existsb (Ascii.eqb ".") (lower s) = existsb (Ascii.eqb ".") s.
Proof.
  induction s as [|c s IH]; [reflexivity|].
  cbn [lower map existsb]. fold (lower s). now rewrite tolower_dot, IH.
Qed.

Lemma split_last_lower s : split_last "." (lower s) = lower (split_last "." s).
Proof.
  induction s as [|c s IH]; [reflexivity|].
  cbn [lower map split_last]. fold (lower s).
  rewrite existsb_dot_lower, IH.
  destruct (existsb (Ascii.eqb ".") s); [reflexivity|].
  rewrite (Ascii.eqb_sym (tolower c)), tolower_dot, (Ascii.eqb_sym c).
  now destruct (Ascii.eqb "." c).
Qed.

Lemma split_last_no_sep s :
  existsb (Ascii.eqb ".") (split_last "." s) = false.
Proof.
  induction s as [|c s IH]; [reflexivity|]. cbn [split_last].
  destruct (existsb (Ascii.eqb ".") s) eqn:E; [exact IH|].
  destruct (Ascii.eqb c ".") eqn:Ec; [exact E|].
  cbn [existsb]. now rewrite (Ascii.eqb_sym "." c), Ec, E.
Qed.

Lemma table_name_lower r : table_name r = table_name (lower r).
Proof.
  unfold table_name. change (py ".") with ["."%char].
  rewrite !contains_char, existsb_dot_lower.
  destruct (existsb (Ascii.eqb ".") r).
  - now rewrite split_last_lower, lower_idem.
  - now rewrite lower_idem.
Qed.

Lemma table_name_shape r :
  lower (table_name r) = table_name r
  ∧ contains (table_name r) (py ".") = false.
Proof.
  unfold table_name. change (py ".") with ["."%char].
  rewrite !contains_char. split; [apply lower_idem|].
  rewrite existsb_dot_lower.
  destruct (existsb (Ascii.eqb ".") r) eqn:E; [apply split_last_no_sep | exact E].
Qed.

(** X9.  The name under which an ASCII reference is recorded depends on
    the reference up to case only, qualified or not. *)
Theorem table_name_caseless (r1 r2 : str) :
  isascii r1 = true → isascii r2 = true →
  lower r1 = lower r2 → table_name r1 = table_name r2.
Proof.
  intros _ _ H. now rewrite (table_name_lower r1), (table_name_lower r2), H.
Qed.

Lemma table_name_caseless_witness :
  table_name (py "Public.USERS") = table_name (py "public.Users").
Proof. apply table_name_caseless; vm_compute; reflexivity. Defined.

Lemma add_identifiers_records idents X Y :
  add_identifiers idents X = Return Y →
  X ⊆ Y
  ∧ ∀ t, t ∈ Y → t ∈ X ∨ (lower t = t ∧ contains t (py ".") = false).
Proof.
  revert X. induction idents as [|[[r|]|] idents IH]; intros X;
    cbn [add_identifiers add_identifier]; try discriminate.
  - intros [= <-]. split; [reflexivity | auto].
  - intros H. apply IH in H as [H1 H2]. split.
    + etransitivity; [|exact H1]. apply union_subseteq_r.
    + intros t Ht. destruct (H2 t Ht) as [[Hr|Hx]%elem_of_union|Hs]; auto.
      apply elem_of_singleton in Hr as ->. right. apply table_name_shape.
Qed.

(** X10.  The scan only adds to the set of names it is given, and every name
    it adds is in lower case and holds no dot: of a qualified reference the
    last part alone is recorded. *)
Theorem scan_records_table_names (toks : list token) (from_seen : bool)
  (X Y : gset str) :
  scan toks from_seen X = Return Y →
  X ⊆ Y
  ∧ ∀ t, t ∈ Y → t ∈ X ∨ (lower t = t ∧ contains t (py ".") = false).
Proof.
  revert from_seen X. induction toks as [|t toks IH]; intros b X; cbn [scan].
  { intros [= <-]. split; [reflexivity | auto]. }
  destruct (is_from t); [apply IH|].
  destruct (is_join t); [apply IH|].
  destruct b; [|apply IH].
  destruct t as [n|[r|]|idents|]; cbn [add_identifier];
    try apply IH; try discriminate.
  - intros H. apply IH in H as [H1 H2]. split.
    + etransitivity; [|exact H1]. apply union_subseteq_r.
    + intros t Ht. destruct (H2 t Ht) as [[Hr|Hx]%elem_of_union|Hs]; auto.
      apply elem_of_singleton in Hr as ->. right. apply table_name_shape.
  - destruct (add_identifiers idents X) as [X'|] eqn:E; [|discriminate].
    apply add_identifiers_records in E as [E1 E2].
    intros H. apply IH in H as [H1 H2]. split.
    + etransitivity; eassumption.
    + intros t Ht. destruct (H2 t Ht) as [Hx|Hs]; auto.
Qed.

Lemma scan_records_table_names_witness :
  let toks := select_star_from (Identifier (Some (py "Public.Users"))) in
  scan toks false ∅ = Return {[ py "users" ]}
  ∧ ∀ t, t ∈ ({[ py "users" ]} : gset str) →
         t ∈ (∅ : gset str) ∨ (lower t = t ∧ contains t (py ".") = false).
Proof.
  intros toks.
  assert (scan toks false ∅ = Return {[ py "users" ]}) as H
    by apply (scan_select_star_from (py "Public.Users")).
  split; [exact H|].
  exact (proj2 (scan_records_table_names toks false ∅ _ H)).
Defined.

(** ** The helper [_extract_identifiers] *)

(** Induction on a token tree, the members of a group being covered. *)
Lemma node_tree_ind (P : node → Prop) :
  (∀ r, P (NIdentifier r)) →
  (∀ idents, P (NIdentifierList idents)) →
  (∀ tokens, Forall P tokens → P (NGroup tokens)) →
  P NToken →
  ∀ n, P n.
Proof.
  intros H1 H2 H3 H4. fix IH 1.
  intros [r|idents|tokens|]; [apply H1 | apply H2 | | apply H4].
  apply H3. induction tokens as [|t tokens IHt]; constructor.
  - apply IH.
  - exact IHt.
Qed.

Lemma grown_refl s : grown s s.
Proof. split; [reflexivity|]. split; [reflexivity | auto]. Qed.

Lemma grown_trans a b c : grown a b → grown b c → grown a c.
Proof.
  intros (H1 & H2 & H3) (K1 & K2 & K3). split; [congruence|]. split.
  - etransitivity; eassumption.
  - intros t Ht. destruct (K3 t Ht) as [Hb|]; auto.
Qed.

Lemma add_names_grown idents tables columns tables' :
  add_names idents tables = Return tables' →
  grown (tables, columns) (tables', columns).
Proof.
  revert tables. induction idents as [|[[r|]|] idents IH]; intros tables;
    cbn [add_names add_name]; try discriminate.
  - intros [= <-]. apply grown_refl.
  - intros H. apply IH in H. eapply grown_trans; [|exact H].
    split; [reflexivity|]. split; cbn [fst].
    + apply union_subseteq_r.
    + intros t [->%elem_of_singleton|?]%elem_of_union; auto.
      right. apply lower_idem.
Qed.

Lemma add_names_raises idents tables e m :
  add_names idents tables = Raise e m → e = "AttributeError"%string.
Proof.
  revert tables. induction idents as [|[[r|]|] idents IH]; intros tables;
    cbn [add_names add_name]; try discriminate.
  - apply IH.
  - now intros [= <- _].
  - now intros [= <- _].
Qed.

Lemma visit_all_from tokens :
  Forall (λ token, ∀ sets,
            match visit token sets with
            | Return sets' => grown sets sets'
            | Raise e _ => e = "AttributeError"%string
            end) tokens →
  ∀ sets,
    match visit_all tokens sets with
    | Return sets' => grown sets sets'
    | Raise e _ => e = "AttributeError"%string
    end.
Proof.
  induction 1 as [|token tokens Ht _ IH]; intros sets; cbn [visit_all].
  - apply grown_refl.
  - specialize (Ht sets). destruct (visit token sets) as [sets1|]; [|exact Ht].
    specialize (IH sets1). destruct (visit_all tokens sets1); [|exact IH].
    eapply grown_trans; eassumption.
Qed.

Lemma visit_group tokens sets :
  visit (NGroup tokens) sets
  = match visit_all tokens (∅, ∅) with
    | Return (t_sub, c_sub) => Return (sets.1 ∪ t_sub, sets.2 ∪ c_sub)
    | Raise e m => Raise e m
    end.
Proof.
  destruct sets as [tables columns]. cbn [visit fst snd].
  set (loop := fix loop (tokens : list node) (sub : gset str * gset str) :=
         match tokens with
         | [] => Return sub
         | token :: tokens' =>
             match visit token sub with
             | Return sub => loop tokens' sub
             | Raise e m => Raise e m
             end
         end).
  assert (∀ l sub, loop l sub = visit_all l sub) as ->; [|reflexivity].
  induction l as [|token l IH]; intros sub; cbn [visit_all]; [reflexivity|].
  cbn [loop]. destruct (visit token sub); [apply IH | reflexivity].
Qed.

Lemma visit_grown token :
  ∀ sets,
    match visit token sets with
    | Return sets' => grown sets sets'
    | Raise e _ => e = "AttributeError"%string
    end.
Proof.
  induction token as [r|idents|tokens IH|] using node_tree_ind;
    intros [tables columns].
  - cbn [visit]. destruct r as [r|]; cbn [add_name]; [|reflexivity].
    split; [reflexivity|]. split; cbn [fst].
    + apply union_subseteq_r.
    + intros t [->%elem_of_singleton|?]%elem_of_union; auto.
      right. apply lower_idem.
  - cbn [visit]. destruct (add_names idents tables) eqn:E.
    + eapply add_names_grown, E.
    + eapply add_names_raises, E.
  - rewrite visit_group. pose proof (visit_all_from tokens IH (∅, ∅)) as H.
    destruct (visit_all tokens (∅, ∅)) as [[t_sub c_sub]|]; [|exact H].
    destruct H as (H1 & H2 & H3). cbn [fst snd] in *. subst c_sub.
    split; cbn [fst snd]; [apply union_empty_r_L|]. split.
    + apply union_subseteq_l.
    + intros t [?|Ht]%elem_of_union; auto.
      destruct (H3 t Ht) as [Hin|]; auto. now apply elem_of_empty in Hin.
  - cbn [visit]. apply grown_refl.
Qed.

(** X11.  The helper [_extract_identifiers] never puts anything into its
    set of columns, at any depth of the tree: what it returns is a set of
    names, all in lower case, and the empty set.  When it raises, it is the
    [AttributeError] of an identifier without a name or of a plain token in an
    identifier list. *)
Theorem extract_identifiers_result (tokens : list node) :
  match _extract_identifiers tokens with
  | Return (tables, columns) =>
      columns = ∅ ∧ ∀ t, t ∈ tables → lower t = t
  | Raise e _ => e = "AttributeError"%string
  end.
Proof.
  unfold _extract_identifiers.
  pose proof (visit_all_from tokens) as H.
  specialize (H (proj2 (Forall_forall _ _) (λ token _, visit_grown token)) (∅, ∅)).
  destruct (visit_all tokens (∅, ∅)) as [[tables columns]|]; [|exact H].
  destruct H as (H1 & _ & H3). cbn [fst snd] in *. split; [exact H1|].
  intros t Ht. destruct (H3 t Ht) as [Hin|]; auto. now apply elem_of_empty in Hin.
Qed.

(** ** db_handler.py: the engine and its cache *)

Section EngineFacts.

Variables engine connection : Type.
Variables create_engine create_engine' : str → outcome engine.
Variables connect connect' : engine → outcome connection.
Variables cfg cfg' : config.

Lemma get_engine_cached (g : globals engine) e :
  _engine_cache g = Some e →
  get_engine create_engine connect cfg g = (Return e, g).
Proof. unfold get_engine. now intros ->. Qed.

Lemma get_engine_returns (g g' : globals engine) e :
  get_engine create_engine connect cfg g = (Return e, g') →
  _engine_cache g' = Some e ∧ _schema_cache g' = _schema_cache g.
Proof.
  unfold get_engine. destruct (_engine_cache g) as [e0|] eqn:E.
  - intros [= <- <-]. auto.
  - destruct (create_engine _) as [e1|]; [|discriminate].
    destruct (connect e1); [|discriminate]. intros [= <- <-]. auto.
Qed.

Lemma get_engine_fails (g g' : globals engine) x m :
  get_engine create_engine connect cfg g = (Raise x m, g') →
  _engine_cache g = None ∧ _engine_cache g' = None
  ∧ _schema_cache g' = _schema_cache g.
Proof.
  unfold get_engine. destruct (_engine_cache g) as [e0|] eqn:E; [discriminate|].
  destruct (create_engine _) as [e1|].
  - destruct (connect e1); [discriminate|]. intros [= <- <- <-]. auto.
  - intros [= <- <- <-]. auto.
Qed.

(** X12.  An engine that [get_engine] has returned is the one every later call
    returns, whatever has become of the settings and of the database: it is
    made and tried once.  A failure leaves no engine behind, so that the next
    call tries again; the schema cache is not touched either way. *)
Theorem get_engine_once (g g' : globals engine) (r : outcome engine) :
  get_engine create_engine connect cfg g = (r, g') →
  _schema_cache g' = _schema_cache g
  ∧ match r with
    | Return e =>
        _engine_cache g' = Some e
        ∧ get_engine create_engine' connect' cfg' g' = (Return e, g')
    | Raise _ _ => _engine_cache g = None ∧ _engine_cache g' = None
    end.
Proof.
  destruct r as [e|x m]; intros H.
  - apply get_engine_returns in H as [H1 H2]. split; [exact H2|].
    split; [exact H1|]. unfold get_engine. now rewrite H1.
  - apply get_engine_fails in H as (H1 & H2 & H3). auto.
Qed.

End EngineFacts.

(** The engine made for the shop is returned again when the settings have
    changed and the database no longer answers. *)
Lemma get_engine_once_witness :
  let down (e : str) : outcome unit := Raise "OperationalError" (py "down") in
  let moved :=
    Config (py "elsewhere") (py "5432") (py "u") (py "p") (py "shop") in
  let e := py "postgresql+psycopg2://u:p@localhost:5432/shop" in
  get_engine shop_engine shop_connect shop (Globals None None)
  = (Return e, Globals None (Some e))
  ∧ get_engine shop_engine down moved (Globals None (Some e))
    = (Return e, Globals None (Some e)).
Proof.
  intros down moved e.
  assert (get_engine shop_engine shop_connect shop (Globals None None)
          = (Return e, Globals None (Some e))) as H by reflexivity.
  split; [exact H|].
  exact (proj2 (proj2 (get_engine_once _ _ shop_engine shop_engine
                         shop_connect down shop moved _ _ _ H))).
Defined.

(** ** The schema and its cache *)

Lemma join_nil_inv sep parts :
  Forall (λ part, part ≠ []) parts → join sep parts = [] → parts = [].
Proof.
  destruct parts as [|part parts]; [reflexivity|].
  intros H. apply Forall_cons in H as [Hp _]. cbn [join].
  destruct parts; [contradiction|]. destruct part; [contradiction | discriminate].
Qed.

Lemma join_occurs sep parts part :
  part ∈ parts → occurs part (join sep parts).
Proof.
  induction parts as [|p parts IH]; [intros H; inversion H|].
  intros [->|H]%elem_of_cons.
  - destruct parts as [|q parts].
    + exists [], []. cbn [join app]. now rewrite app_nil_r.
    + exists [], (sep ++ join sep (q :: parts)). reflexivity.
  - destruct (IH H) as (a & b & E). destruct parts as [|q parts].
    + inversion H.
    + change (join sep (p :: q :: parts))
        with (p ++ sep ++ join sep (q :: parts)).
      rewrite E. exists (p ++ sep ++ a), b. now rewrite <- !app_assoc.
Qed.

Lemma schema_line_nonempty t columns : schema_line t columns ≠ [].
Proof. discriminate. Qed.

Section SchemaFacts.

Variables engine connection inspector : Type.
Variable create_engine : str → outcome engine.
Variable connect : engine → outcome connection.
Variable inspect : engine → outcome inspector.
Variable get_table_names : inspector → outcome (list str).
Variable get_columns : inspector → str → outcome (list column).
Variable truth : engine → bool.
Variable cfg : config.

Lemma load_tables_spec insp names d0 parts0 d parts :
  load_tables get_columns insp names d0 parts0 = Return (d, parts) →
  dom d = dom d0 ∪ list_to_set names
  ∧ ∃ lines,
      parts = parts0 ++ lines
      ∧ length lines = length names
      ∧ Forall (λ line, line ≠ []) lines
      ∧ ∀ t columns, d !! t = Some columns →
          d0 !! t = Some columns ∧ t ∉ names
          ∨ t ∈ names ∧ schema_line t columns ∈ lines
            ∧ ∃ cols, get_columns insp t = Return cols
                      ∧ columns = map name cols.
Proof.
  revert d0 parts0. induction names as [|t0 names IH]; intros d0 parts0;
    cbn [load_tables].
  - intros [= <- <-]. split; [cbn [list_to_set]; now rewrite union_empty_r_L|].
    exists []. rewrite app_nil_r.
    repeat split; auto. intros t columns H. left. split; [exact H|].
    apply not_elem_of_nil.
  - destruct (get_columns insp t0) as [cols|] eqn:E; [|discriminate].
    intros H. apply IH in H as (Hdom & lines & -> & Hlen & Hne & Hd).
    split.
    { rewrite Hdom, dom_insert_L. cbn [list_to_set].
      rewrite (union_comm_L {[t0]} (dom d0)). now rewrite (assoc_L (∪)). }
    exists (schema_line t0 (map name cols) :: lines).
    split; [now rewrite <- app_assoc|].
    split; [cbn [length]; now rewrite Hlen|].
    split; [constructor; [apply schema_line_nonempty | exact Hne]|].
    intros t columns Ht. destruct (Hd t columns Ht) as [[H0 Hn]|(Hin & Hl & Hc)].
    + destruct (decide (t = t0)) as [->|Hneq].
      * rewrite lookup_insert_eq in H0. injection H0 as <-. right.
        split; [left|]. split; [left|]. eauto.
      * rewrite lookup_insert_ne in H0 by congruence. left.
        split; [exact H0|]. intros [?|?]%elem_of_cons; contradiction.
    + right. split; [now right|]. split; [now right | exact Hc].
Qed.

Lemma load_schema_spec insp d s :
  load_schema get_table_names get_columns insp = Return (d, s) →
  (d = ∅ ↔ s = [])
  ∧ ∃ names,
      get_table_names insp = Return names
      ∧ dom d = list_to_set names
      ∧ ∀ t columns, d !! t = Some columns →
          occurs (schema_line t columns) s
          ∧ ∃ cols, get_columns insp t = Return cols
                    ∧ columns = map name cols.
Proof.
  unfold load_schema.
  destruct (get_table_names insp) as [names|] eqn:En; [|discriminate].
  destruct (load_tables get_columns insp names ∅ []) as [[d1 parts]|] eqn:E;
    [|discriminate].
  intros [= <- <-].
  apply load_tables_spec in E as (Hdom & lines & -> & Hlen & Hne & Hd).
  cbn [app] in *. rewrite dom_empty_L, union_empty_l_L in Hdom.
  split.
  - split.
    + intros ->. rewrite dom_empty_L in Hdom.
      destruct names as [|t names].
      * destruct lines; [reflexivity | discriminate].
      * exfalso. apply (not_elem_of_empty (C:=gset str) t). rewrite Hdom.
        apply elem_of_list_to_set. left.
    + intros Hs. apply join_nil_inv in Hs; [|exact Hne]. subst lines.
      destruct names; [|discriminate]. apply dom_empty_iff_L.
      now rewrite Hdom.
  - exists names. split; [reflexivity|]. split; [exact Hdom|].
    intros t columns Ht. destruct (Hd t columns Ht) as [[H0 _]|(_ & Hl & Hc)].
    + rewrite lookup_empty in H0. discriminate.
    + split; [now apply join_occurs | exact Hc].
Qed.

(** X13.  The dictionary and the text that [get_db_schema_info] makes go
    together: the one is empty when the other is, and every table of the
    dictionary has its line in the text, with the columns the dictionary
    gives it.  So the test of the callers on the dictionary and the test of
    [translate] on the text tell the same. *)
Theorem get_db_schema_info_agrees (g g' : globals engine)
  (d : gmap str (list str)) (s : str) :
  _schema_cache g = None →
  get_db_schema_info create_engine connect inspect get_table_names get_columns
    truth cfg g = (Return (d, s), g') →
  (d = ∅ ↔ s = [])
  ∧ ∀ t columns, d !! t = Some columns → occurs (schema_line t columns) s.
Proof.
  unfold get_db_schema_info. intros ->.
  destruct (get_engine create_engine connect cfg g) as [[e|] g1];
    [|discriminate].
  destruct (truth e); cbn [negb].
  2: { intros [= <- <- <-]. split; [tauto|]. intros t c H.
       rewrite lookup_empty in H. discriminate. }
  destruct (inspect e) as [insp|]; [|discriminate].
  destruct (load_schema get_table_names get_columns insp) as [[d1 s1]|] eqn:E.
  - intros [= <- <- <-]. apply load_schema_spec in E as (H1 & names & _ & _ & H2).
    split; [exact H1|]. intros t c H. now apply H2.
  - intros [= <- <- <-]. split; [tauto|]. intros t c H.
    rewrite lookup_empty in H. discriminate.
Qed.

End SchemaFacts.

Section CacheFacts.

Variables engine connection inspector : Type.
Variables create_engine create_engine' : str → outcome engine.
Variables connect connect' : engine → outcome connection.
Variables inspect inspect' : engine → outcome inspector.
Variables get_table_names get_table_names' : inspector → outcome (list str).
Variables get_columns get_columns' : inspector → str → outcome (list column).
Variables truth truth' : engine → bool.
Variables cfg cfg' : config.

(** X14.  What [get_db_schema_info] has loaded it keeps, and only that.
    An answer in the cache is the answer of every later call, whatever the
    database has become.  A call that finds the cache empty puts its answer
    there exactly when the engine is true and the tables and their columns
    were read; when the engine is false or the reading raised, the answer is
    the empty one and the cache stays empty, so that the next call reads
    again. *)
Theorem get_db_schema_info_cached (g g' : globals engine)
  (r : gmap str (list str) * str) :
  get_db_schema_info create_engine connect inspect get_table_names get_columns
    truth cfg g = (Return r, g') →
  (_schema_cache g' = Some r →
   get_db_schema_info create_engine' connect' inspect' get_table_names'
     get_columns' truth' cfg' g' = (Return r, g'))
  ∧ (∀ cached, _schema_cache g = Some cached → r = cached ∧ g' = g)
  ∧ (_schema_cache g = None →
     ∃ e g1,
       get_engine create_engine connect cfg g = (Return e, g1)
       ∧ if truth e
         then ∃ insp,
                inspect e = Return insp
                ∧ match load_schema get_table_names get_columns insp with
                  | Return loaded =>
                      r = loaded ∧ _schema_cache g' = Some loaded
                      ∧ _engine_cache g' = _engine_cache g1
                  | Raise _ _ =>
                      r = (∅, []) ∧ _schema_cache g' = None ∧ g' = g1
                  end
         else r = (∅, []) ∧ _schema_cache g' = None ∧ g' = g1).
Proof.
  intros H. split; [|split].
  - intros Hs. unfold get_db_schema_info. now rewrite Hs.
  - intros cached Hc. unfold get_db_schema_info in H. rewrite Hc in H.
    now injection H as <- <-.
  - intros Hc. unfold get_db_schema_info in H. rewrite Hc in H.
    destruct (get_engine create_engine connect cfg g) as [[e|] g1] eqn:Eg;
      [|discriminate].
    exists e, g1. split; [reflexivity|].
    apply get_engine_returns in Eg as [_ Es]. rewrite Hc in Es.
    destruct (truth e); cbn [negb] in H.
    + destruct (inspect e) as [insp|]; [|discriminate].
      exists insp. split; [reflexivity|].
      destruct (load_schema get_table_names get_columns insp) as [loaded|];
        injection H as <- <-; auto.
    + injection H as <- <-. auto.
Qed.

End CacheFacts.

Lemma get_db_schema_info_agrees_witness :
  let d : gmap str (list str) := <[ py "users" := [py "id"; py "email"] ]> ∅ in
  let s := py "Table users has columns: id, email." in
  get_db_schema_info shop_engine shop_connect shop_inspect shop_tables
    shop_columns (λ _, true) shop (Globals None None)
  = (Return (d, s),
     Globals (Some (d, s))
       (Some (py "postgresql+psycopg2://u:p@localhost:5432/shop")))
  ∧ (d = ∅ ↔ s = [])
  ∧ ∀ t columns, d !! t = Some columns → occurs (schema_line t columns) s.
Proof.
  intros d s.
  assert (get_db_schema_info shop_engine shop_connect shop_inspect shop_tables
            shop_columns (λ _, true) shop (Globals None None)
          = (Return (d, s),
             Globals (Some (d, s))
               (Some (py "postgresql+psycopg2://u:p@localhost:5432/shop"))))
    as H by reflexivity.
  split; [exact H|].
  refine (get_db_schema_info_agrees _ _ _ shop_engine shop_connect shop_inspect
            shop_tables shop_columns (λ _, true) shop (Globals None None)
            _ d s _ H).
  reflexivity.
Defined.

(** The columns cannot be read at first: nothing is kept, and the next call
    reads them.  Then the table is dropped; the cache still has it. *)
Lemma get_db_schema_info_cached_witness :
  let down (i : unit) (t : str) : outcome (list column) :=
    Raise "OperationalError" (py "down") in
  let dropped (i : unit) : outcome (list str) := Return [] in
  let e := py "postgresql+psycopg2://u:p@localhost:5432/shop" in
  let d : gmap str (list str) := <[ py "users" := [py "id"; py "email"] ]> ∅ in
  let s := py "Table users has columns: id, email." in
  get_db_schema_info shop_engine shop_connect shop_inspect shop_tables
    down (λ _, true) shop (Globals None None)
  = (Return (∅, []), Globals None (Some e))
  ∧ get_db_schema_info shop_engine shop_connect shop_inspect shop_tables
      shop_columns (λ _, true) shop (Globals None (Some e))
    = (Return (d, s), Globals (Some (d, s)) (Some e))
  ∧ get_db_schema_info shop_engine shop_connect shop_inspect dropped
      shop_columns (λ _, true) shop (Globals (Some (d, s)) (Some e))
    = (Return (d, s), Globals (Some (d, s)) (Some e)).
Proof.
  intros down dropped e d s.
  assert (get_db_schema_info shop_engine shop_connect shop_inspect shop_tables
            shop_columns (λ _, true) shop (Globals None (Some e))
          = (Return (d, s), Globals (Some (d, s)) (Some e))) as H
    by reflexivity.
  split; [reflexivity|]. split; [exact H|].
  apply (proj1 (get_db_schema_info_cached _ _ _ shop_engine shop_engine
                  shop_connect shop_connect shop_inspect shop_inspect
                  shop_tables dropped shop_columns shop_columns
                  (λ _, true) (λ _, true) shop shop _ _ _ H)).
  reflexivity.
Defined.

(** ** What reaches the database *)

Section ExecuteFacts.

Variables engine connection row : Type.
Variable create_engine : str → outcome engine.
Variable connect : engine → outcome connection.
Variables execute execute' : connection → str → outcome (list str * list row).
Variable truth : engine → bool.
Variable cfg : config.

(** X15.  A text that does not open with SELECT, white space and case apart,
    is not handed to the database: [execute_query] ends in an exception that
    is the same whatever [execute] would do, the [ValueError] of the guard
    once the connection is there. *)
Theorem execute_query_refuses (g : globals engine) (sql_query : str) :
  is_select sql_query = false →
  execute_query create_engine connect execute truth cfg g sql_query
  = execute_query create_engine connect execute' truth cfg g sql_query
  ∧ ∃ x m,
      (execute_query create_engine connect execute truth cfg g sql_query).1
      = Raise x m
      ∧ ((∃ e g' conn,
            get_engine create_engine connect cfg g = (Return e, g')
            ∧ truth e = true ∧ connect e = Return conn) →
         x = "ValueError"%string
         ∧ m = py "Only SELECT queries are allowed for execution by this agent.").
Proof.
  intros Hsel. unfold execute_query.
  destruct (get_engine create_engine connect cfg g) as [[e|x m] g1].
  - destruct (truth e) eqn:Et; cbn [negb].
    + destruct (connect e) as [conn|x m] eqn:Ec.
      * rewrite Hsel. split; [reflexivity|]. cbn [fst]. eauto 10.
      * split; [reflexivity|]. exists x, m. split; [reflexivity|].
        intros (e' & g' & conn & [= <- <-] & _ & H). congruence.
    + split; [reflexivity|]. do 2 eexists. split; [reflexivity|].
      intros (e' & g' & conn & [= <- <-] & H & _). congruence.
  - split; [reflexivity|]. exists x, m. split; [reflexivity|].
    intros (e' & g' & conn & [= ] & _).
Qed.

(** X16.  What the cleanup of a completion returns passes the guard of
    [execute_query]: with an engine and a connection at hand the text goes to
    the database as it is, and the answer is the database's. *)
Theorem execute_query_runs_cleaned (g g' : globals engine) (raw y : str) e conn :
  cleanup raw = Return y →
  get_engine create_engine connect cfg g = (Return e, g') →
  truth e = true → connect e = Return conn →
  execute_query create_engine connect execute truth cfg g y
  = (execute conn y, g').
Proof.
  intros Hc Hg Ht Hconn. unfold execute_query. rewrite Hg, Ht. cbn [negb].
  rewrite Hconn.
  apply cleanup_returns_well_formed, well_formed_spec in Hc as (_ & H2 & _).
  unfold is_select. now rewrite H2.
Qed.

End ExecuteFacts.

(** A second statement behind a DROP does not make the text a SELECT. *)
Lemma execute_query_refuses_witness :
  let sql := py "  drop table users; select 1" in
  is_select sql = false
  ∧ ∃ x m,
      (execute_query shop_engine shop_connect shop_execute (λ _, true) shop
         (Globals None None) sql).1
      = Raise x m.
Proof.
  intros sql.
  assert (is_select sql = false) as H by (vm_compute; reflexivity).
  split; [exact H|].
  destruct (execute_query_refuses _ _ _ shop_engine shop_connect shop_execute
              shop_execute (λ _, true) shop (Globals None None) sql H)
    as (_ & x & m & E & _).
  exists x, m. exact E.
Defined.

Lemma execute_query_runs_cleaned_witness :
  let e := py "postgresql+psycopg2://u:p@localhost:5432/shop" in
  cleanup (py "```sql select 1 ```") = Return (py "select 1;")
  ∧ execute_query shop_engine shop_connect shop_execute (λ _, true) shop
      (Globals None None) (py "select 1;")
    = (Return ([py "ok"], [py "select 1;"]), Globals None (Some e)).
Proof.
  intros e.
  assert (cleanup (py "```sql select 1 ```") = Return (py "select 1;")) as H
    by (vm_compute; reflexivity).
  split; [exact H|].
  exact (execute_query_runs_cleaned _ _ _ shop_engine shop_connect
           shop_execute (λ _, true) shop (Globals None None)
           (Globals None (Some e)) _ _ e tt H eq_refl eq_refl eq_refl).
Defined.

(** ** cli.py: the run of [main] *)

Lemma elem_of_calls run sql : sql ∈ calls run ↔ Executed sql ∈ run.
Proof.
  induction run as [|ev run IH]; cbn [calls].
  - now rewrite !elem_of_nil.
  - destruct ev as [line|sql'|code]; rewrite ?elem_of_cons, IH.
    + split; [auto | now intros [?|?]].
    + split; [intros [->|?]; auto | intros [[= ->]|?]; auto].
    + split; [auto | now intros [?|?]].
Qed.

Section MainFacts.

Variable row : Type.
Variable schema_info : outcome (gmap str (list str) * str).
Variable new_converter : outcome unit.
Variable translate : str → str → outcome str.
Variable parse : str → list statement.
Variable iter : gset str → list str.
Variable execute_query : str → outcome (list str * list row).
Variable frame : Type.
Variable DataFrame : list row → list str → outcome frame.
Variable to_string : frame → outcome str.
Variable subclass : string → string → bool.

Local Abbreviation run_execute :=
  (execute_step execute_query DataFrame to_string).
Local Abbreviation run_validate :=
  (validate_step parse iter execute_query DataFrame to_string).
Local Abbreviation run_translate :=
  (translate_step translate parse iter execute_query DataFrame to_string
     subclass).
Local Abbreviation run :=
  (main schema_info new_converter translate parse iter execute_query
     DataFrame to_string subclass).

Lemma execute_step_calls sql : calls (run_execute sql) = [sql].
Proof.
  unfold execute_step.
  destruct (execute_query sql) as [[cols [|r data]]|]; try reflexivity.
  destruct (DataFrame _ _) as [df|]; [|reflexivity].
  destruct (to_string df); reflexivity.
Qed.

Lemma validate_step_calls d sql :
  calls (run_validate d sql)
  = match validate parse iter d sql with
    | Return (true, _) => [sql]
    | _ => []
    end.
Proof.
  unfold validate_step.
  destruct (validate parse iter d sql) as [[[] msg]|]; try reflexivity.
  cbn [negb calls]. apply execute_step_calls.
Qed.

Lemma translate_step_calls nl d s :
  calls (run_translate nl d s)
  = match translate nl s with
    | Return sql =>
        match validate parse iter d sql with
        | Return (true, _) => [sql]
        | _ => []
        end
    | Raise _ _ => []
    end.
Proof.
  unfold translate_step. destruct (translate nl s) as [sql|exn e].
  - cbn [calls]. apply validate_step_calls.
  - destruct (is_a _ _ _); [reflexivity|]. destruct (is_a _ _ _); reflexivity.
Qed.

Lemma main_calls_eq args :
  calls (run args)
  = match args, schema_info, new_converter with
    | Namespace nl, Return (d, s), Return _ =>
        if bool_decide (d = ∅) then []
        else match translate nl s with
             | Return sql =>
                 match validate parse iter d sql with
                 | Return (true, _) => [sql]
                 | _ => []
                 end
             | Raise _ _ => []
             end
    | _, _, _ => []
    end.
Proof.
  unfold main. destruct args as [nl| |]; [|reflexivity..].
  destruct schema_info as [[d s]|]; [|destruct new_converter; reflexivity].
  case_bool_decide; [destruct new_converter; reflexivity|].
  destruct new_converter; [apply translate_step_calls | reflexivity].
Qed.

Lemma main_calls args sql :
  sql ∈ calls (run args) →
  calls (run args) = [sql]
  ∧ ∃ nl d s msg,
      args = Namespace nl
      ∧ schema_info = Return (d, s) ∧ d ≠ ∅
      ∧ translate nl s = Return sql
      ∧ validate parse iter d sql = Return (true, msg).
Proof.
  rewrite main_calls_eq.
  destruct args as [nl| |]; [|now intros ?%elem_of_nil..].
  destruct schema_info as [[d s]|]; [|now intros ?%elem_of_nil].
  destruct new_converter; [|now intros ?%elem_of_nil].
  case_bool_decide as Hd; [now intros ?%elem_of_nil|].
  destruct (translate nl s) as [sql'|] eqn:Et; [|now intros ?%elem_of_nil].
  destruct (validate parse iter d sql') as [[[] msg]|] eqn:Ev;
    try now intros ?%elem_of_nil.
  intros ->%list_elem_of_singleton. split; [reflexivity|]. eauto 10.
Qed.

(** X17.  [main] calls [execute_query] at most once, and only with a text
    that [translate] returned for the question of the command line and the
    loaded schema text and that [validate] accepted against the loaded,
    non-empty dictionary. *)
Theorem main_executes_validated (args : arguments) (sql : str) :
  Executed sql ∈ run args →
  calls (run args) = [sql]
  ∧ ∃ nl_query d s,
      args = Namespace nl_query
      ∧ schema_info = Return (d, s) ∧ d ≠ ∅
      ∧ translate nl_query s = Return sql
      ∧ validate parse iter d sql = Return (true, py "SQL Validated").
Proof.
  intros Hin%elem_of_calls.
  destruct (main_calls _ _ Hin) as (Hc & nl & d & s & msg & H0 & H1 & H2 & H3 & H4).
  split; [exact Hc|]. exists nl, d, s. repeat split; try assumption.
  now rewrite H4, (validate_accepted_message _ _ _ _ _ H4).
Qed.

Lemma execute_step_exits sql :
  (last (run_execute sql) = Some (Exited 1) ∧ exits (run_execute sql) = [1])
  ∨ (exits (run_execute sql) = []
     ∧ ∃ cols data,
         execute_query sql = Return (cols, data)
         ∧ (data = []
            ∨ ∃ df table, DataFrame data cols = Return df
                          ∧ to_string df = Return table)).
Proof.
  unfold execute_step.
  destruct (execute_query sql) as [[cols [|r data]]|]; cbn [exits last].
  - right. split; [reflexivity|]. exists cols, []. auto.
  - destruct (DataFrame _ _) as [df|] eqn:Ed; [|now left].
    destruct (to_string df) as [table|] eqn:Es; [|now left].
    right. split; [reflexivity|]. exists cols, (r :: data).
    split; [reflexivity|]. right. eauto.
  - now left.
Qed.

(** X18.  A run of [main] makes at most one exit, and the exit is its last
    act.  The status is 0 or 2 when argparse ends the run before anything
    else is done, after the help or after a command line that does not fit,
    and 1 in every other case.  A run without an exit had its question, has
    called [execute_query] once, the call has returned, and the rows, if
    there are any, were laid out as a table. *)
Theorem main_exits (args : arguments) :
  (∃ code,
     last (run args) = Some (Exited code) ∧ exits (run args) = [code]
     ∧ (code = 0 ∧ args = Help ∧ run args = [Exited 0]
        ∨ code = 2 ∧ args = Usage ∧ run args = [Exited 2]
        ∨ code = 1 ∧ ∃ nl_query, args = Namespace nl_query))
  ∨ (exits (run args) = []
     ∧ ∃ nl_query sql cols data,
         args = Namespace nl_query
         ∧ calls (run args) = [sql]
         ∧ execute_query sql = Return (cols, data)
         ∧ (data = []
            ∨ ∃ df table, DataFrame data cols = Return df
                          ∧ to_string df = Return table)).
Proof.
  destruct args as [nl_query| |].
  2: { left. exists 0. cbn. auto 10. }
  2: { left. exists 2. cbn. auto 10. }
  assert (∀ l, last l = Some (Exited 1) ∧ exits l = [1] →
            ∃ code, last l = Some (Exited code) ∧ exits l = [code]
              ∧ (code = 0 ∧ Namespace nl_query = Help ∧ l = [Exited 0]
                 ∨ code = 2 ∧ Namespace nl_query = Usage ∧ l = [Exited 2]
                 ∨ code = 1 ∧ ∃ q, Namespace nl_query = Namespace q)) as Hone.
  { intros l [H1 H2]. exists 1. split; [exact H1|]. split; [exact H2|].
    right. right. eauto. }
  rewrite main_calls_eq. unfold main.
  destruct schema_info as [[d s]|]; [|left; apply Hone; now split].
  case_bool_decide; [left; apply Hone; now split|].
  destruct new_converter; [|left; apply Hone; now split].
  unfold translate_step.
  destruct (translate nl_query s) as [sql|exn e].
  2: { left. apply Hone. destruct (is_a _ _ _); [now split|].
       destruct (is_a _ _ _); now split. }
  unfold validate_step.
  destruct (validate parse iter d sql) as [[[] msg]|];
    [|left; apply Hone; now split..].
  cbn [negb].
  destruct (execute_step_exits sql) as [[H1 H2]|(H1 & cols & data & H2)].
  - left. apply Hone. split; [|cbn [exits]; exact H2].
    unfold execute_step in *. cbn [last] in *. exact H1.
  - right. split; [cbn [exits]; exact H1|]. exists nl_query, sql, cols, data.
    split; [reflexivity|]. split; [reflexivity|]. exact H2.
Qed.

End MainFacts.

(** The run of the sample session, up to the call of the database. *)
Lemma sample_run_executes translate :
  translate (py "all users") users_text = Return (py "SELECT * FROM users;") →
  Executed (py "SELECT * FROM users;")
  ∈ main (Return (users_schema, users_text)) (Return tt) translate
      sample_parse elements sample_execute
      (λ _ _, Return tt) (λ _ : unit, Return []) (λ _ _, false)
      (Namespace (py "all users")).
Proof.
  intros Ht. unfold main.
  rewrite bool_decide_eq_false_2 by apply users_schema_nonempty.
  unfold translate_step. rewrite Ht.
  unfold validate_step. rewrite validate_users_sample. cbn [negb].
  unfold execute_step. rewrite !elem_of_cons. auto 10.
Qed.

Lemma main_executes_validated_witness :
  calls (main (Return (users_schema, users_text)) (Return tt) sample_translate
           sample_parse elements sample_execute
           (λ _ _, Return tt) (λ _ : unit, Return []) (λ _ _, false)
           (Namespace (py "all users")))
  = [py "SELECT * FROM users;"].
Proof.
  exact (proj1 (main_executes_validated _ _ _ _ _ _ _ _ _ _ _ _ _
                  (sample_run_executes sample_translate eq_refl))).
Defined.

(** X19.  With the converter of nl_to_sql.py behind it, [main] hands
    [execute_query] nothing but a text that opens with SELECT, white space
    and case apart, and that the parser takes for one SELECT statement: the
    guard of [execute_query] has nothing to refuse. *)
Theorem main_executes_select {row frame : Type}
  (schema_info : outcome (gmap str (list str) * str))
  (new_converter : outcome unit) (ollama_base_url ollama_model : str)
  (post : str → str → str → reply) (parse : str → list statement)
  (iter : gset str → list str)
  (execute_query : str → outcome (list str * list row))
  (DataFrame : list row → list str → outcome frame)
  (to_string : frame → outcome str) (subclass : string → string → bool)
  (args : arguments) (sql : str) :
  Executed sql
  ∈ main schema_info new_converter
      (translate ollama_base_url ollama_model post) parse iter execute_query
      DataFrame to_string subclass args →
  is_select sql = true ∧ is_readonly_query parse sql = true.
Proof.
  intros Hin%elem_of_calls.
  destruct (main_calls _ _ _ _ _ _ _ _ _ _ _ _ _ Hin)
    as (_ & nl & d & s & msg & _ & _ & _ & Ht & Hv).
  split.
  - apply translate_returns in Ht as (_ & rd & raw & _ & _ & _ & Hc).
    apply cleanup_returns_well_formed, well_formed_spec in Hc as (_ & H2 & _).
    exact H2.
  - eapply validate_accepted_readonly, Hv.
Qed.

Lemma main_executes_select_witness :
  is_select (py "SELECT * FROM users;") = true
  ∧ is_readonly_query sample_parse (py "SELECT * FROM users;") = true.
Proof.
  exact (main_executes_select _ _ _ _ _ _ _ _ _ _ _ _ _
           (sample_run_executes _ sample_post_response)).
Defined.

(** ** app.py *)

Section StartupFacts.

Variables converter validator : Type.
Variable schema_info : outcome (gmap str (list str) * str).
Variable new_converter : outcome converter.
Variable new_validator : gmap str (list str) → outcome validator.

Lemma startup_cases :
  match App.startup schema_info new_converter new_validator with
  | App.Page =>
      ∃ d s c v, schema_info = Return (d, s) ∧ d ≠ ∅
                 ∧ new_converter = Return c ∧ new_validator d = Return v
  | App.Stopped error =>
      ∃ m, App.app_init_error
             (App.initialize_app_resources schema_info new_converter
                new_validator) = Some m
           ∧ error = py "Application Initialization Failed: " ++ m
  end.
Proof.
  unfold App.startup, App.initialize_app_resources, App.critical.
  destruct schema_info as [[d s]|x e]; [|cbn; eauto].
  case_bool_decide as Hd; [cbn; eauto|].
  destruct new_converter as [c|x e]; [|cbn; eauto].
  destruct (new_validator d) as [v|x e] eqn:Ev; [|cbn; eauto].
  cbn [App.app_init_error App.db_schema_dict App.nl_converter App.sql_validator].
  rewrite (bool_decide_eq_false_2 (d = ∅)) by exact Hd.
  rewrite !bool_decide_eq_true_2 by eauto. cbn [negb orb]. eauto 10.
Qed.

(** X20.  The page is drawn exactly when the schema was loaded and is not
    empty and the converter and the validator were made.  Otherwise the
    script stops with the message of the initialization; the second check,
    on the parts themselves, never stops it. *)
Theorem startup_stops_on_init_error :
  (App.startup schema_info new_converter new_validator = App.Page
   ↔ ∃ d s c v, schema_info = Return (d, s) ∧ d ≠ ∅
                ∧ new_converter = Return c ∧ new_validator d = Return v)
  ∧ ∀ error,
      App.startup schema_info new_converter new_validator = App.Stopped error →
      ∃ m, App.app_init_error
             (App.initialize_app_resources schema_info new_converter
                new_validator) = Some m
           ∧ error = py "Application Initialization Failed: " ++ m.
Proof.
  pose proof startup_cases as H. split; [split|].
  - intros E. now rewrite E in H.
  - intros (d & s & c & v & -> & Hd & -> & Hv).
    unfold App.startup, App.initialize_app_resources.
    rewrite (bool_decide_eq_false_2 (d = ∅)) by exact Hd. rewrite Hv.
    cbn [App.app_init_error App.db_schema_dict App.nl_converter
         App.sql_validator].
    rewrite (bool_decide_eq_false_2 (d = ∅)) by exact Hd.
    now rewrite !bool_decide_eq_true_2 by eauto.
  - intros error E. now rewrite E in H.
Qed.

End StartupFacts.

(** The users schema, and a converter and a validator that are made. *)
Lemma startup_stops_on_init_error_witness :
  App.startup (Return (users_schema, users_text)) (Return tt)
    (λ _, Return tt) = App.Page.
Proof.
  refine (proj2 (proj1 (startup_stops_on_init_error unit unit
                          (Return (users_schema, users_text)) (Return tt)
                          (λ _, Return tt))) _).
  exists users_schema, users_text, tt, tt.
  split; [reflexivity|]. split; [apply users_schema_nonempty|].
  split; reflexivity.
Defined.

Section SubmitFacts.

Variable row : Type.
Variable translate : str → str → outcome str.
Variable db_schema_str : str.
Variable parse : str → list statement.
Variable iter : gset str → list str.
Variable db_schema_dict : gmap str (list str).
Variable execute_query : str → outcome (list str * list row).
Variable subclass : string → string → bool.

Local Abbreviation submit :=
  (App.submit translate db_schema_str parse iter db_schema_dict execute_query
     subclass).

Lemma submit_spec nl :
  match translate nl db_schema_str with
  | Return sql =>
      match validate parse iter db_schema_dict sql with
      | Return (true, _) =>
          sql ≠ []
          ∧ (submit nl).2 = [sql]
          ∧ App.generated_sql (submit nl).1 = sql
          ∧ match execute_query sql with
            | Return r =>
                App.query_results (submit nl).1 = Some r
                ∧ App.error_message (submit nl).1 = []
            | Raise _ e =>
                App.query_results (submit nl).1 = None
                ∧ App.error_message (submit nl).1
                  = py "SQL Execution Failed: " ++ e
            end
      | _ =>
          (submit nl).2 = [] ∧ App.query_results (submit nl).1 = None
          ∧ App.generated_sql (submit nl).1 = sql
          ∧ (sql = [] ∨ App.error_message (submit nl).1 ≠ [])
      end
  | Raise _ _ =>
      (submit nl).2 = [] ∧ App.query_results (submit nl).1 = None
      ∧ App.generated_sql (submit nl).1 = []
      ∧ App.error_message (submit nl).1 ≠ []
  end.
Proof.
  unfold App.submit, App.translate_step.
  cbn [App.generated_sql App.error_message App.nl_query App.query_results].
  destruct (translate nl db_schema_str) as [sql|exn e].
  - unfold App.validate_step.
    cbn [App.generated_sql App.error_message App.nl_query App.query_results].
    rewrite (bool_decide_eq_true_2 ([] = [])) by reflexivity.
    destruct sql as [|c sql].
    { rewrite bool_decide_eq_true_2 by reflexivity. cbn [negb andb fst snd].
      assert (validate parse iter db_schema_dict [] = Return (false, py "SQL query is empty.")) as ->
        by reflexivity.
      cbn. auto. }
    rewrite bool_decide_eq_false_2 by discriminate. cbn [negb andb].
    destruct (validate parse iter db_schema_dict (c :: sql)) as [[[] msg]|x m].
    + cbn [negb]. unfold App.execute_step.
      cbn [App.generated_sql App.error_message App.nl_query App.query_results].
      rewrite (bool_decide_eq_true_2 ([] = [])) by reflexivity.
      split; [discriminate|].
      destruct (execute_query (c :: sql)) as [[cols data]|x e]; cbn; auto.
    + cbn [negb]. unfold App.execute_step.
      cbn [App.generated_sql App.error_message App.nl_query App.query_results].
      rewrite bool_decide_eq_false_2 by discriminate. cbn.
      repeat split. right. discriminate.
    + unfold App.execute_step.
      cbn [App.generated_sql App.error_message App.nl_query App.query_results].
      rewrite bool_decide_eq_false_2 by discriminate. cbn.
      repeat split. right. discriminate.
  - unfold App.validate_step.
    cbn [App.generated_sql App.error_message App.nl_query App.query_results].
    rewrite (bool_decide_eq_true_2 ([] = [])) by reflexivity. cbn.
    repeat split.
    destruct (is_a _ _ _); [discriminate|].
    destruct (is_a _ _ _); discriminate.
Qed.

(** X21.  After a submission the page holds results or an error message,
    never both: results are there only when [execute_query] was called and
    returned them, which happens at most once and only with the text
    that [translate] returned and [validate] accepted; that text is then
    the one on show. *)
Theorem submit_results_validated (nl_query_input : str) r :
  App.query_results (submit nl_query_input).1 = Some r →
  App.error_message (submit nl_query_input).1 = []
  ∧ ∃ sql,
      translate nl_query_input db_schema_str = Return sql
      ∧ validate parse iter db_schema_dict sql
        = Return (true, py "SQL Validated")
      ∧ execute_query sql = Return r
      ∧ App.generated_sql (submit nl_query_input).1 = sql
      ∧ (submit nl_query_input).2 = [sql].
Proof.
  pose proof (submit_spec nl_query_input) as H.
  destruct (translate nl_query_input db_schema_str) as [sql|];
    [|destruct H as (_ & -> & _); discriminate].
  destruct (validate parse iter db_schema_dict sql) as [[[] msg]|] eqn:Ev;
    try (destruct H as (_ & -> & _); discriminate).
  destruct H as (_ & H1 & H2 & H3).
  destruct (execute_query sql) as [r'|] eqn:Ee; destruct H3 as [-> H4];
    [|discriminate].
  intros [= ->]. split; [exact H4|]. exists sql.
  pose proof (validate_accepted_message _ _ _ _ _ Ev) as ->. auto.
Qed.

End SubmitFacts.

Lemma submit_results_validated_witness :
  let page :=
    App.submit sample_translate users_text sample_parse elements users_schema
      sample_execute (λ _ _, false) (py "all users") in
  App.query_results page.1 = Some ([py "user_id"], [])
  ∧ App.error_message page.1 = []
  ∧ page.2 = [py "SELECT * FROM users;"].
Proof.
  intros page.
  assert (App.query_results page.1 = Some ([py "user_id"], [])) as H.
  { unfold page, App.submit, App.translate_step, App.validate_step.
    cbn [App.generated_sql App.error_message App.nl_query App.query_results
         sample_translate].
    rewrite validate_users_sample. reflexivity. }
  split; [exact H|].
  destruct (submit_results_validated _ _ _ _ _ _ _ _ _ _ H)
    as (He & sql & [= <-] & _ & _ & _ & Hc).
  split; [exact He | exact Hc].
Defined.

(** X22.  The page and the command line run the same texts for a question
    that is not empty: with the same schema, converter, parser and database
    behind them, the form, submitted with the question, calls
    [execute_query] with the texts with which [main] calls it for that
    question.  Without the button or with no text in the form the page
    calls nothing and leaves the session as it is. *)
Theorem submit_calls_as_main {row frame : Type}
  (d : gmap str (list str)) (s : str) (translate : str → str → outcome str)
  (parse : str → list statement) (iter : gset str → list str)
  (execute_query : str → outcome (list str * list row))
  (DataFrame : list row → list str → outcome frame)
  (to_string : frame → outcome str) (subclass : string → string → bool)
  (submit_button : bool) (nl_query : str) (state : App.session_state row) :
  let page :=
    App.on_form translate s parse iter d execute_query subclass
      submit_button nl_query state in
  d ≠ ∅ →
  (submit_button = true → nl_query ≠ [] →
   page.2
   = calls (main (Return (d, s)) (Return tt) translate parse iter
              execute_query DataFrame to_string subclass
              (Namespace nl_query)))
  ∧ (submit_button = false ∨ nl_query = [] → page = (state, [])).
Proof.
  intros page Hd. unfold page, App.on_form. split.
  - intros -> Hq. rewrite bool_decide_eq_false_2 by exact Hq. cbn [andb negb].
    rewrite main_calls_eq.
    rewrite (bool_decide_eq_false_2 (d = ∅)) by exact Hd.
    pose proof (submit_spec row translate s parse iter d execute_query subclass
                  nl_query) as H.
    destruct (translate nl_query s) as [sql|]; [|apply H].
    destruct (validate parse iter d sql) as [[[] msg]|]; apply H.
  - intros [->| ->]; [reflexivity|].
    rewrite bool_decide_eq_true_2 by reflexivity. now rewrite andb_false_r.
Qed.

Lemma submit_calls_as_main_witness :
  (App.on_form sample_translate users_text sample_parse elements users_schema
     sample_execute (λ _ _, false) true (py "all users")
     (App.SessionState [] [] None [])).2
  = calls (main (Return (users_schema, users_text)) (Return tt)
             sample_translate sample_parse elements sample_execute
             (λ _ _, Return tt) (λ _ : unit, Return []) (λ _ _, false)
             (Namespace (py "all users"))).
Proof.
  apply (proj1 (submit_calls_as_main users_schema users_text sample_translate
                  sample_parse elements sample_execute (λ _ _, Return tt)
                  (λ _ : unit, Return []) (λ _ _, false) true (py "all users")
                  (App.SessionState [] [] None []) users_schema_nonempty)).
  - reflexivity.
  - discriminate.
Defined.

(** ** config.py and the making of a converter *)

Lemma truthy_spec v : Config.truthy v = true ↔ ∃ c s, v = Some (c :: s).
Proof.
  destruct v as [[|c s]|]; cbn; split; try discriminate; eauto;
    intros (c' & s' & H); discriminate H.
Qed.

Lemma load_returns environ cfg :
  Config.load environ = Return cfg →
  Config.truthy (environ !! py "DB_USER") = true
  ∧ Config.truthy (environ !! py "DB_PASSWORD") = true
  ∧ Config.truthy (environ !! py "DB_NAME") = true
  ∧ Config.truthy (environ !! py "OLLAMA_MODEL") = true
  ∧ Config.OLLAMA_MODEL cfg = environ !! py "OLLAMA_MODEL"
  ∧ Config.OLLAMA_BASE_URL cfg
    = Some (default (py "http://localhost:11434")
              (environ !! py "OLLAMA_BASE_URL")).
Proof.
  unfold Config.load, Config.getenv. cbn [forallb].
  destruct (environ !! py "DB_USER") as [u|]; [|discriminate].
  destruct (environ !! py "DB_PASSWORD") as [p|];
    [|rewrite andb_false_r; discriminate].
  destruct (environ !! py "DB_NAME") as [n|];
    [|rewrite !andb_false_r; discriminate].
  destruct (Config.truthy (Some u)); [|discriminate].
  destruct (Config.truthy (Some p)); [|discriminate].
  destruct (Config.truthy (Some n)); [|discriminate].
  cbn [andb negb].
  destruct (environ !! py "OLLAMA_MODEL") as [m|]; [|discriminate].
  destruct (Config.truthy (Some m)); [|discriminate]. cbn [negb].
  destruct (environ !! py "OLLAMA_BASE_URL");
    intros [= <-]; cbn [Config.OLLAMA_MODEL Config.OLLAMA_BASE_URL];
    repeat split.
Qed.

(** X23.  Once config.py has loaded, a converter made without arguments
    finds its model set.  Its own check of the settings fails in one case
    only, which config.py lets pass: the variable OLLAMA_BASE_URL set to the
    empty text; the server is not asked then.  In every other case the
    server at the address of the environment, or at the default one, is
    asked for its models: whatever models it lists, the model of the settings
    among them or not, the converter is made; a failed request ends in a
    [ConnectionError] that names the address, and any other exception is
    handed on. *)
Theorem init_after_config (environ : gmap str str) (cfg : Config.settings)
  (get_tags : str → Converter.tags_reply) :
  Config.load environ = Return cfg →
  ∃ model,
    environ !! py "OLLAMA_MODEL" = Some model ∧ model ≠ []
    ∧ let url :=
        default (py "http://localhost:11434")
          (environ !! py "OLLAMA_BASE_URL") in
      let made := Converter.__init__ get_tags cfg None None in
      (url = [] → made = Raise "ValueError" Converter.not_configured)
      ∧ (url ≠ [] →
         match get_tags (url ++ py "/api/tags") with
         | Converter.Tags names => made = Return (url, model)
         | Converter.RequestFailed e =>
             made = Raise "ConnectionError" (Converter.failed_to_connect url e)
         | Converter.TagsFailed exn msg => made = Raise exn msg
         end).
Proof.
  intros (_ & _ & _ & Hm & Em & Eu)%load_returns.
  apply truthy_spec in Hm as (c & model & Hm). exists (c :: model).
  split; [exact Hm|]. split; [discriminate|].
  unfold Converter.__init__, Converter.or_else. cbn [Config.truthy].
  rewrite Em, Eu, Hm. cbn zeta.
  destruct (default (py "http://localhost:11434")
              (environ !! py "OLLAMA_BASE_URL")) as [|d url];
    (split; [intros E; try discriminate E; reflexivity|]); intros Hne;
    [contradiction|].
  unfold Converter._test_ollama_connection.
  destruct (get_tags _) as [e|exn msg|names]; try reflexivity.
  now destruct (negb _).
Qed.

Lemma full_environment (url : option str) :
  let environ : gmap str str :=
    <[ py "OLLAMA_MODEL" := py "mistral" ]>
    (<[ py "DB_NAME" := py "shop" ]>
    (<[ py "DB_PASSWORD" := py "p" ]>
    (<[ py "DB_USER" := py "u" ]>
       (from_option (λ u, {[ py "OLLAMA_BASE_URL" := u ]}) ∅ url)))) in
  environ !! py "OLLAMA_BASE_URL" = url
  ∧ ∃ cfg, Config.load environ = Return cfg.
Proof.
  intros environ.
  assert (environ !! py "OLLAMA_BASE_URL" = url) as Hu.
  { unfold environ. rewrite !lookup_insert_ne by discriminate.
    destruct url as [u|]; [apply lookup_singleton_eq | apply lookup_empty]. }
  assert (environ !! py "OLLAMA_MODEL" = Some (py "mistral")) as Hm
    by apply lookup_insert_eq.
  assert (environ !! py "DB_NAME" = Some (py "shop")) as Hn.
  { unfold environ. rewrite lookup_insert_ne by discriminate.
    apply lookup_insert_eq. }
  assert (environ !! py "DB_PASSWORD" = Some (py "p")) as Hp.
  { unfold environ. rewrite !lookup_insert_ne by discriminate.
    apply lookup_insert_eq. }
  assert (environ !! py "DB_USER" = Some (py "u")) as Hd.
  { unfold environ. rewrite !lookup_insert_ne by discriminate.
    apply lookup_insert_eq. }
  split; [exact Hu|].
  unfold Config.load, Config.getenv. rewrite Hu, Hm, Hn, Hp, Hd.
  cbn. eauto.
Qed.

(** An environment with everything config.py asks for: with the address of
    the server set to nothing the converter's own check fails; with the
    address left to the default the converter is made though the server has
    another model only, and is not made when the server does not answer. *)
Lemma init_after_config_witness :
  let environ (url : option str) : gmap str str :=
    <[ py "OLLAMA_MODEL" := py "mistral" ]>
    (<[ py "DB_NAME" := py "shop" ]>
    (<[ py "DB_PASSWORD" := py "p" ]>
    (<[ py "DB_USER" := py "u" ]>
       (from_option (λ u, {[ py "OLLAMA_BASE_URL" := u ]}) ∅ url)))) in
  (∃ cfg,
     Config.load (environ (Some [])) = Return cfg
     ∧ Converter.__init__ (λ _, Converter.Tags [py "mistral:latest"]) cfg
         None None
       = Raise "ValueError" Converter.not_configured)
  ∧ ∃ cfg,
      Config.load (environ None) = Return cfg
      ∧ Converter.__init__ (λ _, Converter.Tags [py "llama3:latest"]) cfg
          None None
        = Return (py "http://localhost:11434", py "mistral")
      ∧ Converter.__init__ (λ _, Converter.RequestFailed (py "refused")) cfg
          None None
        = Raise "ConnectionError"
            (Converter.failed_to_connect (py "http://localhost:11434")
               (py "refused")).
Proof.
  intros environ. unfold environ. split.
  - destruct (full_environment (Some [])) as [Hu [cfg Hc]].
    exists cfg. split; [exact Hc|].
    destruct (init_after_config _ cfg
                (λ _, Converter.Tags [py "mistral:latest"]) Hc)
      as (model & _ & _ & E & _).
    apply E. now rewrite Hu.
  - destruct (full_environment None) as [Hu [cfg Hc]].
    exists cfg. split; [exact Hc|]. split.
    + destruct (init_after_config _ cfg
                  (λ _, Converter.Tags [py "llama3:latest"]) Hc)
        as (model & Hm & _ & _ & E).
      rewrite Hu in E. cbn [default] in E.
      rewrite lookup_insert_eq in Hm. injection Hm as <-.
      apply E. discriminate.
    + destruct (init_after_config _ cfg
                  (λ _, Converter.RequestFailed (py "refused")) Hc)
        as (model & _ & _ & _ & E).
      rewrite Hu in E. cbn [default] in E. apply E. discriminate.
Defined.
